(** * TI_TE_wish: reconstruction, map fitting and synthesis of MRI images

    A shallow embedding of [TI_TE_wish.py].  The NumPy arrays of the script are
    nested lists that carry their shape, Python exceptions are an error type,
    [float64] is the kernel's binary64 type, and the arrays that the script
    updates in place live in an explicit store.

    The functions of the libraries that the script calls are parameters of
    the sections that use them: the coefficients of the discrete Fourier
    transform and the magnitude of a complex number (NumPy), the exponential
    (the mathematics library), the arithmetic of NumPy on a Python integer
    that does not fit its 64-bit integers, the bounded least-squares solver
    [curve_fit] (SciPy), the reader of the instrument files (nmrglue) and
    [eval].  The embedding covers [get_images], [T1_function],
    [T2_function], [calculate_maps], [theoret_MRI], [reorder_forT1IR],
    [main], which reads the instrument files and calls them in turn, and
    the lines that call [main] when the file is run as a script.

    The first part holds the definitions, the second the properties. *)

From Stdlib Require Import ZArith Lia Floats Uint63 Ascii String DecimalString DecimalZ DecimalNat.
From stdpp Require Import base tactics option list strings gmap.

Set Default Proof Using "Type".
Set Warnings "-inexact-float".

(** ** Exceptions *)

(** The exceptions that the modelled statements can raise. *)
Inductive exn : Type :=
  | ZeroDivisionError
  | ValueError
  | IndexError
  | TypeError
  | RuntimeError.

Inductive result (A : Type) : Type :=
  | Ok (a : A)
  | Raise (e : exn).
Arguments Ok {A} a.
Arguments Raise {A} e.

Global Instance result_ret : MRet result := λ A a, Ok a.
Global Instance result_bind : MBind result := λ A B k m,
  match m with
  | Ok a => k a
  | Raise e => Raise e
  end.

(** A [for] loop that threads the variables [s] it assigns; the first
    exception ends the loop. *)
Fixpoint for_each `{MBind M, MRet M} {St I}
    (body : St → I → M St) (s : St) (range : list I) : M St :=
  match range with
  | [] => mret s
  | i :: range' => s' ← body s i; for_each body s' range'
  end.

(** A list comprehension whose element expression may raise. *)
Fixpoint comprehension `{MBind M, MRet M} {I B}
    (f : I → M B) (range : list I) : M (list B) :=
  match range with
  | [] => mret []
  | i :: range' => b ← f i; bs ← comprehension f range'; mret (b :: bs)
  end.

(** [int(a / b)] on non-negative integers: true division raises on a zero
    divisor; on the sizes that fit a float exactly the truncated quotient is
    the integer quotient. *)
Definition int_div (a b : nat) : result nat :=
  if decide (b = 0) then Raise ZeroDivisionError else Ok (a / b).

(** [range(start, stop, step)] for a positive [step]. *)
Definition py_range (start stop step : nat) : list nat :=
  (λ i, start + i * step) <$> seq 0 ((stop - start + (step - 1)) / step).

(** ** Arrays *)

(** A two-dimensional [ndarray]: its shape and its rows. *)
Record Array2 (A : Type) : Type := mkArray2 {
  nrows : nat;
  ncols : nat;
  rows : list (list A)
}.
Arguments mkArray2 {A} _ _ _.
Arguments nrows {A} _.
Arguments ncols {A} _.
Arguments rows {A} _.

(** A three-dimensional [ndarray]: a stack of [depth] planes. *)
Record Array3 (A : Type) : Type := mkArray3 {
  depth : nat;
  height : nat;
  width : nat;
  planes : list (list (list A))
}.
Arguments mkArray3 {A} _ _ _ _.
Arguments depth {A} _.
Arguments height {A} _.
Arguments width {A} _.
Arguments planes {A} _.

Section ndarray.
Context {A : Type}.

(** The data of an array agrees with its shape. *)
Definition rows_wf (h w : nat) (rs : list (list A)) : Prop :=
  length rs = h ∧ Forall (λ r, length r = w) rs.

Definition wf2 (a : Array2 A) : Prop := rows_wf (nrows a) (ncols a) (rows a).

Definition wf3 (a : Array3 A) : Prop :=
  length (planes a) = depth a ∧
  Forall (rows_wf (height a) (width a)) (planes a).

(** [np.empty((d, h, w))]: the contents are whatever was in memory, here
    the value [junk]. *)
Definition np_empty3 (junk : A) (d h w : nat) : Array3 A :=
  mkArray3 d h w (replicate d (replicate h (replicate w junk))).

(** [a[start:stop:step, :]] for a positive step: the rows whose index is
    in [range(start, min(stop, len), step)]. *)
Definition slice_rows (a : Array2 A) (start stop step : nat) : Array2 A :=
  let idx := py_range start (stop `min` nrows a) step in
  mkArray2 (length idx) (ncols a) (omap (λ i, rows a !! i) idx).

(** Broadcasting of one axis of length [s] to length [d]: equal lengths
    are kept, a length of one is repeated (also to no element at all),
    anything else is refused. *)
Definition broadcastable (s d : nat) : bool :=
  bool_decide (s = d) || bool_decide (s = 1).

Definition stretch {B} (s d : nat) (l : list B) : list B :=
  if decide (s = d) then l else mjoin (replicate d l).

(** Broadcasting of a two-dimensional source to the shape [(h, w)]. *)
Definition broadcast_to (src : Array2 A) (h w : nat) : result (list (list A)) :=
  if broadcastable (nrows src) h && broadcastable (ncols src) w
  then Ok (stretch (nrows src) h (stretch (ncols src) w <$> rows src))
  else Raise ValueError.

(** [a[k]] of a stack. *)
Definition getitem3 (a : Array3 A) (k : nat) : result (Array2 A) :=
  match planes a !! k with
  | Some p => Ok (mkArray2 (height a) (width a) p)
  | None => Raise IndexError
  end.

(** [a[k] = src]: the source is broadcast to the shape of a plane. *)
Definition setitem3 (a : Array3 A) (k : nat) (src : Array2 A) : result (Array3 A) :=
  if decide (k < depth a) then
    p ← broadcast_to src (height a) (width a);
    Ok (mkArray3 (depth a) (height a) (width a) (<[k:=p]> (planes a)))
  else Raise IndexError.

(** Lines 43 to 49 of [get_images]: dividing the data into k-spaces. *)
Definition get_kspaces (junk : A) (number_of_images : nat) (echoes : Array2 A)
    : result (Array3 A) :=
  m ← int_div (nrows echoes) number_of_images;
  let kspaces := np_empty3 junk number_of_images m (ncols echoes) in
  for_each
    (λ kspaces kspace_no,
       setitem3 kspaces kspace_no
         (slice_rows echoes kspace_no (nrows echoes) number_of_images))
    kspaces (seq 0 number_of_images).

(** The state of the loop of line 47 after [k] passes: the first [k]
    k-spaces hold their slices. *)
Definition filled (echoes : Array2 A) (n m k : nat) (kspaces : Array3 A) : Prop :=
  depth kspaces = n ∧ height kspaces = m ∧ width kspaces = ncols echoes ∧
  length (planes kspaces) = n ∧
  ∀ i, i < k →
    planes kspaces !! i = Some (rows (slice_rows echoes i (nrows echoes) n)).

End ndarray.


(** [np.roll(l, s)]: the element at index [i] moves to [(i + s) mod n]. *)
Definition np_roll {A} (s : nat) (l : list A) : list A :=
  rotate (length l - s `mod` length l) l.

(** The columns of [w]-wide rows. *)
Fixpoint columns {A} (w : nat) (rs : list (list A)) : list (list A) :=
  match rs with
  | [] => replicate w []
  | r :: rs' => zip_with cons r (columns w rs')
  end.

(** [l] cut into [n] consecutive pieces of [k] elements. *)
Definition chunks {A} (n k : nat) (l : list A) : list (list A) :=
  reshape (replicate n k) l.

Section geometry.
Context {A : Type}.

(** [np.fft.fftshift] over both axes: each axis is rolled by half its
    length, rounded down. *)
Definition fftshift (a : Array2 A) : Array2 A :=
  mkArray2 (nrows a) (ncols a)
    (np_roll (nrows a / 2) (np_roll (ncols a / 2) <$> rows a)).

(** [np.flip(a, (1, 0))]: both axes are reversed. *)
Definition flip (a : Array2 A) : Array2 A :=
  mkArray2 (nrows a) (ncols a) (reverse (reverse <$> rows a)).

(** [np.transpose] of a two-dimensional array. *)
Definition transpose (a : Array2 A) : Array2 A :=
  mkArray2 (ncols a) (nrows a) (columns (ncols a) (rows a)).

End geometry.

Definition np_map {A B} (f : A → B) (a : Array2 A) : Array2 B :=
  mkArray2 (nrows a) (ncols a) (fmap (M:=list) f <$> rows a).

(** Entry [(r, c)] of an array. *)
Definition entry {A} (a : Array2 A) (r c : nat) : option A :=
  rows a !! r ≫= (.!! c).

(** The shape two operands broadcast to, along one axis. *)
Definition broadcast_dim (s1 s2 : nat) : result nat :=
  if decide (s1 = s2) then Ok s1
  else if decide (s1 = 1) then Ok s2
  else if decide (s2 = 1) then Ok s1
  else Raise ValueError.

(** An elementwise binary operator on two arrays. *)
Definition np_binop {A B C} (op : A → B → C) (a : Array2 A) (b : Array2 B)
    : result (Array2 C) :=
  h ← broadcast_dim (nrows a) (nrows b);
  w ← broadcast_dim (ncols a) (ncols b);
  ra ← broadcast_to a h w;
  rb ← broadcast_to b h w;
  Ok (mkArray2 h w (zip_with (zip_with op) ra rb)).

(** ** Reconstruction *)

Definition complex : Type := float * float.

Section reconstruction.
(** [dft2 x u v] is the coefficient [(u, v)] of the two-dimensional discrete
    Fourier transform of [x] as the FFT library computes it, [cabs] the
    magnitude of a complex number; [junk_c] and [junk_f] are the contents
    of freshly allocated memory. *)
Variable dft2 : list (list complex) → nat → nat → complex.
Variable cabs : complex → float.
Variables (junk_c : complex) (junk_f : float).

(** [np.fft.fft2]: an axis without data points is refused. *)
Definition np_fft2 (a : Array2 complex) : result (Array2 complex) :=
  if decide (nrows a = 0 ∨ ncols a = 0) then Raise ValueError
  else Ok (mkArray2 (nrows a) (ncols a)
             ((λ u, dft2 (rows a) u <$> seq 0 (ncols a)) <$> seq 0 (nrows a))).

(** Lines 55 to 57 and the right-hand side of line 58. *)
Definition reconstruct (kspace : Array2 complex) : result (Array2 float) :=
  ft ← np_fft2 kspace;
  let ft := fftshift ft in
  let ft := transpose (flip ft) in
  Ok (np_map cabs ft).

Definition get_images (number_of_images : nat) (echoes : Array2 complex)
    : result (Array3 float) :=
  kspaces ← get_kspaces junk_c number_of_images echoes;
  let images := np_empty3 junk_f (depth kspaces) (height kspaces) (width kspaces) in
  for_each
    (λ images kspace_no,
       kspace ← getitem3 kspaces kspace_no;
       image ← reconstruct kspace;
       setitem3 images kspace_no image)
    images (seq 0 number_of_images).

End reconstruction.

(** ** Reordering for inversion recovery *)

Section reorder.
Context {A : Type}.

(** [np.reshape] reads and writes the elements in row-major order. *)
Definition ravel3 (ps : list (list (list A))) : list A := mjoin (mjoin ps).

Definition unravel3 (d h w : nat) (flat : list A) : list (list (list A)) :=
  chunks h w <$> chunks d (h * w) flat.

Definition unravel4 (a b h w : nat) (flat : list A)
    : list (list (list (list A))) :=
  unravel3 b h w <$> chunks a (b * h * w) flat.

Definition reorder_forT1IR (images : Array3 A) (nI number_of_images : nat)
    : result (Array3 A) :=
  let '(d, h, w) := (depth images, height images, width images) in
  s ← int_div number_of_images nI;
  if decide (nI * s * h * w = d * h * w) then
    let images4 := unravel4 nI s h w (ravel3 (planes images)) in
    let images4 := columns s images4 in
    Ok (mkArray3 d h w (unravel3 d h w (ravel3 (mjoin images4))))
  else Raise ValueError.

End reorder.

(** ** Relaxation models *)

(** The two signal equations; [function == T1_function] compares against
    the first. *)
Inductive model : Type :=
  | T1
  | T2.

(** An integer as a [float64]: the nearest value, ties to even, as the
    conversion of an [int64] to a [float64] gives it. *)
Definition float_of_Z (z : Z) : float :=
  SF2Prim (binary_normalize prec emax z 0 false).

(** [np.array(x)] of a Python integer is an [int64] when the integer fits
    (NumPy 1 where the default integer has 64 bits). *)
Definition int64 (x : Z) : Prop := (- 2 ^ 63 ≤ x < 2 ^ 63)%Z.

Global Instance int64_dec (x : Z) : Decision (int64 x).
Proof. unfold int64. apply _. Defined.

(** [-x] of an [int64]: the negation of the least value wraps around to
    that value. *)
Definition int64_neg (x : Z) : Z :=
  if decide (x = (- 2 ^ 63)%Z) then x else (- x)%Z.

(** [np.maximum] of two numbers: a NaN wins. *)
Definition np_maximum (a b : float) : float :=
  if (b <=? a)%float || is_nan a then a else b.

(** [points.max()]: an empty array has no maximum. *)
Definition np_max (points : list float) : result float :=
  match points with
  | [] => Raise ValueError
  | p :: points' => Ok (foldl np_maximum p points')
  end.

(** [a.max()] of a two-dimensional array. *)
Definition np_max2 (a : Array2 float) : result float := np_max (mjoin (rows a)).

(** [a * s] for a scalar [s]. *)
Definition scale (s : float) (a : Array2 float) : Array2 float :=
  np_map (λ p, p * s)%float a.

Section relaxation.
(** The exponential of the mathematics library. *)
Variable np_exp : float → float.

(** [np.exp(-x / T)] for a Python integer [x] that is no [int64]: NumPy
    holds such an integer as a [uint64] or as a Python object, and the
    negation, the division and the exponential of such a value return or
    raise as the library decides. *)
Variable exp_beyond_int64 : Z → Array2 float → result (Array2 float).

(** [np.exp(-x / T)] after [x = np.array(x)], for a time [x] that is a
    Python integer and a map [T]: an [int64] is negated as such and
    converted to a [float64] for the division. *)
Definition decay (x : Z) (T : Array2 float) : result (Array2 float) :=
  if decide (int64 x)
  then Ok (np_map (λ t, np_exp (float_of_Z (int64_neg x) / t))%float T)
  else exp_beyond_int64 x T.

(** [T1_function(x, T1, Mo, C, a)] for a scalar time [x], maps [T1], [Mo]
    and [C], and a scalar [a]. *)
Definition T1_function (x : Z) (T1 Mo C : Array2 float) (a : float)
    : result (Array2 float) :=
  e ← decay x T1;
  m ← np_binop PrimFloat.mul Mo (np_map (λ v, 1 - a * v)%float e);
  y ← np_binop PrimFloat.add m C;
  Ok (np_map PrimFloat.abs y).

(** [T2_function(x, T2, Mo, C)]. *)
Definition T2_function (x : Z) (T2 Mo C : Array2 float) : result (Array2 float) :=
  e ← decay x T2;
  m ← np_binop PrimFloat.mul Mo e;
  np_binop PrimFloat.add m C.

End relaxation.

(** ** The store *)

(** Arrays are objects: a name holds a reference, and an in-place update
    is seen through every reference to the object. *)
Inductive ndarray : Type :=
  | Arr2 (a : Array2 float)
  | Arr3 (a : Array3 float).

Definition ref : Type := nat.

(** The objects allocated so far, and the files of the output folder: the
    name and the image of each, in the order in which they were last
    written. *)
Record world : Type := mkWorld {
  heap : list ndarray;
  folder : list (string * Array2 float)
}.

(** A statement transforms the world and yields a value or raises. *)
Definition M (A : Type) : Type := world → result A * world.

Global Instance M_ret : MRet M := λ A a w, (Ok a, w).
Global Instance M_bind : MBind M := λ A B k m w,
  match m w with
  | (Ok a, w') => k a w'
  | (Raise e, w') => (Raise e, w')
  end.

Definition lift {A} (r : result A) : M A := λ w, (r, w).

Definition alloc (a : ndarray) : M ref := λ w,
  (Ok (length (heap w)), mkWorld (heap w ++ [a]) (folder w)).

(** Reading through a reference to a two-dimensional array; an object of
    another kind is a type error, and so is a reference that was never
    allocated, which no Python name can hold. *)
Definition read2 (r : ref) : M (Array2 float) := λ w,
  match heap w !! r with
  | Some (Arr2 a) => (Ok a, w)
  | _ => (Raise TypeError, w)
  end.

Definition read3 (r : ref) : M (Array3 float) := λ w,
  match heap w !! r with
  | Some (Arr3 a) => (Ok a, w)
  | _ => (Raise TypeError, w)
  end.

(** An in-place update of the object behind [r]. *)
Definition write2 (r : ref) (a : Array2 float) : M () := λ w,
  (Ok (), mkWorld (<[r:=Arr2 a]> (heap w)) (folder w)).

(** [shutil.rmtree(out_folder, ignore_errors=True); os.makedirs(out_folder)]. *)
Definition fresh_folder : M () := λ w, (Ok (), mkWorld (heap w) []).

(** A file written to a folder: a file of that name is replaced. *)
Definition save (files : list (string * Array2 float)) (file : string * Array2 float)
    : list (string * Array2 float) :=
  filter (λ f, f.1 ≠ file.1) files ++ [file].

(** [plt.imsave(fname=fname, arr=arr, cmap='gray')]. *)
Definition imsave (fname : string) (arr : Array2 float) : M () := λ w,
  (Ok (), mkWorld (heap w) (save (folder w) (fname, arr))).

(** [l[j]] of a Python list. *)
Definition index {A} (l : list A) (j : nat) : M A :=
  lift (match l !! j with Some a => Ok a | None => Raise IndexError end).

(** ** Fitting the maps *)

(** [np.array(result)[:, c]] for a list of parameter vectors: an empty
    list gives a one-dimensional array, which has no second axis; vectors
    of different lengths give no rectangular array. *)
Definition column (c : nat) (fitted : list (list float)) : result (list float) :=
  match fitted with
  | [] => Raise IndexError
  | r :: _ =>
      if forallb (λ r', bool_decide (length r' = length r)) fitted then
        if decide (c < length r) then Ok (omap (.!! c) fitted)
        else Raise IndexError
      else Raise ValueError
  end.

(** [np.reshape(np.array(l), (h, w))] for a list of rows. *)
Definition reshape2 (l : list (list float)) (h w : nat) : result (Array2 float) :=
  let flat := mjoin l in
  if decide (length flat = h * w) then Ok (mkArray2 h w (chunks h w flat))
  else Raise ValueError.

Section fitting.
(** [curve_fit function xdata ydata bounds maxfev]: the optimal
    parameters, or the exception the solver raises; a fit that does not
    converge within [maxfev] evaluations raises [RuntimeError]. *)
Variable curve_fit :
  model → list float → list float → list float * list float → nat →
  result (list float).

(** The bounds of lines 99 to 104. *)
Definition bounds (function : model) (points_max : float)
    : list float * list float :=
  match function with
  | T1 =>
      ([0.001; points_max * 0.9; - (points_max / 100 + 1); 1.85]%float,
       [7000; 2 * points_max + 1; points_max / 100 + 1; 2.05]%float)
  | T2 =>
      ([0.001; points_max * 0.9; - (points_max / 100 + 1)]%float,
       [4000; 2 * points_max + 1; points_max / 100 + 1]%float)
  end.

(** [slice1[:, k, j]]. *)
Definition pixel_samples (slice1 : list (list (list float))) (k j : nat)
    : list float :=
  omap (λ image, image !! k ≫= (.!! j)) slice1.

(** The inner function [task] of lines 96 to 115. *)
Definition task (function : model) (T_train : list float)
    (slice1 : list (list (list float))) (k j : nat) : result (list float) :=
  let points := pixel_samples slice1 k j in
  points_max ← np_max points;
  match curve_fit function T_train points (bounds function points_max) 1000 with
  | Ok parameters => Ok parameters
  | Raise RuntimeError =>
      match function with
      | T1 => Ok [0.000001; points_max; 0; 2]%float
      | T2 => Ok [0.000001; points_max; 0]%float
      end
  | Raise e => Raise e
  end.

(** One pass of the loop over [k]: a row of the three maps.  The tasks of
    a row run in parallel and their results come back in the order of the
    columns. *)
Definition fit_row (function : model) (T_train : list float)
    (slice1 : list (list (list float))) (w : nat)
    (lists : list (list float) * list (list float) * list (list float)) (k : nat)
    : result (list (list float) * list (list float) * list (list float)) :=
  let '(T_list, Molist, Clist) := lists in
  fitted ← comprehension (task function T_train slice1 k) (seq 0 w);
  c0 ← column 0 fitted;
  c1 ← column 1 fitted;
  c2 ← column 2 fitted;
  Ok (T_list ++ [c0], Molist ++ [c1], Clist ++ [c2]).

(** One pass of the loop over [i]: the three maps of a run. *)
Definition fit_run (function : model) (T_train : list float)
    (images : Array3 float)
    (maps : list ref * list ref * list ref) (i : nat)
    : M (list ref * list ref * list ref) :=
  let '(T_maps, Momaps, Cmaps) := maps in
  let nE_nI := length T_train in
  let a := nE_nI * i in
  let b := nE_nI * (i + 1) in
  let slice1 := take (b - a) (drop a (planes images)) in
  let '(h, w) := (height images, width images) in
  lists ← lift (for_each (fit_row function T_train slice1 w) ([], [], []) (seq 0 h));
  let '(T_list, Molist, Clist) := lists in
  T_map ← lift (reshape2 T_list h w);
  T_ref ← alloc (Arr2 T_map);
  Momap ← lift (reshape2 Molist h w);
  Mo_ref ← alloc (Arr2 Momap);
  Cmap ← lift (reshape2 Clist h w);
  C_ref ← alloc (Arr2 Cmap);
  mret (T_maps ++ [T_ref], Momaps ++ [Mo_ref], Cmaps ++ [C_ref]).

Definition calculate_maps (images : ref) (T_train : list float) (function : model)
    : M (list ref * list ref * list ref) :=
  stack ← read3 images;
  let nE_nI := length T_train in
  runs ← lift (int_div (depth stack) nE_nI);
  for_each (fit_run function T_train stack) ([], [], []) (seq 0 runs).

End fitting.

(** ** Synthesis *)

Definition py_str_nat (n : nat) : string := NilEmpty.string_of_uint (Nat.to_uint n).
Definition py_str_Z (z : Z) : string := NilEmpty.string_of_int (Z.to_int z).

(** [f'Theoretical_MRI/slice_{j+1}_{txt}_{T_wish[i]}ms.png']. *)
Definition fname (j : nat) (txt : string) (t : Z) : string :=
  "Theoretical_MRI/slice_" +:+ py_str_nat (j + 1) +:+ "_" +:+ txt +:+ "_"
    +:+ py_str_Z t +:+ "ms.png".

(** [txt] of lines 136 to 139. *)
Definition label (function : model) : string :=
  match function with T1 => "TI" | T2 => "TE" end.

Section synthesis.
Variable np_exp : float → float.
Variable exp_beyond_int64 : Z → Array2 float → result (Array2 float).

(** [function(T_wish[i], T_maps[j], Momaps[j], Cmaps[j], 2)] for the first
    model and [function(T_wish[i], T_maps[j], Momaps[j], Cmaps[j])] for
    any other. *)
Definition call_model (function : model) (t : Z) (T_map Momap Cmap : Array2 float)
    : result (Array2 float) :=
  match function with
  | T1 => T1_function np_exp exp_beyond_int64 t T_map Momap Cmap 2%float
  | T2 => T2_function np_exp exp_beyond_int64 t T_map Momap Cmap
  end.

(** The body of the inner loop, lines 151 to 160: the array that line 156
    appends to the list is the object that line 158 rescales in place. *)
Definition synthesize_one (function : model) (txt : string)
    (T_maps Momaps Cmaps : list ref) (t : Z)
    (TheoretImgs : list ref) (j : nat) : M (list ref) :=
  T_ref ← index T_maps j;
  T_map ← read2 T_ref;
  Mo_ref ← index Momaps j;
  Momap ← read2 Mo_ref;
  C_ref ← index Cmaps j;
  Cmap ← read2 C_ref;
  value ← lift (call_model function t T_map Momap Cmap);
  SI_image ← alloc (Arr2 value);
  let TheoretImgs := TheoretImgs ++ [SI_image] in
  current ← read2 SI_image;
  maximum ← lift (np_max2 current);
  _ ← write2 SI_image (scale (255 / maximum) current);
  arr ← read2 SI_image;
  _ ← imsave (fname j txt t) arr;
  mret TheoretImgs.

Definition theoret_MRI (function : model) (T_wish : list Z)
    (T_maps Momaps Cmaps : list ref) : M (list ref) :=
  let txt := label function in
  _ ← fresh_folder;
  for_each
    (λ TheoretImgs t,
       for_each (synthesize_one function txt T_maps Momaps Cmaps t)
         TheoretImgs (seq 0 (length Momaps)))
    [] T_wish.

End synthesis.

(** ** The script *)

(** What [main] reads of the dictionary that [ng.agilent.read] returns: the
    values of the acquisition parameters, by name, and the number of
    traces. *)
Record params : Type := mkParams {
  procpar : gmap string (list string);
  ntraces : nat
}.

(** The exceptions of the script: the [KeyError] of a dictionary, the
    exceptions of the functions above, and those of the calls into
    [nmrglue] and of [eval], by the name of their class. *)
Inductive error : Type :=
  | KeyError
  | Exn (e : exn)
  | Library (class : string).

Inductive outcome (A : Type) : Type :=
  | Returns (a : A)
  | Raises (e : error).
Arguments Returns {A} a.
Arguments Raises {A} e.

(** The interpreter: the names defined at module level, the lines printed
    so far, and the store. *)
Record session : Type := mkSession {
  globals : gset string;
  stdout : list string;
  store : world
}.

Definition Script (A : Type) : Type := session → outcome A * session.

Global Instance Script_ret : MRet Script := λ A a s, (Returns a, s).
Global Instance Script_bind : MBind Script := λ A B k m s,
  match m s with
  | (Returns a, s') => k a s'
  | (Raises e, s') => (Raises e, s')
  end.

(** [del globals()[name]]. *)
Definition del_global (name : string) : Script () := λ s,
  if decide (name ∈ globals s)
  then (Returns (), mkSession (globals s ∖ {[name]}) (stdout s) (store s))
  else (Raises KeyError, s).

(** An assignment to the name [name] at module level. *)
Definition set_global (name : string) : Script () := λ s,
  (Returns (), mkSession ({[name]} ∪ globals s) (stdout s) (store s)).

Definition print (line : string) : Script () := λ s,
  (Returns (), mkSession (globals s) (stdout s ++ [line]) (store s)).

(** A call of one of the functions above, on the store. *)
Definition stage {A} (m : M A) : Script A := λ s,
  match m (store s) with
  | (Ok a, w) => (Returns a, mkSession (globals s) (stdout s) w)
  | (Raise e, w) => (Raises (Exn e), mkSession (globals s) (stdout s) w)
  end.

(** An expression that returns or raises and changes nothing. *)
Definition eval_to {A} (r : outcome A) : Script A := λ s, (r, s).

(** [params['procpar'][name]['values']]. *)
Definition values (p : params) (name : string) : Script (list string) :=
  eval_to (match procpar p !! name with
           | Some v => Returns v
           | None => Raises KeyError
           end).

(** [params['procpar'][name]['values'][0]]. *)
Definition first_value (p : params) (name : string) : Script string :=
  v ← values p name;
  eval_to (match v with
           | x :: _ => Returns x
           | [] => Raises (Exn IndexError)
           end).

(** [params['procpar']['layout']['values'][0] == layout and
    params['procpar']['ir']['values'][0] == ir]: the second operand is
    evaluated only when the first holds. *)
Definition recognised (p : params) (layout ir : string) : Script bool :=
  l ← first_value p "layout";
  if decide (l = layout) then
    i ← first_value p "ir";
    mret (bool_decide (i = ir))
  else mret false.

(** What [main] returns. *)
Inductive returned : Type :=
  | PyNone
  | Images (TheoretImgs : list ref)
  | ImagesAndMaps (TheoretImgs T_maps Momaps : list ref).

(** The end of both branches: the value returned depends on [glob_var];
    without a [return] statement the function returns [None]. *)
Definition return_by (glob_var : Z) (TheoretImgs T_maps Momaps : list ref)
    : returned :=
  if decide (glob_var = 1%Z) then Images TheoretImgs
  else if decide (glob_var = 2%Z) then ImagesAndMaps TheoretImgs T_maps Momaps
  else PyNone.

(** [TheoretImgs, T_maps, Momaps = value]: [None] cannot be unpacked, and a
    list only when it has three entries. *)
Definition unpack3 (value : returned) : Script () :=
  match value with
  | ImagesAndMaps _ _ _ => mret ()
  | Images l =>
      if decide (length l = 3) then mret () else eval_to (Raises (Exn ValueError))
  | PyNone => eval_to (Raises (Exn TypeError))
  end.

Section script.
(** [ng.agilent.read(dir=path)] and [eval] are functions of their argument;
    a value of an acquisition parameter evaluates to a float. *)
Variable agilent_read : string → outcome (params * Array2 complex).
Variable py_eval : string → outcome float.
Variable dft2 : list (list complex) → nat → nat → complex.
Variable cabs : complex → float.
Variables (junk_c : complex) (junk_f : float).
Variable np_exp : float → float.
Variable exp_beyond_int64 : Z → Array2 float → result (Array2 float).
Variable curve_fit :
  model → list float → list float → list float * list float → nat →
  result (list float).

(** Lines 187 to 219: the branch of the inversion-recovery data.  The
    stack that the fit reads is an object of the store. *)
Definition sems_ir (p : params) (echoes : Array2 complex) (T_wish : list Z)
    (glob_var : Z) : Script returned :=
  _ ← print "(1/3) Recognised T1-weighted (SEMS-IR) images.";
  ti ← values p "ti";
  evaluated ← comprehension (λ i, eval_to (py_eval i)) ti;
  let TI_train := (λ x, x * 1000)%float <$> evaluated in
  let number_of_images := ntraces p * length TI_train in
  _ ← print "(2/3) Calculations in progress - please have patience...";
  images ← stage (lift (get_images dft2 cabs junk_c junk_f number_of_images echoes));
  images ← stage (lift (reorder_forT1IR images (length TI_train) number_of_images));
  images ← stage (alloc (Arr3 images));
  '(T1maps, Momaps, Cmaps) ← stage (calculate_maps curve_fit images TI_train T1);
  TheoretImgs ←
    stage (theoret_MRI np_exp exp_beyond_int64 T1 T_wish T1maps Momaps Cmaps);
  _ ← print "(3/3) New image(s) saved.";
  mret (return_by glob_var TheoretImgs T1maps Momaps).

(** Lines 221 to 249: the branch of the multi-echo data. *)
Definition mems (p : params) (echoes : Array2 complex) (T_wish : list Z)
    (glob_var : Z) : Script returned :=
  _ ← print "(1/3) Recognised T2-weighted (MEMS) images.";
  te ← values p "TE";
  TE_train ← comprehension (λ i, eval_to (py_eval i)) te;
  let number_of_images := ntraces p in
  _ ← print "(2/3) Calculations in progress - please have patience...";
  images ← stage (lift (get_images dft2 cabs junk_c junk_f number_of_images echoes));
  images ← stage (alloc (Arr3 images));
  '(T2maps, Momaps, Cmaps) ← stage (calculate_maps curve_fit images TE_train T2);
  TheoretImgs ←
    stage (theoret_MRI np_exp exp_beyond_int64 T2 T_wish T2maps Momaps Cmaps);
  _ ← print "(3/3) New image(s) saved.";
  mret (return_by glob_var TheoretImgs T2maps Momaps).

Definition main (path : string) (T_wish : list Z) (glob_var : Z) : Script returned :=
  _ ← del_global "path";
  _ ← del_global "T_wish";
  _ ← del_global "glob_var";
  '(p, echoes) ← eval_to (agilent_read path);
  t1 ← recognised p "sems" "y";
  if (t1 : bool) then sems_ir p echoes T_wish glob_var
  else
    t2 ← recognised p "mems" "n";
    if (t2 : bool) then mems p echoes T_wish glob_var
    else
      _ ← print "Error: not SEMS-IR nor MEMS data.";
      mret PyNone.

(** Lines 256 to 265, for the values [path], [T_wish] and [glob_var] of
    lines 13 to 22. *)
Definition script (path : string) (T_wish : list Z) (glob_var : Z) : Script () :=
  if decide (glob_var = 1%Z) then
    _ ← main path T_wish glob_var;
    set_global "TheoretImgs"
  else if decide (glob_var = 2%Z) then
    value ← main path T_wish glob_var;
    _ ← unpack3 value;
    _ ← set_global "TheoretImgs";
    _ ← set_global "T_maps";
    set_global "Momaps"
  else
    _ ← main path T_wish glob_var;
    mret ().

End script.

(** The names defined after a statement were defined before it. *)
Definition defines_nothing {A} (m : Script A) : Prop :=
  ∀ s, globals (m s).2 ⊆ globals s.

(** The three names of lines 13 to 22 are defined, as they are once the
    module has been loaded. *)
Definition loaded (s : session) : Prop :=
  "path" ∈ globals s ∧ "T_wish" ∈ globals s ∧ "glob_var" ∈ globals s.

(** The session after the deletions of lines 176 to 178. *)
Definition entered (s : session) : session :=
  mkSession (globals s ∖ {["path"]} ∖ {["T_wish"]} ∖ {["glob_var"]})
    (stdout s) (store s).

(** ** What a synthesis run writes *)

(** The maps of a run. *)
Definition run_maps : Type := Array2 float * Array2 float * Array2 float.

(** The references of a call point to the maps of [runs]; the loops run
    over the length of [Momaps]. *)
Definition maps_at (h : list ndarray) (T_maps Momaps Cmaps : list ref)
    (runs : list run_maps) : Prop :=
  length Momaps = length runs ∧
  ∀ j tm mo c, runs !! j = Some (tm, mo, c) →
    ∃ T_ref Mo_ref C_ref,
      T_maps !! j = Some T_ref ∧ Momaps !! j = Some Mo_ref ∧
      Cmaps !! j = Some C_ref ∧
      h !! T_ref = Some (Arr2 tm) ∧ h !! Mo_ref = Some (Arr2 mo) ∧
      h !! C_ref = Some (Arr2 c).

(** The value of the model over the maps of a run. *)
Definition model_value (np_exp : float → float)
    (exp_beyond_int64 : Z → Array2 float → result (Array2 float))
    (function : model) (t : Z) (run : run_maps) : result (Array2 float) :=
  let '(tm, mo, c) := run in call_model np_exp exp_beyond_int64 function t tm mo c.

(** The array behind [SI_image] after line 158. *)
Definition rescaled (value : Array2 float) : result (Array2 float) :=
  maximum ← np_max2 value;
  Ok (scale (255 / maximum) value).

(** The image of a run at a requested time, as written to the folder. *)
Definition synthesized (np_exp : float → float)
    (exp_beyond_int64 : Z → Array2 float → result (Array2 float))
    (function : model) (t : Z) (run : run_maps) : result (Array2 float) :=
  value ← model_value np_exp exp_beyond_int64 function t run;
  rescaled value.

(** The names of the files of one requested time, in the order written. *)
Definition names_for (txt : string) (runs : nat) (t : Z) : list string :=
  (λ j, fname j txt t) <$> seq 0 runs.

(** The files of one requested time. *)
Definition files_for (txt : string) (runs : nat) (t : Z)
    (imgs : list (Array2 float)) : list (string * Array2 float) :=
  zip (names_for txt runs t) imgs.

(** The files of a call, in the order written. *)
Definition files_of (txt : string) (runs : nat) (T_wish : list Z)
    (imgss : list (list (Array2 float))) : list (string * Array2 float) :=
  mjoin (zip_with (files_for txt runs) T_wish imgss).

(** A folder after the files [written] have been written to it, in that
    order. *)
Definition saved (written files : list (string * Array2 float))
    : list (string * Array2 float) :=
  foldl save files written.

(** The three maps have one shape, hold their data, and are not empty. *)
Definition run_ok (run : run_maps) : Prop :=
  let '(tm, mo, c) := run in
  wf2 tm ∧ wf2 mo ∧ wf2 c ∧
  nrows mo = nrows tm ∧ nrows c = nrows tm ∧
  ncols mo = ncols tm ∧ ncols c = ncols tm ∧
  0 < nrows tm ∧ 0 < ncols tm.

(** The character [sep] does not occur in [s]. *)
Fixpoint avoids (sep : ascii) (s : string) : Prop :=
  match s with
  | EmptyString => True
  | String c s' => c ≠ sep ∧ avoids sep s'
  end.

(** The names of all files of a call, in the order written. *)
Definition names_of (txt : string) (runs : nat) (T_wish : list Z) : list string :=
  mjoin (names_for txt runs <$> T_wish).

(** ** What the fit of a run computes *)

(** [images[a:b]] for run [i] of a train of [n] times. *)
Definition run_slice (n : nat) (stack : Array3 float) (i : nat)
    : list (list (list float)) :=
  take (n * (i + 1) - n * i) (drop (n * i) (planes stack)).

(** The number of parameters of a model. *)
Definition arity (function : model) : nat :=
  match function with T1 => 4 | T2 => 3 end.

Section settled.
Variable curve_fit :
  model → list float → list float → list float * list float → nat →
  result (list float).

(** The call of the solver that [task] makes for pixel [(k, j)] of the
    images [slice1] returns one value per parameter, or reports that the fit
    did not converge. *)
Definition settles (function : model) (T_train : list float)
    (slice1 : list (list (list float))) (k j : nat) : Prop :=
  ∀ points_max,
    np_max (pixel_samples slice1 k j) = Ok points_max →
    match curve_fit function T_train (pixel_samples slice1 k j)
            (bounds function points_max) 1000 with
    | Ok parameters => length parameters = arity function
    | Raise e => e = RuntimeError
    end.

(** The same of every call that [calculate_maps] makes on a stack: one for
    each pixel of each complete run. *)
Definition settles_on (function : model) (T_train : list float)
    (stack : Array3 float) : Prop :=
  ∀ i k j,
    i < depth stack / length T_train → k < height stack → j < width stack →
    settles function T_train (run_slice (length T_train) stack i) k j.

End settled.

(** Entry [(k, j)] of a map. *)
Definition pixel (a : Array2 float) (k j : nat) : option float :=
  rows a !! k ≫= (.!! j).

Section fitted.
Variable curve_fit :
  model → list float → list float → list float * list float → nat →
  result (list float).

(** Row [k] of the three maps holds, at every column, the first three
    values that [task] returns for that pixel. *)
Definition row_fitted (function : model) (T_train : list float)
    (slice1 : list (list (list float))) (w k : nat)
    (T_row Mo_row C_row : list float) : Prop :=
  length T_row = w ∧ length Mo_row = w ∧ length C_row = w ∧
  ∀ j, j < w →
    ∃ parameters,
      task curve_fit function T_train slice1 k j = Ok parameters ∧
      T_row !! j = parameters !! 0 ∧ Mo_row !! j = parameters !! 1 ∧
      C_row !! j = parameters !! 2.

(** The three maps of a run hold, at every pixel, the first three values
    that [task] returns for it. *)
Definition maps_fitted (function : model) (T_train : list float)
    (slice1 : list (list (list float))) (h w : nat)
    (T_map Momap Cmap : Array2 float) : Prop :=
  (nrows T_map, ncols T_map) = (h, w) ∧ (nrows Momap, ncols Momap) = (h, w) ∧
  (nrows Cmap, ncols Cmap) = (h, w) ∧
  ∀ k j, k < h → j < w →
    ∃ parameters,
      task curve_fit function T_train slice1 k j = Ok parameters ∧
      pixel T_map k j = parameters !! 0 ∧ pixel Momap k j = parameters !! 1 ∧
      pixel Cmap k j = parameters !! 2.

(** Run [i] of the lists returned points to three maps of the store that
    are fitted to the images of that run. *)
Definition fitted_at (function : model) (T_train : list float)
    (stack : Array3 float) (h : list ndarray) (T_maps Momaps Cmaps : list ref)
    (i : nat) : Prop :=
  ∃ T_ref Mo_ref C_ref T_map Momap Cmap,
    T_maps !! i = Some T_ref ∧ Momaps !! i = Some Mo_ref ∧ Cmaps !! i = Some C_ref ∧
    h !! T_ref = Some (Arr2 T_map) ∧ h !! Mo_ref = Some (Arr2 Momap) ∧
    h !! C_ref = Some (Arr2 Cmap) ∧
    maps_fitted function T_train (run_slice (length T_train) stack i)
      (height stack) (width stack) T_map Momap Cmap.

End fitted.

(** ** The bounds in the words of the specification *)

Definition spec_lower (function : model) (m : float) : list float :=
  match function with
  | T1 => [0.001; 0.9 * m; - (m / 100 + 1); 1.85]%float
  | T2 => [0.001; 0.9 * m; - (m / 100 + 1)]%float
  end.

Definition spec_upper (function : model) (m : float) : list float :=
  match function with
  | T1 => [7000; 2 * m + 1; m / 100 + 1; 2.05]%float
  | T2 => [4000; 2 * m + 1; m / 100 + 1]%float
  end.

(** The sentinel parameters of a fit that did not converge. *)
Definition sentinel (function : model) (m : float) : list float :=
  match function with
  | T1 => [0.000001; m; 0; 2]%float
  | T2 => [0.000001; m; 0]%float
  end.

(** What becomes of the outcome of the regression: the parameters of a fit
    that converged, the sentinel when it did not, any other exception as
    it is. *)
Definition after_fit (function : model) (m : float)
    (outcome : result (list float)) : result (list float) :=
  match outcome with
  | Ok parameters => Ok parameters
  | Raise RuntimeError => Ok (sentinel function m)
  | Raise e => Raise e
  end.

(** ** The maximum in the words of the specification *)

(** [m] is the maximum of the samples [points]: it is one of the samples;
    when no sample is a NaN no sample is above it; when a sample is a NaN it
    is a NaN. *)
Definition sample_maximum (points : list float) (m : float) : Prop :=
  m ∈ points ∧
  (Forall (λ p, is_nan p = false) points →
   Forall (λ p, (p <=? m)%float = true) points) ∧
  (Exists (λ p, is_nan p = true) points → is_nan m = true).

(** ** Stacks and worlds that differ in part *)

(** Two stacks of one shape and [n] planes that agree on their first [k]
    planes. *)
Definition agree_to {A} (n k : nat) (a a' : Array3 A) : Prop :=
  depth a = depth a' ∧ height a = height a' ∧ width a = width a' ∧
  length (planes a) = n ∧ length (planes a') = n ∧
  ∀ i, i < k → planes a !! i = planes a' !! i.

(** The world [w'] is the world [w] with another stack behind [images]. *)
Definition differ_at (images : ref) (stack' : Array3 float) (w w' : world) : Prop :=
  images < length (heap w) ∧
  heap w' = <[images:=Arr3 stack']> (heap w) ∧ folder w' = folder w.

(** ** Stand-ins for worked examples *)

(** An exponential for the examples: the second-order Taylor polynomial,
    which is exact at zero. *)
Definition exp_stub (x : float) : float := (1 + x + x * x / 2)%float.

(** A library for the examples that refuses every integer beyond
    [int64]. *)
Definition beyond_stub (x : Z) (T : Array2 float) : result (Array2 float) :=
  Raise TypeError.

(** A solver for the examples: no fit converges. *)
Definition never_converges (function : model) (xdata ydata : list float)
    (bounds : list float * list float) (maxfev : nat) : result (list float) :=
  Raise RuntimeError.

(** A solver for the examples: bounds that leave no room are refused; the
    fit does not converge when the first sample is below 4; otherwise the
    lower bounds are returned. *)
Definition fits_bright (function : model) (xdata ydata : list float)
    (bounds : list float * list float) (maxfev : nat) : result (list float) :=
  if forallb (λ lu, (lu.1 <? lu.2)%float) (zip bounds.1 bounds.2) then
    match ydata with
    | y :: _ => if (y <? 4)%float then Raise RuntimeError else Ok bounds.1
    | [] => Raise ValueError
    end
  else Raise ValueError.

(** Two runs of two images of one row and two columns. *)
Definition example_stack : Array3 float :=
  mkArray3 4 1 2 [[[1; 2]]; [[3; 4]]; [[5; 6]]; [[7; 8]]]%float.

(** A transform for the examples: the coefficients are the data. *)
Definition dft_stub (x : list (list complex)) (u v : nat) : complex :=
  default (0, 0)%float (x !! u ≫= (.!! v)).

(** A solver for the examples that refuses its data. *)
Definition always_refuses (function : model) (xdata ydata : list float)
    (bounds : list float * list float) (maxfev : nat) : result (list float) :=
  Raise ValueError.

(** Six images of one pixel. *)
Definition six_images : Array3 float :=
  mkArray3 6 1 1 [[[1]]; [[2]]; [[3]]; [[4]]; [[5]]; [[6]]]%float.

(** An acquisition for the examples: one trace of one point, one
    inversion time and one echo time. *)
Definition example_params (layout ir : string) : params :=
  mkParams {[ "layout" := [layout]; "ir" := [ir];
              "ti" := ["0.05"]; "TE" := ["0.01"] ]} 1.

Definition read_stub (layout ir : string) (path : string)
    : outcome (params * Array2 complex) :=
  Returns (example_params layout ir, mkArray2 1 1 [[(1, 0)%float]]).

Definition eval_stub (value : string) : outcome float := Returns 1%float.








(** The interpreter after the module has been loaded. *)
Definition fresh_session : session :=
  mkSession {[ "path"; "T_wish"; "glob_var" ]} [] (mkWorld [] []).

(** * Properties *)

(** ** Loops in the error monad *)

Lemma for_each_seq_from {St} (P : nat → St → Prop) (body : St → nat → result St)
    (start len : nat) (s : St) :
  P start s →
  (∀ i s, start ≤ i < start + len → P i s → ∃ s', body s i = Ok s' ∧ P (S i) s') →
  ∃ s', for_each body s (seq start len) = Ok s' ∧ P (start + len) s'.
Proof.
  revert start s. induction len as [|len IH]; intros start s HP Hstep; simpl.
  - exists s. by rewrite Nat.add_0_r.
  - destruct (Hstep start s) as (s1 & -> & HP1); [lia|done|]. simpl.
    destruct (IH (S start) s1) as (s2 & -> & HP2); [done| |].
    + intros i s' ? ?. apply Hstep; [lia|done].
    + exists s2. split; [done|]. by replace (start + S len) with (S start + len) by lia.
Qed.

Lemma for_each_seq {St} (P : nat → St → Prop) (body : St → nat → result St) (n : nat) (s : St) :
  P 0 s →
  (∀ i s, i < n → P i s → ∃ s', body s i = Ok s' ∧ P (S i) s') →
  ∃ s', for_each body s (seq 0 n) = Ok s' ∧ P n s'.
Proof.
  intros HP Hstep. apply (for_each_seq_from P body 0 n s HP).
  intros i s' [_ ?] ?. apply Hstep; [lia|done].
Qed.

(** A loop whose first pass raises. *)
Lemma for_each_first_raises {St} (body : St → nat → result St) (n : nat) (s : St) (e : exn) :
  0 < n → body s 0 = Raise e → for_each body s (seq 0 n) = Raise e.
Proof. destruct n as [|n]; [lia|]. intros _ H. simpl. by rewrite H. Qed.

(** ** Slices *)

Lemma py_range_length (start stop step : nat) :
  length (py_range start stop step) = (stop - start + (step - 1)) / step.
Proof. unfold py_range. by rewrite length_fmap, length_seq. Qed.

(** A slice that starts below the step of an exact interleave has one row
    per period. *)
Lemma py_range_length_exact (k n m : nat) :
  k < n → length (py_range k (n * m) n) = m.
Proof.
  intros Hk. rewrite py_range_length.
  destruct m as [|m].
  - rewrite Nat.mul_0_r. simpl. apply Nat.div_small. lia.
  - symmetry. apply (Nat.div_unique _ _ _ (n - 1 - k)); [lia|]. nia.
Qed.

Lemma omap_seq_lookup {A} (h : nat → option A) (start len j : nat) :
  (∀ i, start ≤ i < start + len → is_Some (h i)) →
  j < len → omap h (seq start len) !! j = h (start + j).
Proof.
  revert start j. induction len as [|len IH]; intros start j Hsome Hj; [lia|].
  simpl. destruct (Hsome start) as [x Hx]; [lia|]. rewrite Hx.
  destruct j as [|j]; simpl.
  - by rewrite Nat.add_0_r.
  - rewrite IH; [f_equal; lia| |lia]. intros i ?. apply Hsome. lia.
Qed.

Lemma omap_seq_length {A} (h : nat → option A) (start len : nat) :
  (∀ i, start ≤ i < start + len → is_Some (h i)) →
  length (omap h (seq start len)) = len.
Proof.
  revert start. induction len as [|len IH]; intros start Hsome; [done|].
  simpl. destruct (Hsome start) as [x ->]; [lia|]. simpl.
  rewrite IH; [done|]. intros i ?. apply Hsome. lia.
Qed.

Lemma omap_fmap_seq {A} (f : nat → option A) (g : nat → nat) (start len : nat) :
  omap f (g <$> seq start len) = omap (f ∘ g) (seq start len).
Proof.
  revert start. induction len as [|len IH]; intros start; [done|].
  simpl. by rewrite IH.
Qed.

Section slices.
Context {A : Type}.
Implicit Types (echoes : Array2 A).

(** Row [r] of the [k]-th slice of an exact interleave is row [k + n * r]. *)
Lemma slice_rows_lookup echoes (k n m r : nat) :
  wf2 echoes → nrows echoes = n * m → k < n → r < m →
  rows (slice_rows echoes k (nrows echoes) n) !! r = rows echoes !! (k + n * r) ∧
  is_Some (rows echoes !! (k + n * r)).
Proof.
  intros [Hlen _] Hrows Hk Hr.
  assert (∀ i, i < m → is_Some (rows echoes !! (k + i * n))) as Hsome.
  { intros i Hi. apply lookup_lt_is_Some. rewrite Hlen, Hrows. nia. }
  unfold slice_rows. simpl. rewrite Nat.min_id. unfold py_range.
  rewrite omap_fmap_seq, Hrows.
  pose proof (py_range_length_exact k n m Hk) as Hm.
  rewrite py_range_length in Hm. rewrite Hm.
  rewrite omap_seq_lookup; [|intros i ?; apply Hsome; lia|done].
  simpl. replace (k + r * n) with (k + n * r) by lia.
  split; [done|]. replace (k + n * r) with (k + r * n) by lia. by apply Hsome.
Qed.

Lemma slice_rows_wf echoes (k n m : nat) :
  wf2 echoes → nrows echoes = n * m → k < n →
  rows_wf m (ncols echoes) (rows (slice_rows echoes k (nrows echoes) n)).
Proof.
  intros [Hlen Hall] Hrows Hk.
  unfold slice_rows. simpl. rewrite Nat.min_id. unfold py_range.
  rewrite omap_fmap_seq, Hrows.
  pose proof (py_range_length_exact k n m Hk) as Hm.
  rewrite py_range_length in Hm. rewrite Hm. split.
  - apply omap_seq_length. intros i ?. apply lookup_lt_is_Some.
    simpl. rewrite Hlen, Hrows. nia.
  - apply Forall_forall. intros row Hin.
    apply list_elem_of_omap in Hin as (i & _ & Hrow).
    eapply Forall_forall in Hall; [exact Hall|].
    by eapply list_elem_of_lookup_2.
Qed.

Lemma stretch_id {B} (d : nat) (l : list B) : stretch d d l = l.
Proof. unfold stretch. by rewrite decide_True. Qed.

(** A source that already has the shape of the target is stored as it is. *)
Lemma broadcast_to_same (src : Array2 A) :
  broadcast_to src (nrows src) (ncols src) = Ok (rows src).
Proof.
  unfold broadcast_to, broadcastable.
  rewrite (bool_decide_eq_true_2 (nrows src = nrows src)) by done.
  rewrite (bool_decide_eq_true_2 (ncols src = ncols src)) by done. simpl.
  rewrite stretch_id. f_equal.
  rewrite <-(list_fmap_id (rows src)) at 2.
  apply list_fmap_ext. intros _ row _. apply stretch_id.
Qed.

Lemma broadcast_to_mismatch (src : Array2 A) (h w : nat) :
  nrows src ≠ h → nrows src ≠ 1 → broadcast_to src h w = Raise ValueError.
Proof.
  intros ??. unfold broadcast_to, broadcastable.
  rewrite (bool_decide_eq_false_2 (nrows src = h)) by done.
  by rewrite (bool_decide_eq_false_2 (nrows src = 1)) by done.
Qed.

End slices.

(** ** Dividing the echoes into k-spaces *)

Section kspaces.
Context {A : Type}.
Implicit Types (echoes : Array2 A) (junk : A).

Lemma int_div_exact (n m : nat) : 0 < n → int_div (n * m) n = Ok m.
Proof.
  intros. unfold int_div. rewrite decide_False by lia.
  by rewrite Nat.mul_comm, Nat.div_mul by lia.
Qed.

Lemma setitem3_slice echoes (n m k : nat) (kspaces : Array3 A) :
  nrows echoes = n * m → k < n → filled echoes n m k kspaces →
  ∃ kspaces',
    setitem3 kspaces k (slice_rows echoes k (nrows echoes) n) = Ok kspaces' ∧
    filled echoes n m (S k) kspaces'.
Proof.
  intros Hrows Hk (Hd & Hh & Hw & Hlen & Hdone).
  set (src := slice_rows echoes k (nrows echoes) n).
  assert (nrows src = m) as Hsrc.
  { unfold src, slice_rows. simpl. rewrite Nat.min_id, Hrows.
    by apply py_range_length_exact. }
  unfold setitem3. rewrite decide_True by lia.
  rewrite Hh, Hw, <-Hsrc. change (ncols echoes) with (ncols src).
  rewrite broadcast_to_same. simpl. eexists. split; [done|].
  repeat split; simpl; try done.
  - by rewrite length_insert.
  - intros i Hi. destruct (decide (i = k)) as [->|Hne].
    + by rewrite list_lookup_insert_eq by lia.
    + rewrite list_lookup_insert_ne by done. apply Hdone. lia.
Qed.

Lemma get_kspaces_exact junk echoes (n m : nat) :
  0 < n → nrows echoes = n * m →
  ∃ kspaces, get_kspaces junk n echoes = Ok kspaces ∧ filled echoes n m n kspaces.
Proof.
  intros Hn Hrows. unfold get_kspaces.
  assert (int_div (nrows echoes) n = Ok m) as ->
    by (rewrite Hrows; by apply int_div_exact).
  simpl.
  apply (for_each_seq (filled echoes n m)).
  - repeat split; simpl; try done; [by rewrite length_replicate|lia].
  - intros k kspaces Hk Hfilled. by apply setitem3_slice.
Qed.

(** C1: when the number of echo rows is a multiple of the number of images,
    dividing the data returns [number_of_images] k-spaces of
    [rows / number_of_images] rows as wide as the echoes, and row [r] of
    k-space [k] is echo row [k + number_of_images * r]. *)
Theorem get_kspaces_deinterleaves junk echoes (number_of_images : nat) :
  wf2 echoes → 0 < number_of_images →
  nrows echoes `mod` number_of_images = 0 →
  ∃ kspaces,
    get_kspaces junk number_of_images echoes = Ok kspaces ∧
    depth kspaces = number_of_images ∧
    height kspaces = nrows echoes / number_of_images ∧
    width kspaces = ncols echoes ∧
    wf3 kspaces ∧
    ∀ k r, k < number_of_images → r < nrows echoes / number_of_images →
      ∃ row, rows echoes !! (k + number_of_images * r) = Some row ∧
             planes kspaces !! k ≫= (.!! r) = Some row.
Proof.
  intros Hwf Hn Hmod.
  set (n := number_of_images) in *. set (m := nrows echoes / n).
  assert (nrows echoes = n * m) as Hrows.
  { unfold m. rewrite (Nat.div_mod (nrows echoes) n) at 1 by lia. lia. }
  destruct (get_kspaces_exact junk echoes n m Hn Hrows)
    as (kspaces & Hrun & Hd & Hh & Hw & Hlen & Hplanes).
  exists kspaces. repeat split; try done.
  - by rewrite Hlen, Hd.
  - apply Forall_forall. intros plane Hin.
    apply list_elem_of_lookup_1 in Hin as [k Hk].
    assert (k < n) as Hkn by (rewrite <-Hlen; by eapply lookup_lt_Some).
    rewrite Hplanes in Hk by done. injection Hk as <-.
    rewrite Hh, Hw. by apply slice_rows_wf.
  - intros k r Hk Hr.
    destruct (slice_rows_lookup echoes k n m r Hwf Hrows Hk Hr) as [Heq [row Hrow]].
    exists row. split; [done|].
    rewrite Hplanes by done. by rewrite <-Hrow, <-Heq.
Qed.

End kspaces.

Lemma get_kspaces_deinterleaves_witness :
  ∃ kspaces,
    get_kspaces 0 2 (mkArray2 6 1 [[10]; [11]; [12]; [13]; [14]; [15]]) = Ok kspaces ∧
    depth kspaces = 2 ∧ height kspaces = 6 / 2 ∧ width kspaces = 1 ∧ wf3 kspaces ∧
    ∀ k r, k < 2 → r < 6 / 2 →
      ∃ row, [[10]; [11]; [12]; [13]; [14]; [15]] !! (k + 2 * r) = Some row ∧
             planes kspaces !! k ≫= (.!! r) = Some row.
Proof.
  apply (get_kspaces_deinterleaves 0 (mkArray2 6 1 [[10]; [11]; [12]; [13]; [14]; [15]]) 2).
  - split; [reflexivity|]. repeat constructor.
  - lia.
  - reflexivity.
Defined.

(** ** Row counts that are not a multiple of the number of images *)

Lemma broadcast_to_refused {A} (src : Array2 A) (h w : nat) :
  ¬ (nrows src = h ∨ nrows src = 1) ∨ ¬ (ncols src = w ∨ ncols src = 1) →
  broadcast_to src h w = Raise ValueError.
Proof.
  intros H. unfold broadcast_to, broadcastable.
  repeat case_bool_decide; simpl; try done; exfalso; destruct H as [H|H]; apply H; auto.
Qed.

(** With a remainder the first slice has one row more than a k-space. *)
Lemma py_range_length_remainder (n rows : nat) :
  0 < n → rows `mod` n ≠ 0 → length (py_range 0 rows n) = S (rows / n).
Proof.
  intros Hn Hmod. rewrite py_range_length, Nat.sub_0_r.
  pose proof (Nat.div_mod rows n) as Hdiv.
  pose proof (Nat.mod_upper_bound rows n) as Hlt.
  symmetry. apply (Nat.div_unique _ _ _ (rows `mod` n - 1)); [lia|]. nia.
Qed.

(** Below the step a slice has one row or none. *)
Lemma py_range_length_short (k n rows : nat) :
  rows < n → length (py_range k rows n) = if decide (k < rows) then 1 else 0.
Proof.
  intros Hlt. rewrite py_range_length. case_decide.
  - symmetry. apply (Nat.div_unique _ _ _ (rows - k - 1)); lia.
  - replace (rows - k) with 0 by lia. apply Nat.div_small. lia.
Qed.

Section remainder.
Context {A : Type}.
Implicit Types (echoes : Array2 A) (junk : A).

Lemma get_kspaces_remainder junk echoes (n : nat) :
  0 < n → n ≤ nrows echoes → nrows echoes `mod` n ≠ 0 →
  get_kspaces junk n echoes = Raise ValueError.
Proof.
  intros Hn Hle Hmod. unfold get_kspaces, int_div.
  rewrite decide_False by lia. simpl.
  apply for_each_first_raises; [done|].
  unfold setitem3. simpl. rewrite decide_True by done.
  rewrite broadcast_to_refused; [done|]. left. simpl.
  rewrite Nat.min_id, py_range_length_remainder by done.
  assert (0 < nrows echoes / n) by (apply Nat.div_str_pos; lia). lia.
Qed.

Lemma setitem3_short_slice echoes (n k : nat) :
  nrows echoes < n → k < n →
  setitem3 (mkArray3 n 0 (ncols echoes) (replicate n []))
    k (slice_rows echoes k (nrows echoes) n)
  = Ok (mkArray3 n 0 (ncols echoes) (replicate n [])).
Proof.
  intros Hlt Hk. unfold setitem3. simpl. rewrite decide_True by done.
  unfold broadcast_to, broadcastable, slice_rows. simpl.
  rewrite Nat.min_id, py_range_length_short by done.
  rewrite (bool_decide_eq_true_2 (ncols echoes = ncols echoes)) by done.
  rewrite orb_true_l, andb_true_r.
  case_decide as Hin; simpl.
  - unfold stretch. rewrite decide_False by done. simpl.
    by rewrite insert_replicate.
  - unfold stretch. rewrite decide_True by done.
    pose proof (py_range_length_short k n (nrows echoes) Hlt) as Hempty.
    rewrite decide_False in Hempty by done.
    apply nil_length_inv in Hempty. rewrite Hempty. simpl.
    by rewrite insert_replicate.
Qed.

Lemma get_kspaces_short junk echoes (n : nat) :
  nrows echoes < n →
  get_kspaces junk n echoes = Ok (mkArray3 n 0 (ncols echoes) (replicate n [])).
Proof.
  intros Hlt. unfold get_kspaces, int_div.
  rewrite decide_False by lia. simpl.
  rewrite Nat.div_small by done. unfold np_empty3. simpl.
  destruct (for_each_seq
    (λ _ kspaces, kspaces = mkArray3 n 0 (ncols echoes) (replicate n []))
    (λ kspaces kspace_no,
       setitem3 kspaces kspace_no (slice_rows echoes kspace_no (nrows echoes) n))
    n (mkArray3 n 0 (ncols echoes) (replicate n []))) as (kspaces & -> & ->); try done.
  intros k kspaces Hk ->. eexists. split; [|done]. by apply setitem3_short_slice.
Qed.

End remainder.

Section indivisible.
Variable dft2 : list (list complex) → nat → nat → complex.
Variable cabs : complex → float.
Variables (junk_c : complex) (junk_f : float).

(** C8, as the code has it: with a remainder and at least as many rows as
    images the first assignment to a k-space raises, before any transform;
    with fewer rows than images the division returns empty k-spaces and it
    is the first transform that raises. *)
Theorem get_images_indivisible (number_of_images : nat) (echoes : Array2 complex) :
  0 < number_of_images → nrows echoes `mod` number_of_images ≠ 0 →
  (number_of_images ≤ nrows echoes →
     get_kspaces junk_c number_of_images echoes = Raise ValueError ∧
     get_images dft2 cabs junk_c junk_f number_of_images echoes = Raise ValueError) ∧
  (nrows echoes < number_of_images →
     get_kspaces junk_c number_of_images echoes
       = Ok (mkArray3 number_of_images 0 (ncols echoes)
               (replicate number_of_images [])) ∧
     get_images dft2 cabs junk_c junk_f number_of_images echoes = Raise ValueError).
Proof.
  intros Hn Hmod. split; intros Hrows.
  - assert (get_kspaces junk_c number_of_images echoes = Raise ValueError) as Hk
      by by apply get_kspaces_remainder.
    split; [done|]. unfold get_images. by rewrite Hk.
  - assert (get_kspaces junk_c number_of_images echoes
            = Ok (mkArray3 number_of_images 0 (ncols echoes)
                    (replicate number_of_images [])))
      as Hk by by apply get_kspaces_short.
    split; [done|]. unfold get_images. rewrite Hk. simpl.
    apply for_each_first_raises; [done|].
    unfold getitem3. simpl. rewrite lookup_replicate_2 by done. simpl.
    reflexivity.
Qed.

End indivisible.

Lemma get_images_indivisible_witness :
  (2 ≤ 3 →
     get_kspaces (0, 0)%float 2 (mkArray2 3 1 [[(1, 0)]; [(2, 0)]; [(3, 0)]]%float)
       = Raise ValueError ∧
     get_images (λ _ _ _, (0, 0)%float) fst (0, 0)%float 0%float 2
       (mkArray2 3 1 [[(1, 0)]; [(2, 0)]; [(3, 0)]]%float) = Raise ValueError) ∧
  (3 < 2 →
     get_kspaces (0, 0)%float 2 (mkArray2 3 1 [[(1, 0)]; [(2, 0)]; [(3, 0)]]%float)
       = Ok (mkArray3 2 0 1 (replicate 2 [])) ∧
     get_images (λ _ _ _, (0, 0)%float) fst (0, 0)%float 0%float 2
       (mkArray2 3 1 [[(1, 0)]; [(2, 0)]; [(3, 0)]]%float) = Raise ValueError).
Proof.
  apply (get_images_indivisible (λ _ _ _, (0, 0)%float) fst (0, 0)%float 0%float 2
           (mkArray2 3 1 [[(1, 0)]; [(2, 0)]; [(3, 0)]]%float)).
  - lia.
  - simpl. lia.
Defined.

(** One echo row and two images: the division into k-spaces does not fail,
    it returns two k-spaces without rows. *)
Lemma get_kspaces_one_row_two_images :
  wf2 (mkArray2 1 3 [[(1, 0); (2, 0); (3, 0)]]%float) ∧
  nrows (mkArray2 1 3 [[(1, 0); (2, 0); (3, 0)]]%float) `mod` 2 ≠ 0 ∧
  get_kspaces (0, 0)%float 2 (mkArray2 1 3 [[(1, 0); (2, 0); (3, 0)]]%float)
    = Ok (mkArray3 2 0 3 [[]; []]).
Proof.
  split; [|split].
  - split; [reflexivity|]. repeat constructor.
  - simpl. lia.
  - reflexivity.
Qed.

(** ** Reconstruction *)

Section reconstruction_facts.
Variable dft2 : list (list complex) → nat → nat → complex.
Variable cabs : complex → float.
Variables (junk_c : complex) (junk_f : float).

(** The four steps, in the order of lines 55 to 58; the image has the
    shape of the transposed k-space. *)
Lemma reconstruct_steps (kspace : Array2 complex) :
  0 < nrows kspace → 0 < ncols kspace →
  ∃ ft,
    np_fft2 dft2 kspace = Ok ft ∧
    reconstruct dft2 cabs kspace
      = Ok (np_map cabs (transpose (flip (fftshift ft)))) ∧
    nrows (np_map cabs (transpose (flip (fftshift ft)))) = ncols kspace ∧
    ncols (np_map cabs (transpose (flip (fftshift ft)))) = nrows kspace.
Proof.
  intros Hh Hw. unfold reconstruct, np_fft2.
  rewrite decide_False by lia. eexists. split; [done|]. simpl. done.
Qed.

(** The first image of a stack of k-spaces that are not square does not
    fit the array allocated for it on line 52. *)
Lemma setitem3_transposed (images : Array3 float) (image : Array2 float) :
  0 < depth images →
  nrows image = width images → ncols image = height images →
  height images ≠ width images →
  setitem3 images 0 image = Raise ValueError.
Proof.
  intros Hd Hr Hc Hne. unfold setitem3. rewrite decide_True by done.
  rewrite broadcast_to_refused; [done|].
  destruct (decide (width images = 1)) as [Hw|Hw]; [right|left]; lia.
Qed.

(** C4, on the code at k-spaces that are not square: the image of the
    first k-space has the transposed shape, which does not fit the array that
    line 52 allocates with the shape of the k-spaces, and its assignment on
    line 58 raises. *)
Theorem get_images_not_square (number_of_images : nat) (echoes : Array2 complex) :
  0 < number_of_images → nrows echoes `mod` number_of_images = 0 →
  0 < nrows echoes / number_of_images → 0 < ncols echoes →
  nrows echoes / number_of_images ≠ ncols echoes →
  get_images dft2 cabs junk_c junk_f number_of_images echoes = Raise ValueError.
Proof.
  intros Hn Hmod Hm Hw Hne.
  set (n := number_of_images) in *. set (m := nrows echoes / n) in *.
  assert (nrows echoes = n * m) as Hrows.
  { unfold m. rewrite (Nat.div_mod (nrows echoes) n) at 1 by lia. lia. }
  destruct (get_kspaces_exact junk_c echoes n m Hn Hrows)
    as (kspaces & Hrun & Hd & Hh & Hwd & Hlen & Hplanes).
  unfold get_images. rewrite Hrun. simpl.
  apply for_each_first_raises; [done|].
  unfold getitem3. rewrite Hplanes by done. simpl.
  set (kspace := mkArray2 _ _ _).
  destruct (reconstruct_steps kspace) as (ft & _ & -> & Hir & Hic).
  { simpl. lia. } { simpl. lia. }
  simpl.
  apply setitem3_transposed.
  - simpl. lia.
  - exact Hir.
  - exact Hic.
  - simpl. lia.
Qed.

End reconstruction_facts.

Lemma get_images_not_square_witness :
  get_images (λ _ _ _, (0, 0)%float) fst (0, 0)%float 0%float 1
    (mkArray2 1 2 [[(1, 0); (2, 0)]]%float) = Raise ValueError.
Proof.
  apply (get_images_not_square (λ _ _ _, (0, 0)%float) fst (0, 0)%float 0%float 1
           (mkArray2 1 2 [[(1, 0); (2, 0)]]%float)); simpl; lia.
Defined.

Section square.
Variable dft2 : list (list complex) → nat → nat → complex.
Variable cabs : complex → float.
Variables (junk_c : complex) (junk_f : float).

(** On square k-spaces every image is stored as computed: image [k] is the
    magnitude of the transposed, flipped and shifted transform of k-space
    [k]. *)
Lemma get_images_square (number_of_images m : nat) (echoes : Array2 complex) :
  0 < number_of_images → nrows echoes = number_of_images * m →
  0 < m → ncols echoes = m →
  ∃ images,
    get_images dft2 cabs junk_c junk_f number_of_images echoes = Ok images ∧
    depth images = number_of_images ∧ height images = m ∧ width images = m ∧
    ∀ k, k < number_of_images →
      ∃ ft,
        np_fft2 dft2
          (mkArray2 m m (rows (slice_rows echoes k (nrows echoes) number_of_images)))
          = Ok ft ∧
        planes images !! k
          = Some (rows (np_map cabs (transpose (flip (fftshift ft))))).
Proof.
  intros Hn Hrows Hm Hw. set (n := number_of_images) in *.
  destruct (get_kspaces_exact junk_c echoes n m Hn Hrows)
    as (kspaces & Hrun & Hd & Hh & Hwd & Hlen & Hplanes).
  unfold get_images. rewrite Hrun. simpl. rewrite Hd, Hh, Hwd, Hw.
  set (done_to k (images : Array3 float) :=
    depth images = n ∧ height images = m ∧ width images = m ∧
    length (planes images) = n ∧
    ∀ i, i < k →
      ∃ ft, np_fft2 dft2 (mkArray2 m m (rows (slice_rows echoes i (nrows echoes) n)))
              = Ok ft ∧
            planes images !! i
              = Some (rows (np_map cabs (transpose (flip (fftshift ft)))))).
  destruct (for_each_seq done_to
    (λ images kspace_no,
       kspace ← getitem3 kspaces kspace_no;
       image ← reconstruct dft2 cabs kspace;
       setitem3 images kspace_no image)
    n (np_empty3 junk_f n m m)) as (images & Hloop & Hdone).
  - repeat split; simpl; try done; [by rewrite length_replicate|lia].
  - intros k images Hk (Hd' & Hh' & Hw' & Hlen' & Hprev).
    unfold getitem3. rewrite Hplanes by done. simpl. rewrite Hh, Hwd, Hw.
    set (kspace := mkArray2 m m _).
    destruct (reconstruct_steps dft2 cabs kspace) as (ft & Hft & -> & Hir & Hic);
      [done..|]. simpl.
    set (image := np_map cabs _) in *.
    unfold setitem3. rewrite decide_True by lia.
    replace (height images) with (nrows image) by (rewrite Hir, Hh'; done).
    replace (width images) with (ncols image) by (rewrite Hic, Hw'; done).
    rewrite broadcast_to_same. simpl. eexists. split; [done|].
    split; [done|]. split; [exact Hir|]. split; [exact Hic|].
    split; [cbn [planes]; by rewrite length_insert|].
    cbn [planes]. intros i Hi. destruct (decide (i = k)) as [->|Hne].
      * exists ft. split; [done|]. by rewrite list_lookup_insert_eq by lia.
      * destruct (Hprev i) as (ft' & ? & ?); [lia|]. exists ft'.
        split; [done|]. by rewrite list_lookup_insert_ne.
  - exists images. destruct Hdone as (? & ? & ? & ? & Hall). by repeat split.
Qed.

End square.

(** ** Row-major reshaping *)

Section reshaping.
Context {A : Type}.
Implicit Types (l : list A) (ls : list (list A)).

Lemma chunks_join (n k : nat) ls :
  length ls = n → Forall (λ c, length c = k) ls → chunks n k (mjoin ls) = ls.
Proof.
  intros <- Hall. unfold chunks.
  induction Hall as [|c ls Hc _ IH]; [done|]. simpl.
  by rewrite take_app_length', drop_app_length', IH.
Qed.

Lemma join_chunks (n k : nat) l : length l = n * k → mjoin (chunks n k l) = l.
Proof.
  intros Hlen. unfold chunks. apply join_reshape.
  by rewrite sum_list_replicate.
Qed.

Lemma length_chunks (n k : nat) l : length (chunks n k l) = n.
Proof. unfold chunks. by rewrite length_reshape, length_replicate. Qed.

Lemma Forall_length_chunks (n k : nat) l :
  length l = n * k → Forall (λ c, length c = k) (chunks n k l).
Proof.
  unfold chunks. revert l. induction n as [|n IH]; intros l Hlen; simpl; [done|].
  constructor.
  - rewrite length_take. lia.
  - apply IH. rewrite length_drop. lia.
Qed.

(** Element [j] of chunk [i] is element [i * k + j] of the list. *)
Lemma chunks_lookup (n k i j : nat) l :
  length l = n * k → i < n → j < k →
  chunks n k l !! i ≫= (.!! j) = l !! (i * k + j).
Proof.
  intros Hlen Hi Hj.
  pose proof (Forall_length_chunks n k l Hlen) as Hall.
  destruct (lookup_lt_is_Some_2 l (i * k + j)) as [x Hx]; [nia|].
  rewrite Hx. rewrite <-(join_chunks n k l Hlen) in Hx.
  apply (join_lookup_Some_same_length' k) in Hx as (c & Hc & Hcx); [|done..].
  by rewrite Hc.
Qed.

Lemma length_join_uniform (k : nat) ls :
  Forall (λ c, length c = k) ls → length (mjoin ls) = length ls * k.
Proof. intros Hall. by rewrite length_join, (sum_list_fmap_same k). Qed.

Lemma join_lookup_uniform (k i j : nat) ls :
  Forall (λ c, length c = k) ls → j < k →
  mjoin ls !! (i * k + j) = ls !! i ≫= (.!! j).
Proof.
  intros Hall Hj. destruct (ls !! i) as [c|] eqn:Hc; simpl.
  - destruct (c !! j) as [x|] eqn:Hx.
    + apply (join_lookup_Some_same_length' k); [done..|]. eauto.
    + apply lookup_ge_None_1 in Hx.
      eapply Forall_lookup_1 in Hall; [|exact Hc]. simpl in Hall. lia.
  - apply lookup_ge_None_2. rewrite (length_join_uniform k) by done.
    apply lookup_ge_None_1 in Hc. nia.
Qed.

End reshaping.

Section columns_facts.
Context {A : Type}.
Implicit Types (rs : list (list A)).

Lemma length_columns (w : nat) rs :
  Forall (λ r, length r = w) rs → length (columns w rs) = w.
Proof.
  induction 1 as [|r rs Hr _ IH]; simpl; [by rewrite length_replicate|].
  rewrite length_zip_with. lia.
Qed.

Lemma Forall_length_columns (w : nat) rs :
  Forall (λ c, length c = length rs) (columns w rs).
Proof.
  induction rs as [|r rs IH]; simpl.
  - apply Forall_forall. intros c Hc. by apply elem_of_replicate in Hc as [-> _].
  - apply Forall_forall. intros c Hc.
    apply list_elem_of_lookup_1 in Hc as [j Hj].
    apply lookup_zip_with_Some in Hj as (x & c' & -> & _ & Hc').
    simpl. f_equal. eapply Forall_lookup_1 in IH; [|exact Hc']. done.
Qed.

(** Element [i] of column [j] is element [j] of row [i]. *)
Lemma columns_lookup (w i j : nat) rs :
  Forall (λ r, length r = w) rs → j < w →
  columns w rs !! j ≫= (.!! i) = rs !! i ≫= (.!! j).
Proof.
  intros Hall. revert i. induction Hall as [|r rs Hr Hall IH]; intros i Hj; simpl.
  - rewrite lookup_replicate_2 by done. done.
  - destruct (lookup_lt_is_Some_2 r j) as [x Hx]; [lia|].
    destruct (lookup_lt_is_Some_2 (columns w rs) j) as [c Hc];
      [by rewrite length_columns|].
    rewrite (proj2 (lookup_zip_with_Some cons r (columns w rs) j (x :: c)));
      [|by exists x, c].
    destruct i as [|i]; simpl; [done|].
    specialize (IH i Hj). by rewrite Hc in IH.
Qed.

End columns_facts.

(** ** Reordering for inversion recovery *)

Section reorder_facts.
Context {A : Type}.
Implicit Types (ps : list (list (list A))).

Lemma join_join {B} (lss : list (list (list B))) :
  mjoin (mjoin lss) = mjoin (mjoin <$> lss).
Proof.
  induction lss as [|ls lss IH]; [done|]. csimpl. by rewrite join_app, IH.
Qed.

Lemma length_ravel_plane (h w : nat) (p : list (list A)) :
  rows_wf h w p → length (mjoin p) = h * w.
Proof. intros [<- Hall]. by apply length_join_uniform. Qed.

Lemma length_ravel3 (h w : nat) ps :
  Forall (rows_wf h w) ps → length (ravel3 ps) = length ps * h * w.
Proof.
  intros Hall. unfold ravel3. rewrite join_join.
  rewrite (length_join_uniform (h * w)), length_fmap; [lia|].
  apply Forall_fmap. eapply Forall_impl; [exact Hall|].
  intros p Hp. by apply length_ravel_plane.
Qed.

(** Reshaping a well-formed stack to its own shape changes nothing. *)
Lemma unravel3_ravel3 (d h w : nat) ps :
  length ps = d → Forall (rows_wf h w) ps → unravel3 d h w (ravel3 ps) = ps.
Proof.
  intros Hd Hall. unfold unravel3, ravel3. rewrite join_join.
  rewrite chunks_join.
  - rewrite <-list_fmap_compose. rewrite <-(list_fmap_id ps) at 2.
    apply Forall_fmap_ext. eapply Forall_impl; [exact Hall|].
    intros p [Hlen Hrows]. simpl. by apply chunks_join.
  - by rewrite length_fmap.
  - apply Forall_fmap. eapply Forall_impl; [exact Hall|].
    intros p Hp. by apply length_ravel_plane.
Qed.

Lemma ravel3_join (groups : list (list (list (list A)))) :
  ravel3 (mjoin groups) = mjoin (ravel3 <$> groups).
Proof.
  unfold ravel3. induction groups as [|g groups IH]; [done|].
  csimpl. by rewrite !join_app, IH.
Qed.

(** Reshaping a stack of [a * b] planes to four dimensions groups the
    planes [b] at a time. *)
Lemma unravel4_ravel3 (a b h w : nat) ps :
  length ps = a * b → Forall (rows_wf h w) ps →
  unravel4 a b h w (ravel3 ps) = chunks a b ps.
Proof.
  intros Hlen Hall. unfold unravel4.
  pose proof (Forall_reshape _ ps (replicate a b) Hall) as Hgroups.
  fold (chunks a b ps) in Hgroups.
  pose proof (Forall_length_chunks a b ps Hlen) as Hsizes.
  assert (ravel3 ps = mjoin (ravel3 <$> chunks a b ps)) as ->.
  { rewrite <-(join_chunks a b ps Hlen) at 1. apply ravel3_join. }
  rewrite chunks_join.
  - rewrite <-list_fmap_compose. rewrite <-(list_fmap_id (chunks a b ps)) at 2.
    apply Forall_fmap_ext, Forall_forall. intros g Hg. simpl.
    apply unravel3_ravel3.
    + by eapply Forall_forall in Hsizes.
    + by eapply Forall_forall in Hgroups.
  - by rewrite length_fmap, length_chunks.
  - apply Forall_fmap, Forall_forall. intros g Hg. simpl.
    rewrite (length_ravel3 h w) by (by eapply Forall_forall in Hgroups).
    eapply Forall_forall in Hsizes; [|exact Hg]. simpl in Hsizes. by rewrite Hsizes.
Qed.

Lemma Forall_columns (P : A → Prop) (w : nat) (rs : list (list A)) :
  Forall (Forall P) rs → Forall (Forall P) (columns w rs).
Proof.
  induction 1 as [|r rs Hr _ IH]; simpl.
  - apply Forall_forall. intros c Hc. by apply elem_of_replicate in Hc as [-> _].
  - apply Forall_forall. intros c Hc.
    apply list_elem_of_lookup_1 in Hc as [j Hj].
    apply lookup_zip_with_Some in Hj as (x & c' & -> & Hx & Hc').
    constructor.
    + eapply Forall_lookup_1 in Hr; [exact Hr|exact Hx].
    + eapply Forall_lookup_1 in IH; [exact IH|exact Hc'].
Qed.

End reorder_facts.

(** C3: a stack of [nI * S] images in inversion-time-major order comes
    back in slice-major order: image [s * nI + t] of the result is image
    [t * S + s] of the input, and the shape is unchanged. *)
Theorem reorder_forT1IR_slice_major {A} (images : Array3 A) (nI S : nat) :
  wf3 images → 0 < nI → depth images = nI * S →
  ∃ images',
    reorder_forT1IR images nI (depth images) = Ok images' ∧
    depth images' = depth images ∧ height images' = height images ∧
    width images' = width images ∧ wf3 images' ∧
    ∀ t s, t < nI → s < S →
      ∃ image, planes images !! (t * S + s) = Some image ∧
               planes images' !! (s * nI + t) = Some image.
Proof.
  intros [Hlen Hall] HnI Hd. unfold reorder_forT1IR.
  assert (int_div (depth images) nI = Ok S) as ->
    by (rewrite Hd; by apply int_div_exact).
  simpl. rewrite decide_True by (by rewrite Hd).
  rewrite Hd in Hlen.
  rewrite unravel4_ravel3 by done.
  set (G := chunks nI S (planes images)).
  assert (Forall (λ g, length g = S) G) as Hsizes by by apply Forall_length_chunks.
  assert (length G = nI) as HG by apply length_chunks.
  assert (Forall (λ c, length c = nI) (columns S G)) as Hcols
    by (rewrite <-HG; apply Forall_length_columns).
  assert (length (mjoin (columns S G)) = depth images) as Hlen'.
  { rewrite (length_join_uniform nI), length_columns by done. lia. }
  assert (Forall (rows_wf (height images) (width images)) (mjoin (columns S G)))
    as Hall'.
  { apply Forall_join, Forall_columns. by apply Forall_reshape. }
  rewrite unravel3_ravel3 by done.
  eexists. split; [done|]. simpl. repeat split; try done.
  intros t s Ht Hs.
  destruct (lookup_lt_is_Some_2 (planes images) (t * S + s)) as [image Himage];
    [nia|].
  exists image. split; [done|].
  rewrite join_lookup_uniform, columns_lookup by done.
  unfold G. by rewrite chunks_lookup.
Qed.

Lemma reorder_forT1IR_slice_major_witness :
  ∃ images',
    reorder_forT1IR (mkArray3 6 1 1 [[[1]]; [[2]]; [[3]]; [[4]]; [[5]]; [[6]]]) 2 6
      = Ok images' ∧
    depth images' = 6 ∧ height images' = 1 ∧ width images' = 1 ∧ wf3 images' ∧
    ∀ t s, t < 2 → s < 3 →
      ∃ image, [[[1]]; [[2]]; [[3]]; [[4]]; [[5]]; [[6]]] !! (t * 3 + s) = Some image ∧
               planes images' !! (s * 2 + t) = Some image.
Proof.
  apply (reorder_forT1IR_slice_major
           (mkArray3 6 1 1 [[[1]]; [[2]]; [[3]]; [[4]]; [[5]]; [[6]]]) 2 3).
  - split; [reflexivity|]. repeat constructor.
  - lia.
  - reflexivity.
Defined.

(** ** Loops over the store *)

Lemma for_each_M_cons {St I} (body : St → I → M St) (s : St) (i : I)
    (range : list I) (w : world) :
  for_each body s (i :: range) w =
    match body s i w with
    | (Ok s', w') => for_each body s' range w'
    | (Raise e, w') => (Raise e, w')
    end.
Proof. reflexivity. Qed.

Lemma M_bind_run {A B} (m : M A) (k : A → M B) (w : world) :
  (x ← m; k x) w =
    match m w with
    | (Ok a, w') => k a w'
    | (Raise e, w') => (Raise e, w')
    end.
Proof. reflexivity. Qed.

(** A loop whose passes all return keeps an invariant indexed by the
    number of passes made. *)
Lemma for_each_M_ok {St I} (P : nat → St → world → Prop) (body : St → I → M St)
    (range : list I) (s : St) (w : world) :
  P 0 s w →
  (∀ i x s w, range !! i = Some x → P i s w →
     ∃ s' w', body s x w = (Ok s', w') ∧ P (S i) s' w') →
  ∃ s' w', for_each body s range w = (Ok s', w') ∧ P (length range) s' w'.
Proof.
  revert P s w. induction range as [|x range IH]; intros P s w HP Hstep.
  - by exists s, w.
  - rewrite for_each_M_cons.
    destruct (Hstep 0 x s w) as (s1 & w1 & -> & HP1); [done..|].
    apply (IH (λ i, P (S i))); [done|].
    intros i y s' w' Hy. by apply Hstep.
Qed.

(** A relation between worlds that every pass respects holds of the loop,
    whether it returns or raises. *)
Lemma for_each_M_rel {St I} (R : world → world → Prop) (body : St → I → M St)
    (range : list I) (s : St) (w : world) :
  (∀ w, R w w) → (∀ w1 w2 w3, R w1 w2 → R w2 w3 → R w1 w3) →
  (∀ s i w, R w (body s i w).2) →
  R w (for_each body s range w).2.
Proof.
  intros Hrefl Htrans Hbody. revert s w.
  induction range as [|i range IH]; intros s w; [apply Hrefl|].
  rewrite for_each_M_cons. specialize (Hbody s i w).
  destruct (body s i w) as [[s'|e] w']; simpl in *; [|done].
  eapply Htrans; [exact Hbody|apply IH].
Qed.

Lemma comprehension_lookup {I B} (f : I → result B) (range : list I) (bs : list B) :
  comprehension f range = Ok bs →
  length bs = length range ∧
  ∀ i x, range !! i = Some x → ∃ b, f x = Ok b ∧ bs !! i = Some b.
Proof.
  revert bs. induction range as [|x range IH]; intros bs; simpl.
  - intros [= <-]. split; [done|]. intros i x. by rewrite lookup_nil.
  - destruct (f x) as [b|e] eqn:Hb; simpl; [|done].
    destruct (comprehension f range) as [bs'|e]; simpl; [|done].
    intros [= <-]. destruct (IH bs' eq_refl) as [Hlen Hall].
    split; [simpl; by rewrite Hlen|].
    intros [|i] y; simpl; [intros [= <-]; eauto|apply Hall].
Qed.

Lemma comprehension_ok {I B} (f : I → result B) (g : I → B) (range : list I) :
  (∀ x, x ∈ range → f x = Ok (g x)) → comprehension f range = Ok (g <$> range).
Proof.
  induction range as [|x range IH]; intros Hall; simpl; [done|].
  rewrite Hall by apply list_elem_of_here. simpl.
  rewrite IH; [done|]. intros y Hy. apply Hall. by apply list_elem_of_further.
Qed.

(** ** Synthesis *)

Lemma maps_at_app (h h' : list ndarray) (T_maps Momaps Cmaps : list ref)
    (runs : list run_maps) :
  maps_at h T_maps Momaps Cmaps runs → maps_at (h ++ h') T_maps Momaps Cmaps runs.
Proof.
  intros [Hlen Hall]. split; [done|]. intros j tm mo c Hrun.
  destruct (Hall j tm mo c Hrun) as (T_ref & Mo_ref & C_ref & ? & ? & ? & ? & ? & ?).
  exists T_ref, Mo_ref, C_ref. repeat split; try done; by apply lookup_app_l_Some.
Qed.

(** Files written one after the other. *)
Lemma saved_app (written written' files : list (string * Array2 float)) :
  saved (written ++ written') files = saved written' (saved written files).
Proof. unfold saved. apply foldl_app. Qed.

Lemma saved_snoc (written files : list (string * Array2 float))
    (file : string * Array2 float) :
  saved (written ++ [file]) files = save (saved written files) file.
Proof. by rewrite saved_app. Qed.

Section synthesis_facts.
Variable np_exp : float → float.
Variable exp_beyond_int64 : Z → Array2 float → result (Array2 float).

(** One pass of the inner loop when the model and the maximum are
    defined: the new array is allocated, stored in the list, rescaled in
    place and written to the folder. *)
Lemma synthesize_one_run (function : model) (txt : string)
    (T_maps Momaps Cmaps : list ref) (t : Z) (TheoretImgs : list ref) (j : nat)
    (w : world) (runs : list run_maps) (run : run_maps) (value img : Array2 float) :
  maps_at (heap w) T_maps Momaps Cmaps runs →
  runs !! j = Some run →
  model_value np_exp exp_beyond_int64 function t run = Ok value →
  rescaled value = Ok img →
  synthesize_one np_exp exp_beyond_int64 function txt T_maps Momaps Cmaps t
    TheoretImgs j w
  = (Ok (TheoretImgs ++ [length (heap w)]),
     mkWorld (heap w ++ [Arr2 img]) (save (folder w) (fname j txt t, img))).
Proof.
  intros [_ Hmaps] Hrun Hvalue Himg. destruct run as [[tm mo] c].
  destruct (Hmaps j tm mo c Hrun)
    as (T_ref & Mo_ref & C_ref & HT & HMo & HC & HhT & HhMo & HhC).
  simpl in Hvalue. unfold rescaled in Himg.
  destruct (np_max2 value) as [maximum|] eqn:Hmax; [|done].
  injection Himg as <-.
  unfold synthesize_one, index, lift, read2, alloc, write2, imsave.
  unfold mbind, M_bind, mret, M_ret.
  rewrite HT, HhT, HMo, HhMo, HC, HhC, Hvalue. simpl.
  rewrite list_lookup_middle by done. rewrite Hmax. simpl.
  rewrite (insert_app_r_alt _ _ (length (heap w))) by done.
  rewrite Nat.sub_diag. simpl.
  by rewrite list_lookup_middle by done.
Qed.

(** The inner loop for one requested time. *)
Lemma synthesize_runs (function : model) (txt : string)
    (T_maps Momaps Cmaps : list ref) (t : Z) (TheoretImgs : list ref)
    (w : world) (runs : list run_maps) (imgs : list (Array2 float)) :
  maps_at (heap w) T_maps Momaps Cmaps runs →
  comprehension (synthesized np_exp exp_beyond_int64 function t) runs = Ok imgs →
  for_each (synthesize_one np_exp exp_beyond_int64 function txt T_maps Momaps Cmaps t)
    TheoretImgs (seq 0 (length Momaps)) w
  = (Ok (TheoretImgs ++ seq (length (heap w)) (length runs)),
     mkWorld (heap w ++ (Arr2 <$> imgs))
       (saved (files_for txt (length runs) t imgs) (folder w))).
Proof.
  intros Hmaps Himgs.
  destruct (comprehension_lookup _ _ _ Himgs) as [Hlen Hall].
  pose proof (proj1 Hmaps) as HK.
  set (P := λ (j : nat) (acc : list ref) (w' : world),
    acc = TheoretImgs ++ seq (length (heap w)) j ∧
    heap w' = heap w ++ (Arr2 <$> take j imgs) ∧
    folder w' = saved (take j (files_for txt (length runs) t imgs)) (folder w)).
  destruct (for_each_M_ok P
    (synthesize_one np_exp exp_beyond_int64 function txt T_maps Momaps Cmaps t)
    (seq 0 (length Momaps)) TheoretImgs w) as (acc & w' & -> & Hacc & Hheap & Hfolder).
  - unfold P. simpl. by rewrite !app_nil_r.
  - intros i j acc w' Hj (-> & Hheap & Hfolder).
    apply lookup_seq in Hj as [-> Hi]. simpl in *. rewrite HK in Hi.
    destruct (lookup_lt_is_Some_2 runs i Hi) as [run Hrun].
    destruct (Hall i run Hrun) as (img & Himg & Hlook).
    unfold synthesized in Himg.
    destruct (model_value np_exp exp_beyond_int64 function t run) as [value|] eqn:Hvalue; [|done].
    simpl in Himg.
    erewrite synthesize_one_run; [|by rewrite Hheap; apply maps_at_app|done..].
    eexists _, _. split; [done|]. unfold P. cbn [heap folder]. repeat split.
    + rewrite Hheap, length_app, length_fmap, length_take, Hlen.
      rewrite Nat.min_l by lia. by rewrite seq_S, app_assoc.
    + rewrite Hheap, (take_S_r _ _ _ Hlook), fmap_app, app_assoc. done.
    + rewrite Hfolder. erewrite (take_S_r (files_for _ _ _ _)); [by rewrite saved_snoc|].
      unfold files_for, names_for. apply lookup_zip_with_Some.
      eexists _, _. split; [done|]. split; [|done].
      by rewrite list_lookup_fmap, lookup_seq_lt.
  - rewrite length_seq, HK in Hacc, Hheap, Hfolder. subst acc.
    destruct w' as [h f]. simpl in *. subst h f. f_equal. f_equal.
    + by rewrite take_ge by lia.
    + rewrite take_ge; [done|]. unfold files_for, names_for.
      rewrite length_zip_with, length_fmap, length_seq. lia.
Qed.

Lemma synthesized_lengths (function : model) (T_wish : list Z)
    (runs : list run_maps) (imgss : list (list (Array2 float))) :
  comprehension
    (λ t, comprehension (synthesized np_exp exp_beyond_int64 function t) runs) T_wish
    = Ok imgss →
  length imgss = length T_wish ∧ Forall (λ imgs, length imgs = length runs) imgss.
Proof.
  intros H. destruct (comprehension_lookup _ _ _ H) as [Hlen Hall].
  split; [done|]. apply Forall_lookup. intros i imgs Himgs.
  destruct (lookup_lt_is_Some_2 T_wish i) as [t Ht].
  { rewrite <-Hlen. by eapply lookup_lt_Some. }
  destruct (Hall i t Ht) as (imgs' & Hinner & Hlook).
  rewrite Himgs in Hlook. injection Hlook as <-.
  by destruct (comprehension_lookup _ _ _ Hinner).
Qed.

(** The whole call when every image is defined: the list returned holds
    the references allocated, in the order of the loops; each points to the
    rescaled image; the folder holds the same arrays. *)
Lemma theoret_MRI_run (function : model) (T_wish : list Z)
    (T_maps Momaps Cmaps : list ref) (w : world) (runs : list run_maps)
    (imgss : list (list (Array2 float))) :
  maps_at (heap w) T_maps Momaps Cmaps runs →
  comprehension
    (λ t, comprehension (synthesized np_exp exp_beyond_int64 function t) runs) T_wish
    = Ok imgss →
  theoret_MRI np_exp exp_beyond_int64 function T_wish T_maps Momaps Cmaps w
  = (Ok (seq (length (heap w)) (length T_wish * length runs)),
     mkWorld (heap w ++ (Arr2 <$> mjoin imgss))
       (saved (files_of (label function) (length runs) T_wish imgss) [])).
Proof.
  intros Hmaps Himgss.
  destruct (synthesized_lengths _ _ _ _ Himgss) as [Hlen Hsizes].
  destruct (comprehension_lookup _ _ _ Himgss) as [_ Hall].
  set (K := length runs) in *. set (txt := label function).
  set (P := λ (i : nat) (acc : list ref) (w' : world),
    acc = seq (length (heap w)) (i * K) ∧
    heap w' = heap w ++ (Arr2 <$> mjoin (take i imgss)) ∧
    folder w' = saved (mjoin (take i (zip_with (files_for txt K) T_wish imgss))) []).
  unfold theoret_MRI. rewrite M_bind_run. unfold fresh_folder. fold txt.
  destruct (for_each_M_ok P
    (λ TheoretImgs t,
       for_each (synthesize_one np_exp exp_beyond_int64 function txt T_maps Momaps Cmaps t)
         TheoretImgs (seq 0 (length Momaps)))
    T_wish [] (mkWorld (heap w) [])) as (acc & w' & -> & Hacc & Hheap & Hfolder).
  - unfold P. simpl. by rewrite app_nil_r.
  - intros i t acc w' Ht (-> & Hheap & Hfolder).
    destruct (Hall i t Ht) as (imgs & Hinner & Hlook).
    rewrite (synthesize_runs function txt T_maps Momaps Cmaps t _ w' runs imgs);
      [|by rewrite Hheap; apply maps_at_app|done].
    eexists _, _. split; [done|]. unfold P. cbn [heap folder]. fold K.
    assert (length (mjoin (take i imgss)) = i * K) as Hsofar.
    { rewrite (length_join_uniform K) by by apply Forall_take.
      rewrite length_take. apply lookup_lt_Some in Hlook. f_equal. lia. }
    repeat split.
    + rewrite Hheap, length_app, length_fmap, Hsofar.
      replace (S i * K) with (i * K + K) by lia. by rewrite seq_app.
    + rewrite Hheap, (take_S_r _ _ _ Hlook), join_app. simpl.
      by rewrite app_nil_r, fmap_app, app_assoc.
    + rewrite Hfolder. erewrite (take_S_r (zip_with _ _ _)).
      * rewrite join_app. simpl. by rewrite app_nil_r, saved_app.
      * apply lookup_zip_with_Some. by eexists _, _.
  - subst acc. destruct w' as [h f]. simpl in *. subst h f.
    unfold files_of. f_equal. f_equal.
    + by rewrite take_ge by lia.
    + rewrite take_ge; [done|]. rewrite length_zip_with. lia.
Qed.

End synthesis_facts.

(** ** Maps of one shape *)

Lemma comprehension_defined {I B} (f : I → result B) (range : list I) :
  (∀ x, x ∈ range → ∃ b, f x = Ok b) → ∃ bs, comprehension f range = Ok bs.
Proof.
  induction range as [|x range IH]; intros Hall; simpl; [by eexists|].
  destruct (Hall x) as [b ->]; [apply list_elem_of_here|].
  destruct IH as [bs ->]; [|by eexists].
  intros y Hy. apply Hall. by apply list_elem_of_further.
Qed.

Lemma np_map_wf {A B} (f : A → B) (a : Array2 A) : wf2 a → wf2 (np_map f a).
Proof.
  intros [Hlen Hall]. split; simpl; [by rewrite length_fmap|].
  apply Forall_fmap. eapply Forall_impl; [exact Hall|].
  intros r Hr. simpl. by rewrite length_fmap.
Qed.

Lemma zip_rows_wf {A B C} (op : A → B → C) (h w : nat)
    (ra : list (list A)) (rb : list (list B)) :
  rows_wf h w ra → rows_wf h w rb → rows_wf h w (zip_with (zip_with op) ra rb).
Proof.
  intros [Ha Hra] [Hb Hrb]. split; [rewrite length_zip_with; lia|].
  apply Forall_forall. intros r Hr.
  apply list_elem_of_lookup_1 in Hr as [i Hi].
  apply lookup_zip_with_Some in Hi as (x & y & -> & Hx & Hy).
  eapply Forall_lookup_1 in Hra; [|exact Hx].
  eapply Forall_lookup_1 in Hrb; [|exact Hy].
  simpl in *. rewrite length_zip_with. lia.
Qed.

(** Two operands of one shape need no broadcasting. *)
Lemma np_binop_same {A B C} (op : A → B → C) (a : Array2 A) (b : Array2 B) :
  nrows b = nrows a → ncols b = ncols a →
  np_binop op a b
  = Ok (mkArray2 (nrows a) (ncols a) (zip_with (zip_with op) (rows a) (rows b))).
Proof.
  intros Hr Hc. unfold np_binop, broadcast_dim.
  rewrite Hr, Hc, !decide_True by done. simpl.
  rewrite broadcast_to_same. simpl.
  rewrite <-Hr, <-Hc, broadcast_to_same. simpl. by rewrite Hr, Hc.
Qed.

Lemma np_max2_defined (a : Array2 float) :
  wf2 a → 0 < nrows a → 0 < ncols a → ∃ maximum, np_max2 a = Ok maximum.
Proof.
  intros [Hlen Hall] Hh Hw. unfold np_max2, np_max.
  destruct (mjoin (rows a)) as [|p points] eqn:Hflat; [|by eexists].
  apply (f_equal length) in Hflat.
  rewrite (length_join_uniform (ncols a)), Hlen in Hflat by done. simpl in Hflat. nia.
Qed.

Lemma np_map_np_map {A B C} (f : B → C) (g : A → B) (a : Array2 A) :
  np_map f (np_map g a) = np_map (f ∘ g) a.
Proof.
  unfold np_map. simpl. f_equal. rewrite <-list_fmap_compose.
  apply list_fmap_ext. intros _ r _. simpl. by rewrite <-list_fmap_compose.
Qed.

Section int64_times.
Variable np_exp : float → float.
Variable exp_beyond_int64 : Z → Array2 float → result (Array2 float).

(** The signal equations at a time that NumPy holds as an [int64]. *)
Lemma T1_function_int64 (x : Z) (T1m Mo C : Array2 float) (a : float) :
  int64 x →
  T1_function np_exp exp_beyond_int64 x T1m Mo C a
  = (m ← np_binop PrimFloat.mul Mo
           (np_map (λ t, 1 - a * np_exp (float_of_Z (int64_neg x) / t))%float T1m);
     y ← np_binop PrimFloat.add m C;
     Ok (np_map PrimFloat.abs y)).
Proof.
  intros Hx. unfold T1_function, decay. rewrite decide_True by done.
  cbn [mbind result_bind]. by rewrite np_map_np_map.
Qed.

Lemma T2_function_int64 (x : Z) (T2m Mo C : Array2 float) :
  int64 x →
  T2_function np_exp exp_beyond_int64 x T2m Mo C
  = (m ← np_binop PrimFloat.mul Mo
           (np_map (λ t, np_exp (float_of_Z (int64_neg x) / t))%float T2m);
     np_binop PrimFloat.add m C).
Proof. intros Hx. unfold T2_function, decay. by rewrite decide_True. Qed.

End int64_times.

Section model_facts.
Variable np_exp : float → float.
Variable exp_beyond_int64 : Z → Array2 float → result (Array2 float).

(** On maps of one shape the model is defined, and its value has that
    shape. *)
Lemma model_value_defined (function : model) (t : Z) (run : run_maps) :
  run_ok run → int64 t →
  ∃ value,
    model_value np_exp exp_beyond_int64 function t run = Ok value ∧ wf2 value ∧
    0 < nrows value ∧ 0 < ncols value.
Proof.
  destruct run as [[tm mo] c].
  intros (Htm & Hmo & Hc & Hr1 & Hr2 & Hc1 & Hc2 & Hh & Hw) Ht.
  unfold model_value, call_model.
  rewrite T1_function_int64, T2_function_int64 by done.
  assert (∀ g : float → float,
    rows_wf (nrows mo) (ncols mo)
      (zip_with (zip_with PrimFloat.add)
         (zip_with (zip_with PrimFloat.mul) (rows mo) (rows (np_map g tm)))
         (rows c))) as Hshape.
  { intros g. unfold wf2 in Hc. rewrite Hr2, Hc2 in Hc. rewrite Hr1, Hc1.
    apply zip_rows_wf; [|exact Hc].
    apply zip_rows_wf; [|exact (np_map_wf g tm Htm)].
    unfold wf2 in Hmo. by rewrite Hr1, Hc1 in Hmo. }
  destruct function.
  - rewrite np_binop_same by done. simpl.
    rewrite np_binop_same by (simpl; lia). simpl.
    eexists. split; [done|]. split; [|simpl; lia].
    apply (np_map_wf PrimFloat.abs (mkArray2 _ _ _)). apply Hshape.
  - rewrite np_binop_same by done. simpl.
    rewrite np_binop_same by (simpl; lia). simpl.
    eexists. split; [done|]. split; [|simpl; lia]. apply Hshape.
Qed.

Lemma synthesized_defined (function : model) (t : Z) (run : run_maps) :
  run_ok run → int64 t →
  ∃ img, synthesized np_exp exp_beyond_int64 function t run = Ok img.
Proof.
  intros Hrun Ht. unfold synthesized, rescaled.
  destruct (model_value_defined function t run Hrun Ht) as (value & -> & Hwf & Hh & Hw).
  simpl. destruct (np_max2_defined value Hwf Hh Hw) as [maximum ->]. by eexists.
Qed.

Lemma all_synthesized_defined (function : model) (T_wish : list Z)
    (runs : list run_maps) :
  Forall run_ok runs → Forall int64 T_wish →
  ∃ imgss,
    comprehension
      (λ t, comprehension (synthesized np_exp exp_beyond_int64 function t) runs) T_wish
      = Ok imgss.
Proof.
  intros Hruns Htimes. apply comprehension_defined. intros t Ht.
  apply comprehension_defined. intros run Hrun.
  apply synthesized_defined.
  - by eapply Forall_forall in Hruns.
  - by eapply Forall_forall in Htimes.
Qed.

End model_facts.

(** ** File names *)

Lemma avoids_string_of_uint (sep : ascii) (d : Decimal.uint) :
  (sep = "_" ∨ sep = "m")%char → avoids sep (NilEmpty.string_of_uint d).
Proof.
  intros Hsep. induction d; simpl; try done;
    (split; [|done]); destruct Hsep as [-> | ->]; discriminate.
Qed.

Lemma avoids_py_str_nat (n : nat) : avoids "_" (py_str_nat n).
Proof. apply avoids_string_of_uint. by left. Qed.

Lemma avoids_py_str_Z (z : Z) : avoids "m" (py_str_Z z).
Proof.
  unfold py_str_Z, NilEmpty.string_of_int.
  destruct (Z.to_int z); simpl; [|split; [discriminate|]];
    apply avoids_string_of_uint; by right.
Qed.

Lemma py_str_nat_inj (n n' : nat) : py_str_nat n = py_str_nat n' → n = n'.
Proof.
  unfold py_str_nat. intros H.
  apply (f_equal NilEmpty.uint_of_string) in H. rewrite !NilEmpty.usu in H.
  injection H as H. apply (f_equal Nat.of_uint) in H.
  by rewrite !DecimalNat.Unsigned.of_to in H.
Qed.

Lemma py_str_Z_inj (z z' : Z) : py_str_Z z = py_str_Z z' → z = z'.
Proof.
  unfold py_str_Z. intros H.
  apply (f_equal NilEmpty.int_of_string) in H. rewrite !NilEmpty.isi in H.
  injection H as H. apply (f_equal Z.of_int) in H.
  by rewrite !DecimalZ.of_to in H.
Qed.

(** Two strings that avoid a separator and are followed by it end at the
    same place. *)
Lemma split_at_separator (sep : ascii) (d d' r r' : string) :
  avoids sep d → avoids sep d' →
  d +:+ String sep r = d' +:+ String sep r' → d = d' ∧ r = r'.
Proof.
  revert d'. induction d as [|c d IH]; intros [|c' d'] Hd Hd'; simpl.
  - by intros [= ->].
  - intros [= <- _]. by destruct Hd' as [? _].
  - intros [= -> _]. by destruct Hd as [? _].
  - intros [= -> H]. destruct Hd as [_ Hd], Hd' as [_ Hd'].
    destruct (IH d' Hd Hd' H) as [-> ->]. done.
Qed.

(** The name of a file determines the run and the requested time. *)
Lemma fname_inj (txt : string) (j j' : nat) (t t' : Z) :
  fname j txt t = fname j' txt t' → j = j' ∧ t = t'.
Proof.
  unfold fname. intros H. apply String.app_inj in H.
  change ("_" +:+ ?s) with (String "_" s) in H.
  apply split_at_separator in H as [Hj H]; [|apply avoids_py_str_nat..].
  apply py_str_nat_inj in Hj. split; [lia|].
  apply String.app_inj in H. injection H as H.
  change ("ms.png") with (String "m" "s.png") in H.
  apply split_at_separator in H as [Ht _]; [|apply avoids_py_str_Z..].
  by apply py_str_Z_inj.
Qed.

Lemma elem_of_names_for (txt : string) (runs : nat) (t : Z) (name : string) :
  name ∈ names_for txt runs t ↔ ∃ j, j < runs ∧ name = fname j txt t.
Proof.
  unfold names_for. rewrite list_elem_of_fmap. split.
  - intros (j & -> & Hj). apply elem_of_seq in Hj. exists j. split; [lia|done].
  - intros (j & Hj & ->). exists j. split; [done|]. apply elem_of_seq. lia.
Qed.

Lemma NoDup_names_for (txt : string) (runs : nat) (t : Z) :
  NoDup (names_for txt runs t).
Proof.
  unfold names_for. apply NoDup_fmap_2_strong; [|apply NoDup_seq].
  intros j j' _ _ H. by apply fname_inj in H as [-> _].
Qed.

(** Requested times that differ give file names that differ. *)
Lemma NoDup_names_of (txt : string) (runs : nat) (T_wish : list Z) :
  NoDup T_wish → NoDup (names_of txt runs T_wish).
Proof.
  unfold names_of. induction 1 as [|t T_wish Ht _ IH]; csimpl; [constructor|].
  apply NoDup_app. split; [apply NoDup_names_for|]. split; [|done].
  intros name Hname Hrest.
  apply elem_of_names_for in Hname as (j & _ & ->).
  apply list_elem_of_join in Hrest as (names & Hin & Hnames).
  apply list_elem_of_fmap in Hnames as (t' & -> & Ht').
  apply elem_of_names_for in Hin as (j' & _ & Heq).
  apply fname_inj in Heq as [_ ->]. done.
Qed.

(** ** What a call of [theoret_MRI] returns and writes *)

Lemma files_of_names (txt : string) (runs : nat) (T_wish : list Z)
    (imgss : list (list (Array2 float))) :
  length imgss = length T_wish → Forall (λ imgs, length imgs = runs) imgss →
  (files_of txt runs T_wish imgss).*1 = names_of txt runs T_wish.
Proof.
  unfold files_of, names_of. revert imgss.
  induction T_wish as [|t T_wish IH]; intros [|imgs imgss] Hlen Hall; try done.
  apply Forall_cons in Hall as [Himgs Hall]. csimpl.
  rewrite fmap_app, IH by (done || by injection Hlen).
  f_equal. unfold files_for. apply fst_zip.
  unfold names_for. rewrite length_fmap, length_seq. lia.
Qed.

Lemma files_of_lookup (txt : string) (T_wish : list Z)
    (imgss : list (list (Array2 float))) (runs i j : nat) (t : Z)
    (imgs : list (Array2 float)) (img : Array2 float) :
  Forall (λ imgs, length imgs = runs) imgss →
  T_wish !! i = Some t → imgss !! i = Some imgs → imgs !! j = Some img →
  files_of txt runs T_wish imgss !! (i * runs + j) = Some (fname j txt t, img).
Proof.
  intros Hall Ht Himgs Himg. unfold files_of.
  assert (j < runs) as Hj.
  { eapply Forall_lookup_1 in Hall; [|exact Himgs]. simpl in Hall.
    rewrite <-Hall. by eapply lookup_lt_Some. }
  rewrite (join_lookup_uniform runs).
  - rewrite (proj2 (lookup_zip_with_Some _ _ _ i (files_for txt runs t imgs)));
      [|by eexists _, _].
    simpl. unfold files_for, names_for. apply lookup_zip_with_Some.
    eexists _, _. split; [done|]. split; [|done].
    by rewrite list_lookup_fmap, lookup_seq_lt.
  - apply Forall_forall. intros files Hfiles.
    apply list_elem_of_lookup_1 in Hfiles as [k Hk].
    apply lookup_zip_with_Some in Hk as (t' & imgs' & -> & _ & Himgs').
    eapply Forall_lookup_1 in Hall; [|exact Himgs']. simpl in Hall.
    unfold files_for, names_for.
    rewrite length_zip_with, length_fmap, length_seq. lia.
  - done.
Qed.

(** *** Files that replace files *)

Lemma save_fresh (files : list (string * Array2 float)) (file : string * Array2 float) :
  file.1 ∉ files.*1 → save files file = files ++ [file].
Proof.
  intros Hfresh. unfold save. f_equal.
  induction files as [|f files IH]; [done|].
  rewrite fmap_cons, not_elem_of_cons in Hfresh. destruct Hfresh as [Hne Hfresh].
  rewrite filter_cons_True by (simpl; congruence). by rewrite IH.
Qed.

Lemma elem_of_save_names (files : list (string * Array2 float))
    (file : string * Array2 float) (name : string) :
  name ∈ (save files file).*1 ↔ name ∈ files.*1 ∨ name = file.1.
Proof.
  unfold save. rewrite fmap_app, elem_of_app. simpl. rewrite list_elem_of_singleton.
  split.
  - intros [H|H]; [left|by right].
    apply list_elem_of_fmap in H as (f & -> & Hf).
    apply list_elem_of_filter in Hf as [_ Hf]. by apply list_elem_of_fmap_2.
  - intros [H|H]; [|by right].
    destruct (decide (name = file.1)) as [Heq|Hne]; [by right|left].
    apply list_elem_of_fmap in H as (f & -> & Hf).
    apply list_elem_of_fmap. exists f. split; [done|]. by apply list_elem_of_filter.
Qed.

Lemma NoDup_save_names (files : list (string * Array2 float))
    (file : string * Array2 float) :
  NoDup files.*1 → NoDup (save files file).*1.
Proof.
  intros Hnd. unfold save. rewrite fmap_app. apply NoDup_app. split; [|split].
  - induction files as [|f files IH]; [constructor|].
    rewrite fmap_cons in Hnd. apply NoDup_cons in Hnd as [Hf Hnd].
    destruct (decide (f.1 ≠ file.1)) as [Hne|Heq].
    + rewrite filter_cons_True by done. rewrite fmap_cons. apply NoDup_cons.
      split; [|by apply IH]. intros Hin. apply Hf.
      apply list_elem_of_fmap in Hin as (g & -> & Hg).
      apply list_elem_of_filter in Hg as [_ Hg]. by apply list_elem_of_fmap_2.
    + rewrite filter_cons_False by done. by apply IH.
  - intros name Hin Hin'. simpl in Hin'. apply list_elem_of_singleton in Hin' as ->.
    apply list_elem_of_fmap in Hin as (f & Heq & Hf).
    by apply list_elem_of_filter in Hf as [Hne _].
  - simpl. apply NoDup_singleton.
Qed.

(** Files with new names, all different, are added to the folder. *)
Lemma saved_fresh (written files : list (string * Array2 float)) :
  NoDup (files ++ written).*1 → saved written files = files ++ written.
Proof.
  revert files. induction written as [|f written IH]; intros files Hnd.
  - by rewrite app_nil_r.
  - change (saved (f :: written) files) with (saved written (save files f)).
    rewrite save_fresh.
    + rewrite IH; by rewrite <-app_assoc.
    + rewrite fmap_app in Hnd. apply NoDup_app in Hnd as (_ & Hdisj & _).
      intros Hin. apply (Hdisj _ Hin). rewrite fmap_cons. apply list_elem_of_here.
Qed.

(** The names of a folder after files have been written to it: those it
    had and those written, each once. *)
Lemma elem_of_saved_names (written files : list (string * Array2 float))
    (name : string) :
  name ∈ (saved written files).*1 ↔ name ∈ files.*1 ∨ name ∈ written.*1.
Proof.
  revert files. induction written as [|f written IH]; intros files.
  - simpl. split; [by left|]. intros [H|H]; [done|]. by apply elem_of_nil in H.
  - change (saved (f :: written) files) with (saved written (save files f)).
    rewrite IH, elem_of_save_names, fmap_cons, elem_of_cons. tauto.
Qed.

Lemma NoDup_saved_names (written files : list (string * Array2 float)) :
  NoDup files.*1 → NoDup (saved written files).*1.
Proof.
  revert files. induction written as [|f written IH]; intros files Hnd; [done|].
  change (saved (f :: written) files) with (saved written (save files f)).
  by apply IH, NoDup_save_names.
Qed.

(** The folder after a call: one file for each name, and with requested
    times that differ the files in the order written. *)
Lemma saved_files_of (txt : string) (runs : nat) (T_wish : list Z)
    (imgss : list (list (Array2 float))) :
  length imgss = length T_wish → Forall (λ imgs, length imgs = runs) imgss →
  NoDup (saved (files_of txt runs T_wish imgss) []).*1 ∧
  (∀ name, name ∈ (saved (files_of txt runs T_wish imgss) []).*1
           ↔ name ∈ names_of txt runs T_wish) ∧
  (NoDup T_wish →
   saved (files_of txt runs T_wish imgss) [] = files_of txt runs T_wish imgss).
Proof.
  intros Hlen Hall. pose proof (files_of_names txt runs T_wish imgss Hlen Hall) as Hnames.
  split; [apply NoDup_saved_names; constructor|]. split.
  - intros name. rewrite elem_of_saved_names, Hnames. split; [|by right].
    intros [H|H]; [|done]. by apply elem_of_nil in H.
  - intros Hnd. rewrite saved_fresh; [done|]. simpl. rewrite Hnames.
    by apply NoDup_names_of.
Qed.

Section outputs.
Variable np_exp : float → float.
Variable exp_beyond_int64 : Z → Array2 float → result (Array2 float).

(** A pass of the inner loop raises when the image of the run is not
    defined. *)
Lemma synthesize_one_raise (function : model) (txt : string)
    (T_maps Momaps Cmaps : list ref) (t : Z) (TheoretImgs : list ref) (j : nat)
    (w : world) (runs : list run_maps) (run : run_maps) (e : exn) :
  maps_at (heap w) T_maps Momaps Cmaps runs → runs !! j = Some run →
  synthesized np_exp exp_beyond_int64 function t run = Raise e →
  ∃ w',
    synthesize_one np_exp exp_beyond_int64 function txt T_maps Momaps Cmaps t
      TheoretImgs j w = (Raise e, w').
Proof.
  intros [_ Hmaps] Hrun Hraise. destruct run as [[tm mo] c].
  destruct (Hmaps j tm mo c Hrun)
    as (T_ref & Mo_ref & C_ref & HT & HMo & HC & HhT & HhMo & HhC).
  unfold synthesized, rescaled, model_value in Hraise.
  unfold synthesize_one, index, lift, read2, alloc, write2, imsave.
  unfold mbind, M_bind, mret, M_ret.
  rewrite HT, HhT, HMo, HhMo, HC, HhC. simpl.
  destruct (call_model np_exp exp_beyond_int64 function t tm mo c) as [value|e0];
    simpl in *.
  - rewrite list_lookup_middle by done.
    destruct (np_max2 value) as [maximum|e0]; [done|]. simpl in *.
    injection Hraise as ->. by eexists.
  - injection Hraise as ->. by eexists.
Qed.

(** The inner loop raises when an image of the requested time is not
    defined. *)
Lemma synthesize_runs_raise (function : model) (txt : string)
    (T_maps Momaps Cmaps : list ref) (t : Z) (runs rs : list run_maps) (e : exn)
    (j0 : nat) (TheoretImgs : list ref) (w : world) :
  maps_at (heap w) T_maps Momaps Cmaps runs →
  (∀ i r, rs !! i = Some r → runs !! (j0 + i) = Some r) →
  comprehension (synthesized np_exp exp_beyond_int64 function t) rs = Raise e →
  ∃ w',
    for_each (synthesize_one np_exp exp_beyond_int64 function txt T_maps Momaps Cmaps t)
      TheoretImgs (seq j0 (length rs)) w = (Raise e, w').
Proof.
  revert j0 TheoretImgs w.
  induction rs as [|r rs IH]; intros j0 acc w Hmaps Hat Hraise; [done|].
  cbn [length seq]. rewrite for_each_M_cons. cbn [comprehension] in Hraise.
  assert (runs !! j0 = Some r) as Hr0.
  { rewrite <-(Nat.add_0_r j0). by apply Hat. }
  destruct (synthesized np_exp exp_beyond_int64 function t r) as [img|e0] eqn:Hr.
  - unfold synthesized in Hr.
    destruct (model_value np_exp exp_beyond_int64 function t r) as [value|] eqn:Hvalue;
      [|done].
    cbn [mbind result_bind] in Hr, Hraise.
    rewrite (synthesize_one_run np_exp exp_beyond_int64 function txt T_maps Momaps
               Cmaps t acc j0 w runs r value img) by done.
    apply IH.
    + by apply maps_at_app.
    + intros i r' Hi. replace (S j0 + i) with (j0 + S i) by lia. by apply Hat.
    + destruct (comprehension _ rs) as [imgs|e1]; [done|]. by injection Hraise as ->.
  - cbn [mbind result_bind] in Hraise. injection Hraise as ->.
    destruct (synthesize_one_raise function txt T_maps Momaps Cmaps t acc j0 w runs r e)
      as [w' ->]; [done..|]. by eexists.
Qed.

(** The call raises when an image is not defined. *)
Lemma theoret_MRI_raise (function : model) (T_wish : list Z)
    (T_maps Momaps Cmaps : list ref) (w : world) (runs : list run_maps) (e : exn) :
  maps_at (heap w) T_maps Momaps Cmaps runs →
  comprehension
    (λ t, comprehension (synthesized np_exp exp_beyond_int64 function t) runs) T_wish
  = Raise e →
  ∃ w',
    theoret_MRI np_exp exp_beyond_int64 function T_wish T_maps Momaps Cmaps w
      = (Raise e, w').
Proof.
  intros Hmaps Hraise. unfold theoret_MRI. rewrite M_bind_run. unfold fresh_folder.
  assert (maps_at (heap (mkWorld (heap w) [])) T_maps Momaps Cmaps runs) as Hmaps1
    by done.
  revert Hmaps1. generalize (mkWorld (heap w) []). generalize (@nil ref).
  induction T_wish as [|t T_wish IH]; intros acc w1 Hmaps1; [done|].
  rewrite for_each_M_cons. cbn [comprehension] in Hraise.
  destruct (comprehension (synthesized np_exp exp_beyond_int64 function t) runs)
    as [imgs|e0] eqn:Hinner.
  - rewrite (synthesize_runs np_exp exp_beyond_int64 function (label function)
               T_maps Momaps Cmaps t acc w1 runs imgs) by done.
    cbn [mbind result_bind] in Hraise. apply IH.
    + destruct (comprehension _ T_wish) as [imgss|e1]; [done|].
      by injection Hraise as ->.
    + cbn [heap]. by apply maps_at_app.
  - cbn [mbind result_bind] in Hraise. injection Hraise as ->.
    destruct (synthesize_runs_raise function (label function) T_maps Momaps Cmaps t
                runs runs e 0 acc w1) as [w' Hrun]; [done|by intros i r|done|].
    rewrite (proj1 Hmaps1), Hrun. by eexists.
Qed.

(** When every image is defined the call returns; image [i * runs + j] of
    the list returned is the object allocated for requested time [i] and run
    [j]; in the final store it holds the rescaled value of the model.  The
    folder holds one file for each name of the call; with requested times
    that differ, file [i * runs + j] is the file of that image. *)
Lemma theoret_MRI_outputs (function : model) (T_wish : list Z)
    (T_maps Momaps Cmaps : list ref) (w : world) (runs : list run_maps)
    (imgss : list (list (Array2 float))) :
  maps_at (heap w) T_maps Momaps Cmaps runs →
  comprehension
    (λ t, comprehension (synthesized np_exp exp_beyond_int64 function t) runs) T_wish
  = Ok imgss →
  ∃ TheoretImgs w',
    theoret_MRI np_exp exp_beyond_int64 function T_wish T_maps Momaps Cmaps w
      = (Ok TheoretImgs, w') ∧
    length TheoretImgs = length T_wish * length runs ∧
    NoDup (folder w').*1 ∧
    (∀ name, name ∈ (folder w').*1
             ↔ name ∈ names_of (label function) (length runs) T_wish) ∧
    (NoDup T_wish → (folder w').*1 = names_of (label function) (length runs) T_wish) ∧
    ∀ i j t run, T_wish !! i = Some t → runs !! j = Some run →
      ∃ r value img,
        TheoretImgs !! (i * length runs + j) = Some r ∧
        model_value np_exp exp_beyond_int64 function t run = Ok value ∧
        rescaled value = Ok img ∧
        heap w' !! r = Some (Arr2 img) ∧
        (NoDup T_wish →
         folder w' !! (i * length runs + j) = Some (fname j (label function) t, img)).
Proof.
  intros Hmaps Himgss.
  destruct (synthesized_lengths _ _ _ _ _ _ Himgss) as [Hlen Hsizes].
  destruct (comprehension_lookup _ _ _ Himgss) as [_ Hall].
  destruct (saved_files_of (label function) (length runs) T_wish imgss Hlen Hsizes)
    as (Hnodup & Hnames & Hfresh).
  eexists _, _. split; [by eapply theoret_MRI_run|].
  cbn [heap folder]. split; [by rewrite length_seq|].
  split; [done|]. split; [done|].
  split; [intros Hnd; rewrite (Hfresh Hnd); by apply files_of_names|].
  intros i j t run Ht Hrun.
  destruct (Hall i t Ht) as (imgs & Hinner & Himgs).
  destruct (comprehension_lookup _ _ _ Hinner) as [_ Hinner'].
  destruct (Hinner' j run Hrun) as (img & Himg & Hlook).
  unfold synthesized in Himg.
  destruct (model_value np_exp exp_beyond_int64 function t run) as [value|] eqn:Hvalue;
    [|done].
  simpl in Himg.
  assert (i * length runs + j < length T_wish * length runs) as Hrange.
  { apply lookup_lt_Some in Ht, Hrun. nia. }
  exists (length (heap w) + (i * length runs + j)), value, img.
  split; [by apply lookup_seq_lt|]. split; [done|]. split; [done|].
  split; [|intros Hnd; rewrite (Hfresh Hnd); by eapply files_of_lookup].
  rewrite lookup_app_r by lia.
  replace (length (heap w) + (i * length runs + j) - length (heap w))
    with (i * length runs + j) by lia.
  rewrite list_lookup_fmap, (join_lookup_uniform (length runs)).
  - by rewrite Himgs; simpl; rewrite Hlook.
  - done.
  - by eapply lookup_lt_Some.
Qed.

(** On well-formed maps and requested times that are [int64] every image
    is defined, and the call returns. *)
Lemma theoret_MRI_total (function : model) (T_wish : list Z)
    (T_maps Momaps Cmaps : list ref) (w : world) (runs : list run_maps) :
  maps_at (heap w) T_maps Momaps Cmaps runs → Forall run_ok runs →
  Forall int64 T_wish →
  ∃ TheoretImgs w',
    theoret_MRI np_exp exp_beyond_int64 function T_wish T_maps Momaps Cmaps w
      = (Ok TheoretImgs, w') ∧
    length TheoretImgs = length T_wish * length runs ∧
    NoDup (folder w').*1 ∧
    (∀ name, name ∈ (folder w').*1
             ↔ name ∈ names_of (label function) (length runs) T_wish) ∧
    (NoDup T_wish → (folder w').*1 = names_of (label function) (length runs) T_wish) ∧
    ∀ i j t run, T_wish !! i = Some t → runs !! j = Some run →
      ∃ r value img,
        TheoretImgs !! (i * length runs + j) = Some r ∧
        model_value np_exp exp_beyond_int64 function t run = Ok value ∧
        rescaled value = Ok img ∧
        heap w' !! r = Some (Arr2 img) ∧
        (NoDup T_wish →
         folder w' !! (i * length runs + j) = Some (fname j (label function) t, img)).
Proof.
  intros Hmaps Hruns Htimes.
  destruct (all_synthesized_defined np_exp exp_beyond_int64 function T_wish runs
              Hruns Htimes) as [imgss Himgss].
  by eapply theoret_MRI_outputs.
Qed.

End outputs.

Section files.
Variable np_exp : float → float.
Variable exp_beyond_int64 : Z → Array2 float → result (Array2 float).

(** C5, as the code has it: for requested times that are pairwise distinct
    and that NumPy holds as [int64], and [runs] well-formed map triples, the
    call returns [len(T_wish) * runs] images and leaves as many files,
    requested times in the outer loop and runs in the inner one; file
    [i * runs + j] is named after run [j + 1], the label of the model and
    requested time [i], and holds the array of image [i * runs + j]; the
    names are pairwise distinct. *)
Theorem theoret_MRI_files (function : model) (T_wish : list Z)
    (T_maps Momaps Cmaps : list ref) (w : world) (runs : list run_maps) :
  maps_at (heap w) T_maps Momaps Cmaps runs → Forall run_ok runs →
  NoDup T_wish → Forall int64 T_wish →
  ∃ TheoretImgs w',
    theoret_MRI np_exp exp_beyond_int64 function T_wish T_maps Momaps Cmaps w
      = (Ok TheoretImgs, w') ∧
    length TheoretImgs = length T_wish * length runs ∧
    length (folder w') = length T_wish * length runs ∧
    NoDup (folder w').*1 ∧
    ∀ i j t run, T_wish !! i = Some t → runs !! j = Some run →
      ∃ r img,
        TheoretImgs !! (i * length runs + j) = Some r ∧
        heap w' !! r = Some (Arr2 img) ∧
        folder w' !! (i * length runs + j)
          = Some (("Theoretical_MRI/slice_" +:+ py_str_nat (j + 1) +:+ "_"
                     +:+ label function +:+ "_" +:+ py_str_Z t +:+ "ms.png")%string,
                  img).
Proof.
  intros Hmaps Hruns Hnodup Htimes.
  destruct (theoret_MRI_total np_exp exp_beyond_int64 function T_wish T_maps Momaps
              Cmaps w runs Hmaps Hruns Htimes)
    as (TheoretImgs & w' & Hrun & Hlen & Hnd & _ & Hnames & Hall).
  specialize (Hnames Hnodup).
  exists TheoretImgs, w'. split; [done|]. split; [done|].
  assert (length (names_of (label function) (length runs) T_wish)
          = length T_wish * length runs) as Hcount.
  { unfold names_of. rewrite (length_join_uniform (length runs)).
    - by rewrite length_fmap.
    - apply Forall_fmap, Forall_forall. intros t _. simpl.
      unfold names_for. by rewrite length_fmap, length_seq. }
  split; [by rewrite <-Hcount, <-Hnames, length_fmap|].
  split; [done|].
  intros i j t run Ht Hrun'.
  destruct (Hall i j t run Ht Hrun') as (r & value & img & ? & _ & _ & ? & Hfile).
  exists r, img. split; [done|]. split; [done|]. by apply Hfile.
Qed.

End files.

(** The maps of the worked examples: one run of one pixel. *)
Lemma unit_maps_at (tm mo c : float) :
  maps_at
    [Arr2 (mkArray2 1 1 [[tm]]); Arr2 (mkArray2 1 1 [[mo]]); Arr2 (mkArray2 1 1 [[c]])]
    [0] [1] [2]
    [(mkArray2 1 1 [[tm]], mkArray2 1 1 [[mo]], mkArray2 1 1 [[c]])].
Proof.
  split; [done|]. intros [|j] tm' mo' c' Hrun; [|done].
  injection Hrun as <- <- <-. by exists 0, 1, 2.
Qed.

Lemma unit_run_ok (tm mo c : float) :
  Forall run_ok [(mkArray2 1 1 [[tm]], mkArray2 1 1 [[mo]], mkArray2 1 1 [[c]])].
Proof.
  constructor; [|constructor].
  repeat split; simpl; try lia; repeat constructor.
Qed.

Lemma theoret_MRI_files_witness :
  ∃ TheoretImgs w',
    theoret_MRI exp_stub beyond_stub T2 [0; 5]%Z [0] [1] [2]
      (mkWorld [Arr2 (mkArray2 1 1 [[1%float]]); Arr2 (mkArray2 1 1 [[1%float]]);
                Arr2 (mkArray2 1 1 [[0%float]])] [])
      = (Ok TheoretImgs, w') ∧
    length TheoretImgs = 2 * 1 ∧
    length (folder w') = 2 * 1 ∧
    NoDup (folder w').*1 ∧
    ∀ i j t run, [0; 5]%Z !! i = Some t →
      [(mkArray2 1 1 [[1%float]], mkArray2 1 1 [[1%float]], mkArray2 1 1 [[0%float]])]
        !! j = Some run →
      ∃ r img,
        TheoretImgs !! (i * 1 + j) = Some r ∧
        heap w' !! r = Some (Arr2 img) ∧
        folder w' !! (i * 1 + j)
          = Some (("Theoretical_MRI/slice_" +:+ py_str_nat (j + 1) +:+ "_"
                     +:+ label T2 +:+ "_" +:+ py_str_Z t +:+ "ms.png")%string,
                  img).
Proof.
  apply (theoret_MRI_files exp_stub beyond_stub T2 [0; 5]%Z [0] [1] [2]
           (mkWorld [Arr2 (mkArray2 1 1 [[1%float]]); Arr2 (mkArray2 1 1 [[1%float]]);
                     Arr2 (mkArray2 1 1 [[0%float]])] [])
           [(mkArray2 1 1 [[1%float]], mkArray2 1 1 [[1%float]],
             mkArray2 1 1 [[0%float]])]).
  - apply unit_maps_at.
  - apply unit_run_ok.
  - apply NoDup_cons. split; [|apply NoDup_singleton].
    intros Hin. apply list_elem_of_singleton in Hin. discriminate.
  - repeat constructor; unfold int64; lia.
Defined.

(** A requested time that is listed twice: the two images of the run are
    written under one name, whatever the library, and the second file
    replaces the first. *)
Lemma theoret_MRI_repeated_time :
  ∃ name,
    ∀ np_exp exp_beyond_int64, ∃ TheoretImgs w',
      theoret_MRI np_exp exp_beyond_int64 T2 [250; 250]%Z [0] [1] [2]
        (mkWorld [Arr2 (mkArray2 1 1 [[1%float]]); Arr2 (mkArray2 1 1 [[1%float]]);
                  Arr2 (mkArray2 1 1 [[0%float]])] [])
        = (Ok TheoretImgs, w') ∧
      length TheoretImgs = 2 * 1 ∧
      names_of (label T2) 1 [250; 250]%Z = [name; name] ∧
      (folder w').*1 = [name] ∧ length (folder w') ≠ 2 * 1.
Proof.
  exists "Theoretical_MRI/slice_1_TE_250ms.png"%string. intros np_exp exp_beyond_int64.
  destruct (theoret_MRI_total np_exp exp_beyond_int64 T2 [250; 250]%Z [0] [1] [2]
    (mkWorld [Arr2 (mkArray2 1 1 [[1%float]]); Arr2 (mkArray2 1 1 [[1%float]]);
              Arr2 (mkArray2 1 1 [[0%float]])] [])
    [(mkArray2 1 1 [[1%float]], mkArray2 1 1 [[1%float]], mkArray2 1 1 [[0%float]])])
    as (TheoretImgs & w' & Hrun & Hlen & Hnodup & Hnames & _).
  - apply unit_maps_at.
  - apply unit_run_ok.
  - repeat constructor; unfold int64; lia.
  - exists TheoretImgs, w'. split; [done|]. split; [done|].
    split; [reflexivity|].
    assert ((folder w').*1 = ["Theoretical_MRI/slice_1_TE_250ms.png"%string]) as Hone.
    { destruct ((folder w').*1) as [|name [|name' names]] eqn:Hfolder.
      - exfalso. eapply elem_of_nil. apply Hnames. apply list_elem_of_here.
      - f_equal. assert (name ∈ [name]) as Hin by apply list_elem_of_here.
        apply Hnames in Hin. vm_compute in Hin.
        by repeat apply elem_of_cons in Hin as [->|Hin]; [..|apply elem_of_nil in Hin].
      - exfalso. apply NoDup_cons in Hnodup as [Hnotin _]. apply Hnotin.
        assert (name ∈ name :: name' :: names) as Hin by apply list_elem_of_here.
        assert (name' ∈ name :: name' :: names) as Hin'
          by apply list_elem_of_further, list_elem_of_here.
        apply Hnames in Hin, Hin'. vm_compute in Hin, Hin'.
        assert (name = "Theoretical_MRI/slice_1_TE_250ms.png"%string) as ->
          by by repeat apply elem_of_cons in Hin as [->|Hin];
                [..|apply elem_of_nil in Hin].
        assert (name' = "Theoretical_MRI/slice_1_TE_250ms.png"%string) as ->
          by by repeat apply elem_of_cons in Hin' as [->|Hin'];
                [..|apply elem_of_nil in Hin'].
        apply list_elem_of_here. }
    split; [done|]. apply (f_equal length) in Hone. rewrite length_fmap in Hone.
    rewrite Hone. simpl. lia.
Qed.

Lemma np_max_zeros (points : list float) :
  points ≠ [] → Forall (λ p, p = 0%float) points → np_max points = Ok 0%float.
Proof.
  destruct points as [|p points]; [done|]. intros _ Hall.
  apply Forall_cons in Hall as [-> Hall]. simpl. f_equal.
  induction Hall as [|p points -> _ IH]; [done|]. exact IH.
Qed.

Section returned.
Variable np_exp : float → float.
Variable exp_beyond_int64 : Z → Array2 float → result (Array2 float).

(** C6, on the code: whenever the call returns, whatever the requested
    times and the library, every array of the list returned holds the value
    of the model multiplied by [255 / maximum], where [maximum] is the
    maximum of that value: the in-place rescaling of line 158 acts on the
    array that line 156 appended.  On well-formed maps and for requested
    times that are [int64] the call returns. *)
Theorem theoret_MRI_returns_rescaled (function : model) (T_wish : list Z)
    (T_maps Momaps Cmaps : list ref) (w : world) (runs : list run_maps) :
  maps_at (heap w) T_maps Momaps Cmaps runs →
  (∀ TheoretImgs w',
     theoret_MRI np_exp exp_beyond_int64 function T_wish T_maps Momaps Cmaps w
       = (Ok TheoretImgs, w') →
     ∀ i j t run, T_wish !! i = Some t → runs !! j = Some run →
       ∃ r value maximum,
         TheoretImgs !! (i * length runs + j) = Some r ∧
         model_value np_exp exp_beyond_int64 function t run = Ok value ∧
         np_max2 value = Ok maximum ∧
         heap w' !! r = Some (Arr2 (scale (255 / maximum) value))) ∧
  (Forall run_ok runs → Forall int64 T_wish →
   ∃ TheoretImgs w',
     theoret_MRI np_exp exp_beyond_int64 function T_wish T_maps Momaps Cmaps w
       = (Ok TheoretImgs, w')).
Proof.
  intros Hmaps. split.
  - intros TheoretImgs w' Hrun i j t run Ht Hrun'.
    destruct (comprehension
                (λ t, comprehension (synthesized np_exp exp_beyond_int64 function t) runs)
                T_wish) as [imgss|e] eqn:Himgss.
    + destruct (theoret_MRI_outputs np_exp exp_beyond_int64 function T_wish T_maps
                  Momaps Cmaps w runs imgss Hmaps Himgss)
        as (TheoretImgs0 & w0 & Hrun0 & _ & _ & _ & _ & Hall).
      rewrite Hrun in Hrun0. injection Hrun0 as <- <-.
      destruct (Hall i j t run Ht Hrun')
        as (r & value & img & Hr & Hvalue & Himg & Hheap & _).
      unfold rescaled in Himg.
      destruct (np_max2 value) as [maximum|] eqn:Hmax; [|done].
      injection Himg as <-. by exists r, value, maximum.
    + destruct (theoret_MRI_raise np_exp exp_beyond_int64 function T_wish T_maps
                  Momaps Cmaps w runs e Hmaps Himgss) as [w0 Hrun0].
      rewrite Hrun in Hrun0. discriminate.
  - intros Hruns Htimes.
    destruct (theoret_MRI_total np_exp exp_beyond_int64 function T_wish T_maps Momaps
                Cmaps w runs Hmaps Hruns Htimes) as (TheoretImgs & w' & Hrun & _).
    by exists TheoretImgs, w'.
Qed.

(** C10: when the value of the model is zero at every pixel its maximum
    is zero, the factor [255 / 0] is infinite, and the call returns after
    it has stored and written an array of NaN. *)
Theorem theoret_MRI_zero_image (function : model) (t : Z)
    (T_maps Momaps Cmaps : list ref) (w : world) (run : run_maps) (h wd : nat) :
  maps_at (heap w) T_maps Momaps Cmaps [run] → 0 < h → 0 < wd →
  model_value np_exp exp_beyond_int64 function t run
    = Ok (mkArray2 h wd (replicate h (replicate wd 0%float))) →
  np_max2 (mkArray2 h wd (replicate h (replicate wd 0%float))) = Ok 0%float ∧
  (255 / 0)%float = infinity ∧
  theoret_MRI np_exp exp_beyond_int64 function [t] T_maps Momaps Cmaps w
  = (Ok [length (heap w)],
     mkWorld (heap w ++ [Arr2 (mkArray2 h wd (replicate h (replicate wd nan)))])
       [(fname 0 (label function) t, mkArray2 h wd (replicate h (replicate wd nan)))]).
Proof.
  intros Hmaps Hh Hwd Hvalue.
  assert (np_max2 (mkArray2 h wd (replicate h (replicate wd 0%float))) = Ok 0%float)
    as Hmax.
  { apply np_max_zeros.
    - intros Hnil. apply (f_equal length) in Hnil. simpl in Hnil.
      rewrite (length_join_uniform wd), length_replicate in Hnil; [nia|].
      apply Forall_replicate. by rewrite length_replicate.
    - simpl. apply Forall_join, Forall_replicate. by apply Forall_replicate. }
  split; [done|]. split; [reflexivity|].
  rewrite (theoret_MRI_run np_exp exp_beyond_int64 function [t] T_maps Momaps Cmaps w [run]
             [[mkArray2 h wd (replicate h (replicate wd nan))]]); [done..| ].
  simpl. unfold synthesized, rescaled. rewrite Hvalue. simpl. rewrite Hmax. simpl.
  do 3 f_equal. unfold scale, np_map. simpl. f_equal.
  rewrite fmap_replicate. f_equal. by rewrite fmap_replicate.
Qed.

End returned.

Lemma theoret_MRI_returns_rescaled_witness :
  ∃ TheoretImgs w',
    theoret_MRI exp_stub beyond_stub T2 [0%Z] [0] [1] [2]
      (mkWorld [Arr2 (mkArray2 1 1 [[1%float]]); Arr2 (mkArray2 1 1 [[1%float]]);
                Arr2 (mkArray2 1 1 [[0%float]])] [])
      = (Ok TheoretImgs, w') ∧
    ∀ i j t run, [0%Z] !! i = Some t →
      [(mkArray2 1 1 [[1%float]], mkArray2 1 1 [[1%float]], mkArray2 1 1 [[0%float]])]
        !! j = Some run →
      ∃ r value maximum,
        TheoretImgs !! (i * 1 + j) = Some r ∧
        model_value exp_stub beyond_stub T2 t run = Ok value ∧
        np_max2 value = Ok maximum ∧
        heap w' !! r = Some (Arr2 (scale (255 / maximum) value)).
Proof.
  pose proof (theoret_MRI_returns_rescaled exp_stub beyond_stub T2 [0%Z] [0] [1] [2]
                (mkWorld [Arr2 (mkArray2 1 1 [[1%float]]);
                          Arr2 (mkArray2 1 1 [[1%float]]);
                          Arr2 (mkArray2 1 1 [[0%float]])] [])
                [(mkArray2 1 1 [[1%float]], mkArray2 1 1 [[1%float]],
                  mkArray2 1 1 [[0%float]])]
                (unit_maps_at 1 1 0)) as [Hrescaled Hreturns].
  destruct Hreturns as (TheoretImgs & w' & Hrun).
  - apply unit_run_ok.
  - repeat constructor; unfold int64; lia.
  - exists TheoretImgs, w'. split; [exact Hrun|]. by apply Hrescaled.
Defined.

(** The same call evaluated: the model gives 1 at the pixel, the array
    returned holds 255. *)
Example theoret_MRI_unit_pixel :
  model_value exp_stub beyond_stub T2 0
    (mkArray2 1 1 [[1%float]], mkArray2 1 1 [[1%float]], mkArray2 1 1 [[0%float]])
    = Ok (mkArray2 1 1 [[1%float]]) ∧
  theoret_MRI exp_stub beyond_stub T2 [0%Z] [0] [1] [2]
    (mkWorld [Arr2 (mkArray2 1 1 [[1%float]]); Arr2 (mkArray2 1 1 [[1%float]]);
              Arr2 (mkArray2 1 1 [[0%float]])] [])
  = (Ok [3],
     mkWorld [Arr2 (mkArray2 1 1 [[1%float]]); Arr2 (mkArray2 1 1 [[1%float]]);
              Arr2 (mkArray2 1 1 [[0%float]]); Arr2 (mkArray2 1 1 [[255%float]])]
       [("Theoretical_MRI/slice_1_TE_0ms.png"%string, mkArray2 1 1 [[255%float]])]).
Proof. split; reflexivity. Qed.

Lemma theoret_MRI_zero_image_witness :
  np_max2 (mkArray2 1 1 (replicate 1 (replicate 1 0%float))) = Ok 0%float ∧
  (255 / 0)%float = infinity ∧
  theoret_MRI exp_stub beyond_stub T2 [0%Z] [0] [1] [2]
    (mkWorld [Arr2 (mkArray2 1 1 [[1%float]]); Arr2 (mkArray2 1 1 [[0%float]]);
              Arr2 (mkArray2 1 1 [[0%float]])] [])
  = (Ok [3],
     mkWorld ([Arr2 (mkArray2 1 1 [[1%float]]); Arr2 (mkArray2 1 1 [[0%float]]);
               Arr2 (mkArray2 1 1 [[0%float]])]
              ++ [Arr2 (mkArray2 1 1 (replicate 1 (replicate 1 nan)))])
       [(fname 0 (label T2) 0, mkArray2 1 1 (replicate 1 (replicate 1 nan)))]).
Proof.
  apply (theoret_MRI_zero_image exp_stub beyond_stub T2 0 [0] [1] [2]
           (mkWorld [Arr2 (mkArray2 1 1 [[1%float]]); Arr2 (mkArray2 1 1 [[0%float]]);
                     Arr2 (mkArray2 1 1 [[0%float]])] [])
           (mkArray2 1 1 [[1%float]], mkArray2 1 1 [[0%float]], mkArray2 1 1 [[0%float]])
           1 1).
  - apply unit_maps_at.
  - lia.
  - lia.
  - reflexivity.
Defined.

(** ** Arrays that a stage is given *)

(** Every object of the store before is an object of the store after,
    with the same contents. *)
Lemma prefix_insert_end (h : list ndarray) (a b : ndarray) :
  h `prefix_of` <[length h:=b]> (h ++ [a]).
Proof.
  rewrite insert_app_r_alt by done. rewrite Nat.sub_diag. simpl. by apply prefix_app_r.
Qed.

Section frame.
Variable np_exp : float → float.
Variable exp_beyond_int64 : Z → Array2 float → result (Array2 float).
Variable curve_fit :
  model → list float → list float → list float * list float → nat →
  result (list float).

Lemma synthesize_one_extends (function : model) (txt : string)
    (T_maps Momaps Cmaps : list ref) (t : Z) (TheoretImgs : list ref) (j : nat)
    (w : world) :
  heap w `prefix_of`
    heap (synthesize_one np_exp exp_beyond_int64 function txt T_maps Momaps Cmaps t
            TheoretImgs j w).2.
Proof.
  unfold synthesize_one, index, lift, read2, alloc, write2, imsave.
  unfold mbind, M_bind, mret, M_ret. simpl.
  repeat case_match; simplify_eq/=;
    first [ done | by apply prefix_app_r | apply prefix_insert_end ].
Qed.

Lemma theoret_MRI_extends (function : model) (T_wish : list Z)
    (T_maps Momaps Cmaps : list ref) (w : world) :
  heap w `prefix_of`
    heap (theoret_MRI np_exp exp_beyond_int64 function T_wish T_maps Momaps Cmaps w).2.
Proof.
  unfold theoret_MRI. rewrite M_bind_run. unfold fresh_folder.
  change (heap w) with (heap (mkWorld (heap w) [])) at 1.
  apply (for_each_M_rel (λ w1 w2, heap w1 `prefix_of` heap w2)).
  - done.
  - intros w1 w2 w3 ??. by etrans.
  - intros acc t w1.
    apply (for_each_M_rel (λ w1 w2, heap w1 `prefix_of` heap w2)).
    + done.
    + intros ??? ??. by etrans.
    + intros acc' j w2. apply synthesize_one_extends.
Qed.

Lemma fit_run_extends (function : model) (T_train : list float)
    (images : Array3 float) (maps : list ref * list ref * list ref) (i : nat)
    (w : world) :
  heap w `prefix_of` heap (fit_run curve_fit function T_train images maps i w).2.
Proof.
  unfold fit_run. destruct maps as [[T_maps Momaps] Cmaps].
  unfold lift, alloc. unfold mbind, M_bind, mret, M_ret. simpl.
  repeat case_match; simplify_eq/=; try done;
    repeat (etrans; [|by apply prefix_app_r]); done.
Qed.

Lemma calculate_maps_extends (images : ref) (T_train : list float)
    (function : model) (w : world) :
  heap w `prefix_of` heap (calculate_maps curve_fit images T_train function w).2.
Proof.
  unfold calculate_maps, read3, lift. rewrite !M_bind_run.
  destruct (heap w !! images) as [[a|stack]|]; simpl; try done.
  destruct (int_div _ _) as [runs|e]; simpl; [|done].
  apply (for_each_M_rel (λ w1 w2, heap w1 `prefix_of` heap w2)).
  - done.
  - intros ??? ??. by etrans.
  - intros maps i w1. apply fit_run_extends.
Qed.

(** C9: neither stage changes an array that existed before the call: the
    store before the call is a prefix of the store after it, whether the
    call returns or raises; so the image stack given to [calculate_maps]
    and the maps given to [theoret_MRI] hold afterwards what they held
    before. *)
Theorem stages_keep_their_arguments :
  (∀ images T_train function w a,
     heap w `prefix_of` heap (calculate_maps curve_fit images T_train function w).2 ∧
     (heap w !! images = Some a →
      heap (calculate_maps curve_fit images T_train function w).2 !! images = Some a)) ∧
  (∀ function T_wish T_maps Momaps Cmaps w r a,
     heap w `prefix_of`
       heap (theoret_MRI np_exp exp_beyond_int64 function T_wish T_maps Momaps
               Cmaps w).2 ∧
     (r ∈ T_maps ++ Momaps ++ Cmaps → heap w !! r = Some a →
      heap (theoret_MRI np_exp exp_beyond_int64 function T_wish T_maps Momaps
              Cmaps w).2 !! r = Some a)).
Proof.
  split.
  - intros images T_train function w a.
    pose proof (calculate_maps_extends images T_train function w) as Hext.
    split; [done|]. intros Ha. by eapply prefix_lookup_Some.
  - intros function T_wish T_maps Momaps Cmaps w r a.
    pose proof (theoret_MRI_extends function T_wish T_maps Momaps Cmaps w) as Hext.
    split; [done|]. intros _ Ha. by eapply prefix_lookup_Some.
Qed.

End frame.

(** ** Fitting *)

Lemma omap_lookup_total {A B} (f : A → option B) (l : list A) (i : nat) :
  Forall (λ x, is_Some (f x)) l → omap f l !! i = l !! i ≫= f.
Proof.
  intros Hall. revert i. induction Hall as [|x l [y Hy] _ IH]; intros i; [done|].
  simpl. rewrite Hy. destruct i as [|i]; simpl; [done|apply IH].
Qed.

Lemma omap_length_total {A B} (f : A → option B) (l : list A) :
  Forall (λ x, is_Some (f x)) l → length (omap f l) = length l.
Proof.
  induction 1 as [|x l [y Hy] _ IH]; [done|]. simpl. rewrite Hy. simpl. by f_equal.
Qed.

Lemma run_slice_wf (n : nat) (stack : Array3 float) (i : nat) :
  wf3 stack → n * (i + 1) ≤ depth stack →
  length (run_slice n stack i) = n ∧
  Forall (rows_wf (height stack) (width stack)) (run_slice n stack i).
Proof.
  intros [Hlen Hall] Hi. unfold run_slice. split.
  - rewrite length_take, length_drop. nia.
  - by apply Forall_take, Forall_drop.
Qed.

(** The samples of pixel [(k, j)] of run [i] are the values of that pixel
    in the images of the run. *)
Lemma pixel_samples_lookup (slice1 : list (list (list float))) (h w k j t : nat) :
  Forall (rows_wf h w) slice1 → k < h → j < w →
  length (pixel_samples slice1 k j) = length slice1 ∧
  pixel_samples slice1 k j !! t = slice1 !! t ≫= (λ image, image !! k ≫= (.!! j)).
Proof.
  intros Hall Hk Hj. unfold pixel_samples.
  assert (Forall (λ image : list (list float), is_Some (image !! k ≫= (.!! j))) slice1)
    as Hsome.
  { eapply Forall_impl; [exact Hall|]. intros image [Hlen Hrows]. simpl.
    destruct (lookup_lt_is_Some_2 image k) as [row Hrow]; [lia|]. rewrite Hrow. simpl.
    apply lookup_lt_is_Some_2. eapply Forall_lookup_1 in Hrows; [|exact Hrow].
    simpl in Hrows. lia. }
  split; [by apply omap_length_total|by apply omap_lookup_total].
Qed.

Lemma np_max_defined (points : list float) :
  0 < length points → ∃ points_max, np_max points = Ok points_max.
Proof. destruct points; simpl; [lia|]. by eexists. Qed.

Section task_facts.
Variable curve_fit :
  model → list float → list float → list float * list float → nat →
  result (list float).

Lemma length_sentinel (function : model) (m : float) :
  length (sentinel function m) = arity function.
Proof. by destruct function. Qed.

(** [task] in terms of the one call of the solver it makes. *)
Lemma task_unfold (function : model) (T_train : list float)
    (slice1 : list (list (list float))) (k j : nat) (points_max : float) :
  np_max (pixel_samples slice1 k j) = Ok points_max →
  task curve_fit function T_train slice1 k j =
    match curve_fit function T_train (pixel_samples slice1 k j)
            (bounds function points_max) 1000 with
    | Ok parameters => Ok parameters
    | Raise RuntimeError => Ok (sentinel function points_max)
    | Raise e => Raise e
    end.
Proof.
  intros Hmax. unfold task. rewrite Hmax. simpl.
  destruct (curve_fit _ _ _ _ _) as [p|[]]; try done. by destruct function.
Qed.

(** When the call of the solver settles, [task] returns one value per
    parameter. *)
Lemma task_defined (function : model) (T_train : list float)
    (slice1 : list (list (list float))) (h w k j : nat) :
  settles curve_fit function T_train slice1 k j →
  Forall (rows_wf h w) slice1 → 0 < length slice1 → k < h → j < w →
  ∃ parameters,
    task curve_fit function T_train slice1 k j = Ok parameters ∧
    length parameters = arity function.
Proof.
  intros Hsolver Hall Hlen Hk Hj.
  destruct (pixel_samples_lookup slice1 h w k j 0 Hall Hk Hj) as [Hsamples _].
  destruct (np_max_defined (pixel_samples slice1 k j)) as [points_max Hmax]; [lia|].
  rewrite (task_unfold _ _ _ _ _ _ Hmax).
  specialize (Hsolver points_max Hmax).
  destruct (curve_fit _ _ _ _ _) as [p|e].
  - by exists p.
  - subst e. eexists. split; [done|]. apply length_sentinel.
Qed.

End task_facts.

Lemma forallb_same_length (n : nat) (fitted : list (list float)) :
  Forall (λ p, length p = n) fitted →
  forallb (λ p, bool_decide (length p = n)) fitted = true.
Proof.
  induction 1 as [|p fitted Hp _ IH]; [done|]. simpl.
  by rewrite bool_decide_eq_true_2, IH.
Qed.

(** A column of a rectangular list of parameter vectors. *)
Lemma column_ok (c n : nat) (fitted : list (list float)) :
  0 < length fitted → Forall (λ p, length p = n) fitted → c < n →
  ∃ col, column c fitted = Ok col ∧ length col = length fitted ∧
         ∀ j, col !! j = fitted !! j ≫= (.!! c).
Proof.
  intros Hlen Hall Hc. unfold column.
  destruct fitted as [|p fitted]; [simpl in Hlen; lia|].
  pose proof (Forall_inv Hall) as Hp. simpl in Hp.
  rewrite Hp, (forallb_same_length n) by done. rewrite decide_True by done.
  assert (Forall (λ q : list float, is_Some (q !! c)) (p :: fitted)) as Hsome.
  { eapply Forall_impl; [exact Hall|]. intros q Hq. simpl in *.
    apply lookup_lt_is_Some_2. lia. }
  eexists. split; [done|]. split.
  - by apply omap_length_total.
  - intros j. by apply omap_lookup_total.
Qed.

Lemma reshape2_rows (l : list (list float)) (h w : nat) :
  length l = h → Forall (λ r, length r = w) l →
  reshape2 l h w = Ok (mkArray2 h w l).
Proof.
  intros Hlen Hall. unfold reshape2.
  rewrite decide_True by (rewrite (length_join_uniform w) by done; lia).
  by rewrite chunks_join.
Qed.

Section fit_facts.
Variable curve_fit :
  model → list float → list float → list float * list float → nat →
  result (list float).

(** One pass of the loop over the rows. *)
Lemma fit_row_ok (function : model) (T_train : list float)
    (slice1 : list (list (list float))) (h w k : nat)
    (T_list Molist Clist : list (list float)) :
  (∀ j, j < w → settles curve_fit function T_train slice1 k j) →
  Forall (rows_wf h w) slice1 → 0 < length slice1 → k < h → 0 < w →
  ∃ T_row Mo_row C_row,
    fit_row curve_fit function T_train slice1 w (T_list, Molist, Clist) k
      = Ok (T_list ++ [T_row], Molist ++ [Mo_row], Clist ++ [C_row]) ∧
    row_fitted curve_fit function T_train slice1 w k T_row Mo_row C_row.
Proof.
  intros Hsolver Hall Hlen Hk Hw. unfold fit_row.
  destruct (comprehension_defined
              (task curve_fit function T_train slice1 k) (seq 0 w)) as [fitted Hfitted].
  { intros j Hj. apply elem_of_seq in Hj.
    destruct (task_defined curve_fit function T_train slice1 h w k j) as (p & ? & _);
      [apply Hsolver; lia|done..|lia|]. by exists p. }
  rewrite Hfitted. simpl.
  destruct (comprehension_lookup _ _ _ Hfitted) as [Hcount Hpixels].
  rewrite length_seq in Hcount.
  assert (Forall (λ p, length p = arity function) fitted) as Hsizes.
  { apply Forall_lookup. intros j p Hp.
    assert (j < w) as Hj by (rewrite <-Hcount; by eapply lookup_lt_Some).
    destruct (Hpixels j j) as (p' & Hp' & Hlook); [by apply lookup_seq_lt|].
    rewrite Hp in Hlook. injection Hlook as <-.
    destruct (task_defined curve_fit function T_train slice1 h w k j)
      as (q & Hq & Hsize); [by apply Hsolver|done..|].
    rewrite Hq in Hp'. by injection Hp' as <-. }
  assert (3 ≤ arity function) as Harity by (destruct function; simpl; lia).
  destruct (column_ok 0 (arity function) fitted) as (c0 & -> & Hl0 & Hc0);
    [lia|done|lia|].
  destruct (column_ok 1 (arity function) fitted) as (c1 & -> & Hl1 & Hc1);
    [lia|done|lia|].
  destruct (column_ok 2 (arity function) fitted) as (c2 & -> & Hl2 & Hc2);
    [lia|done|lia|].
  simpl. exists c0, c1, c2. split; [done|].
  repeat split; try lia.
  intros j Hj. destruct (Hpixels j j) as (p & Hp & Hlook); [by apply lookup_seq_lt|].
  exists p. split; [done|]. by rewrite Hc0, Hc1, Hc2, Hlook.
Qed.

(** The loop over the rows of a run. *)
Lemma fit_rows_ok (function : model) (T_train : list float)
    (slice1 : list (list (list float))) (h w : nat) :
  (∀ k j, k < h → j < w → settles curve_fit function T_train slice1 k j) →
  Forall (rows_wf h w) slice1 → 0 < length slice1 → 0 < w →
  ∃ T_list Molist Clist,
    for_each (fit_row curve_fit function T_train slice1 w) ([], [], []) (seq 0 h)
      = Ok (T_list, Molist, Clist) ∧
    length T_list = h ∧ length Molist = h ∧ length Clist = h ∧
    ∀ k, k < h →
      ∃ T_row Mo_row C_row,
        T_list !! k = Some T_row ∧ Molist !! k = Some Mo_row ∧
        Clist !! k = Some C_row ∧
        row_fitted curve_fit function T_train slice1 w k T_row Mo_row C_row.
Proof.
  intros Hsolver Hall Hlen Hw.
  set (P := λ (n : nat) (lists : list (list float) * list (list float) * list (list float)),
    let '(T_list, Molist, Clist) := lists in
    length T_list = n ∧ length Molist = n ∧ length Clist = n ∧
    ∀ k, k < n →
      ∃ T_row Mo_row C_row,
        T_list !! k = Some T_row ∧ Molist !! k = Some Mo_row ∧
        Clist !! k = Some C_row ∧
        row_fitted curve_fit function T_train slice1 w k T_row Mo_row C_row).
  destruct (for_each_seq P (fit_row curve_fit function T_train slice1 w) h ([], [], []))
    as ([[T_list Molist] Clist] & Hrun & HP).
  - simpl. repeat split; try done. intros k Hk. lia.
  - intros k [[T_list Molist] Clist] Hk (HlT & HlM & HlC & Hrows).
    destruct (fit_row_ok function T_train slice1 h w k T_list Molist Clist)
      as (T_row & Mo_row & C_row & Hrow & Hfitted);
      [intros j Hj; by apply Hsolver|done..|].
    eexists. split; [exact Hrow|]. simpl.
    rewrite !length_app. simpl. repeat split; try lia.
    intros k' Hk'. destruct (decide (k' = k)) as [->|Hne].
    + exists T_row, Mo_row, C_row.
      split; [by apply list_lookup_middle|]. split; [by apply list_lookup_middle|].
      split; [by apply list_lookup_middle|done].
    + destruct (Hrows k') as (T_row' & Mo_row' & C_row' & ? & ? & ? & ?); [lia|].
      exists T_row', Mo_row', C_row'.
      split; [by apply lookup_app_l_Some|]. split; [by apply lookup_app_l_Some|].
      split; [by apply lookup_app_l_Some|done].
  - exists T_list, Molist, Clist. split; [done|]. exact HP.
Qed.

End fit_facts.

Section run_facts.
Variable curve_fit :
  model → list float → list float → list float * list float → nat →
  result (list float).

(** One pass of the loop over the runs: three maps are allocated, and
    nothing else changes. *)
Lemma fit_run_ok (function : model) (T_train : list float) (stack : Array3 float)
    (T_maps Momaps Cmaps : list ref) (i : nat) (w : world) :
  (∀ k j, k < height stack → j < width stack →
     settles curve_fit function T_train (run_slice (length T_train) stack i) k j) →
  wf3 stack → 0 < length T_train → length T_train * (i + 1) ≤ depth stack →
  0 < width stack →
  ∃ T_map Momap Cmap,
    fit_run curve_fit function T_train stack (T_maps, Momaps, Cmaps) i w
      = (Ok (T_maps ++ [length (heap w)], Momaps ++ [S (length (heap w))],
             Cmaps ++ [S (S (length (heap w)))]),
         mkWorld (heap w ++ [Arr2 T_map; Arr2 Momap; Arr2 Cmap]) (folder w)) ∧
    maps_fitted curve_fit function T_train (run_slice (length T_train) stack i)
      (height stack) (width stack) T_map Momap Cmap.
Proof.
  intros Hsolver Hwf Htrain Hi Hw.
  destruct (run_slice_wf (length T_train) stack i Hwf Hi) as [Hlen Hall].
  unfold fit_run. fold (run_slice (length T_train) stack i).
  set (slice1 := run_slice (length T_train) stack i) in *.
  destruct (fit_rows_ok curve_fit function T_train slice1 (height stack) (width stack))
    as (T_list & Molist & Clist & Hrows & HlT & HlM & HlC & Hfitted); [done| done|lia|done|].
  assert (Forall (λ r, length r = width stack) T_list ∧
          Forall (λ r, length r = width stack) Molist ∧
          Forall (λ r, length r = width stack) Clist) as (HT & HM & HC).
  { repeat split; apply Forall_lookup; intros k row Hrow;
      (assert (k < height stack) as Hk
         by (apply lookup_lt_Some in Hrow; lia));
      destruct (Hfitted k Hk) as (T_row & Mo_row & C_row & H1 & H2 & H3 & H4 & H5 & H6 & _);
      simplify_eq; done. }
  unfold lift, alloc. rewrite !M_bind_run. rewrite Hrows. simpl.
  rewrite !M_bind_run. rewrite (reshape2_rows T_list) by done. simpl.
  rewrite !M_bind_run. simpl. rewrite (reshape2_rows Molist) by done. simpl.
  rewrite !M_bind_run. simpl. rewrite (reshape2_rows Clist) by done. simpl.
  exists (mkArray2 (height stack) (width stack) T_list),
         (mkArray2 (height stack) (width stack) Molist),
         (mkArray2 (height stack) (width stack) Clist).
  split.
  - rewrite ?M_bind_run. unfold mret, M_ret. simpl. rewrite !length_app. simpl.
    rewrite <-!app_assoc. simpl.
    rewrite !Nat.add_1_r. rewrite ?Nat.add_succ_r, ?Nat.add_0_r. done.
  - repeat split; try done.
    intros k j Hk Hj.
    destruct (Hfitted k Hk) as (T_row & Mo_row & C_row & H1 & H2 & H3 & _ & _ & _ & Hpix).
    destruct (Hpix j Hj) as (p & Hp & ? & ? & ?).
    exists p. split; [done|]. unfold pixel. simpl. rewrite H1, H2, H3. simpl. done.
Qed.

End run_facts.

Section calculate_maps_facts.
Variable curve_fit :
  model → list float → list float → list float * list float → nat →
  result (list float).

Lemma fitted_at_app (function : model) (T_train : list float) (stack : Array3 float)
    (h h' : list ndarray) (T_maps Momaps Cmaps T_maps' Momaps' Cmaps' : list ref)
    (i : nat) :
  fitted_at curve_fit function T_train stack h T_maps Momaps Cmaps i →
  fitted_at curve_fit function T_train stack (h ++ h')
    (T_maps ++ T_maps') (Momaps ++ Momaps') (Cmaps ++ Cmaps') i.
Proof.
  intros (T_ref & Mo_ref & C_ref & T_map & Momap & Cmap
          & ? & ? & ? & ? & ? & ? & ?).
  exists T_ref, Mo_ref, C_ref, T_map, Momap, Cmap.
  do 6 (split; [by apply lookup_app_l_Some|]). done.
Qed.

(** When every call of the solver settles the whole computation returns:
    one triple of maps per run, each fitted pixel by pixel. *)
Lemma calculate_maps_ok (function : model) (T_train : list float) (images : ref)
    (w : world) (stack : Array3 float) :
  settles_on curve_fit function T_train stack →
  heap w !! images = Some (Arr3 stack) → wf3 stack →
  0 < length T_train → 0 < width stack →
  ∃ T_maps Momaps Cmaps w',
    calculate_maps curve_fit images T_train function w
      = (Ok (T_maps, Momaps, Cmaps), w') ∧
    length T_maps = depth stack / length T_train ∧
    length Momaps = depth stack / length T_train ∧
    length Cmaps = depth stack / length T_train ∧
    ∀ i, i < depth stack / length T_train →
      fitted_at curve_fit function T_train stack (heap w') T_maps Momaps Cmaps i.
Proof.
  intros Hsolver Himages Hwf Htrain Hw.
  unfold calculate_maps, read3, lift. rewrite !M_bind_run, Himages.
  unfold int_div. rewrite decide_False by lia. simpl.
  set (runs := depth stack / length T_train).
  set (P := λ (n : nat) (maps : list ref * list ref * list ref) (w' : world),
    let '(T_maps, Momaps, Cmaps) := maps in
    length T_maps = n ∧ length Momaps = n ∧ length Cmaps = n ∧
    ∀ i, i < n →
      fitted_at curve_fit function T_train stack (heap w') T_maps Momaps Cmaps i).
  destruct (for_each_M_ok P (fit_run curve_fit function T_train stack)
              (seq 0 runs) ([], [], []) w)
    as ([[T_maps Momaps] Cmaps] & w' & Hrun & HP).
  - simpl. repeat split; try done. intros i Hi. lia.
  - intros n x [[T_maps Momaps] Cmaps] w1 Hx (HlT & HlM & HlC & Hprev).
    apply lookup_seq in Hx as [-> Hn]. simpl in Hn.
    assert (length T_train * (n + 1) ≤ depth stack) as Hrange.
    { pose proof (Nat.Div0.mul_div_le (depth stack) (length T_train)).
      fold runs in H. nia. }
    destruct (fit_run_ok curve_fit function T_train stack T_maps Momaps Cmaps n w1)
      as (T_map & Momap & Cmap & Hfit & Hfitted);
      [intros k j Hk Hj; by apply Hsolver|done..|].
    eexists _, _. split; [exact Hfit|]. simpl.
    rewrite !length_app. simpl. repeat split; try lia.
    intros i Hi. destruct (decide (i = n)) as [->|Hne].
    + exists (length (heap w1)), (S (length (heap w1))), (S (S (length (heap w1)))),
        T_map, Momap, Cmap.
      split; [by apply list_lookup_middle|]. split; [by apply list_lookup_middle|].
      split; [by apply list_lookup_middle|].
      split; [by apply list_lookup_middle|].
      split; [by rewrite lookup_app_r by lia; rewrite Nat.sub_succ_l, Nat.sub_diag by lia|].
      split; [|done].
      rewrite lookup_app_r by lia.
      by replace (S (S (length (heap w1))) - length (heap w1)) with 2 by lia.
    + apply fitted_at_app. apply Hprev. lia.
  - rewrite length_seq in HP. exists T_maps, Momaps, Cmaps, w'. split; [done|]. exact HP.
Qed.

End calculate_maps_facts.

(** ** Exceptions of the fit *)

(** A loop raises when one of its passes raises whatever the state. *)
Lemma for_each_raises_at {St I} (body : St → I → result St) (range : list I)
    (s : St) (i : I) :
  i ∈ range → (∀ s, ∃ e, body s i = Raise e) →
  ∃ e, for_each body s range = Raise e.
Proof.
  intros Hi Hraises. revert s.
  induction range as [|x range IH]; intros s; [by apply elem_of_nil in Hi|].
  simpl. destruct (body s x) as [s'|e] eqn:Hbody; simpl; [|by eexists].
  apply elem_of_cons in Hi as [->|Hi]; [|by apply IH].
  destruct (Hraises s) as [e He]. congruence.
Qed.

Lemma for_each_M_raises_at {St I} (body : St → I → M St) (range : list I)
    (s : St) (w : world) (i : I) :
  i ∈ range → (∀ s w, ∃ e w', body s i w = (Raise e, w')) →
  ∃ e w', for_each body s range w = (Raise e, w').
Proof.
  intros Hi Hraises. revert s w.
  induction range as [|x range IH]; intros s w; [by apply elem_of_nil in Hi|].
  rewrite for_each_M_cons.
  destruct (body s x w) as [[s'|e] w'] eqn:Hbody; [|by eexists _, _].
  apply elem_of_cons in Hi as [->|Hi]; [|by apply IH].
  destruct (Hraises s w) as (e & w'' & He). congruence.
Qed.

Lemma comprehension_raises_at {I B} (f : I → result B) (range : list I) (i : I) :
  i ∈ range → (∃ e, f i = Raise e) → ∃ e, comprehension f range = Raise e.
Proof.
  intros Hi [e He].
  induction range as [|x range IH]; [by apply elem_of_nil in Hi|].
  simpl. destruct (f x) as [b|e'] eqn:Hx; simpl; [|by eexists].
  apply elem_of_cons in Hi as [->|Hi]; [congruence|].
  destruct (IH Hi) as [e' ->]. by eexists.
Qed.

(** The exceptions of a loop are exceptions of its passes. *)
Lemma for_each_raise_inv {St I} (Q : exn → Prop) (body : St → I → result St)
    (range : list I) (s : St) (e : exn) :
  (∀ s i e, body s i = Raise e → Q e) → for_each body s range = Raise e → Q e.
Proof.
  intros Hbody. revert s. induction range as [|x range IH]; intros s; [done|].
  simpl. destruct (body s x) as [s'|e'] eqn:Hx; simpl.
  - apply IH.
  - intros [= <-]. by eapply Hbody.
Qed.

Lemma for_each_M_raise_inv {St I} (Q : exn → Prop) (body : St → I → M St)
    (range : list I) (s : St) (w : world) (e : exn) :
  (∀ s i w e, (body s i w).1 = Raise e → Q e) →
  (for_each body s range w).1 = Raise e → Q e.
Proof.
  intros Hbody. revert s w. induction range as [|x range IH]; intros s w; [done|].
  rewrite for_each_M_cons. specialize (Hbody s x w).
  destruct (body s x w) as [[s'|e'] w']; simpl in *.
  - apply IH.
  - intros [= <-]. by apply Hbody.
Qed.

Lemma comprehension_raise_inv {I B} (Q : exn → Prop) (f : I → result B)
    (range : list I) (e : exn) :
  (∀ i e, f i = Raise e → Q e) → comprehension f range = Raise e → Q e.
Proof.
  intros Hf. induction range as [|x range IH]; [done|].
  simpl. destruct (f x) as [b|e'] eqn:Hx; simpl.
  - destruct (comprehension f range) as [bs|e'']; simpl; [done|].
    intros [= <-]. by apply IH.
  - intros [= <-]. by eapply Hf.
Qed.

Lemma column_raise (c : nat) (fitted : list (list float)) (e : exn) :
  column c fitted = Raise e → e ≠ RuntimeError.
Proof.
  unfold column. destruct fitted as [|p fitted]; [by intros [= <-]|].
  repeat case_match; by intros [= <-].
Qed.

Lemma reshape2_raise (l : list (list float)) (h w : nat) (e : exn) :
  reshape2 l h w = Raise e → e ≠ RuntimeError.
Proof. unfold reshape2. case_decide; by intros [= <-]. Qed.

Section escapes.
Variable curve_fit :
  model → list float → list float → list float * list float → nat →
  result (list float).

Lemma task_raise (function : model) (T_train : list float)
    (slice1 : list (list (list float))) (k j : nat) (e : exn) :
  task curve_fit function T_train slice1 k j = Raise e → e ≠ RuntimeError.
Proof.
  unfold task, np_max. destruct (pixel_samples slice1 k j) as [|p points]; simpl.
  - by intros [= <-].
  - destruct (curve_fit _ _ _ _ _) as [parameters|[]]; try (by intros [= <-]).
    by destruct function.
Qed.

Lemma fit_row_raise (function : model) (T_train : list float)
    (slice1 : list (list (list float))) (w : nat)
    (lists : list (list float) * list (list float) * list (list float)) (k : nat)
    (e : exn) :
  fit_row curve_fit function T_train slice1 w lists k = Raise e → e ≠ RuntimeError.
Proof.
  unfold fit_row. destruct lists as [[T_list Molist] Clist].
  destruct (comprehension _ _) as [fitted|e'] eqn:Hfitted; simpl.
  - destruct (column 0 fitted) as [c0|e0] eqn:H0; simpl;
      [|intros [= <-]; by eapply column_raise].
    destruct (column 1 fitted) as [c1|e1] eqn:H1; simpl;
      [|intros [= <-]; by eapply column_raise].
    destruct (column 2 fitted) as [c2|e2] eqn:H2; simpl;
      [done|intros [= <-]; by eapply column_raise].
  - intros [= <-].
    eapply (comprehension_raise_inv (λ e, e ≠ RuntimeError)); [|exact Hfitted].
    intros j e. apply task_raise.
Qed.

Lemma fit_run_raise (function : model) (T_train : list float)
    (images : Array3 float) (maps : list ref * list ref * list ref) (i : nat)
    (w : world) (e : exn) :
  (fit_run curve_fit function T_train images maps i w).1 = Raise e →
  e ≠ RuntimeError.
Proof.
  unfold fit_run. destruct maps as [[T_maps Momaps] Cmaps].
  unfold lift, alloc. rewrite !M_bind_run.
  destruct (for_each _ _ _) as [[[T_list Molist] Clist]|e'] eqn:Hrows; simpl.
  - rewrite !M_bind_run.
    destruct (reshape2 T_list _ _) as [T_map|e1] eqn:H1; simpl;
      [|intros [= <-]; by eapply reshape2_raise].
    rewrite !M_bind_run. simpl.
    destruct (reshape2 Molist _ _) as [Momap|e2] eqn:H2; simpl;
      [|intros [= <-]; by eapply reshape2_raise].
    rewrite !M_bind_run. simpl.
    destruct (reshape2 Clist _ _) as [Cmap|e3] eqn:H3; simpl;
      [|intros [= <-]; by eapply reshape2_raise].
    done.
  - intros [= <-].
    eapply (for_each_raise_inv (λ e, e ≠ RuntimeError)); [|exact Hrows].
    intros lists k e. apply fit_row_raise.
Qed.

Lemma calculate_maps_raise (images : ref) (T_train : list float)
    (function : model) (w : world) (e : exn) :
  (calculate_maps curve_fit images T_train function w).1 = Raise e →
  e ≠ RuntimeError.
Proof.
  unfold calculate_maps, read3, lift. rewrite !M_bind_run.
  destruct (heap w !! images) as [[a|stack]|]; simpl; try by intros [= <-].
  unfold int_div. case_decide; simpl; [by intros [= <-]|].
  apply (for_each_M_raise_inv (λ e, e ≠ RuntimeError)).
  intros maps i w' e'. apply fit_run_raise.
Qed.

End escapes.

(** ** The maximum of the samples *)

Lemma SFleb_trans (x y z : spec_float) :
  SFleb x y = true → SFleb y z = true → SFleb x z = true.
Proof.
  unfold SFleb, SFcompare.
  destruct x as [sx|sx| |sx mx ex], y as [sy|sy| |sy my ey], z as [sz|sz| |sz mz ez];
    try done;
    try (destruct sx, sy, sz; done);
    try (destruct sx, sy; done); try (destruct sy, sz; done); try (destruct sx, sz; done).
  destruct sx, sy, sz; try done;
    change (Pos.compare_cont Eq ?a ?b) with (Pos.compare a b);
    destruct (Z.compare_spec ex ey), (Z.compare_spec ey ez), (Z.compare_spec ex ez);
    try done; try lia; subst;
    destruct (Pos.compare_spec mx my), (Pos.compare_spec my mz), (Pos.compare_spec mx mz);
    try done; try lia.
Qed.

Lemma SFleb_total (x y : spec_float) :
  x ≠ S754_nan → y ≠ S754_nan → SFleb y x = false → SFleb x y = true.
Proof.
  unfold SFleb, SFcompare.
  destruct x as [sx|sx| |sx mx ex], y as [sy|sy| |sy my ey];
    try done; try (destruct sx, sy; done); try (destruct sx; done); try (destruct sy; done).
  intros _ _.
  destruct sx, sy; try done;
    change (Pos.compare_cont Eq ?a ?b) with (Pos.compare a b);
    rewrite (Z.compare_antisym ex ey), (Pos.compare_antisym mx my);
    destruct (ex ?= ey)%Z; simpl; try done; destruct (mx ?= my)%positive; done.
Qed.

Lemma SFleb_refl (x : spec_float) : x ≠ S754_nan → SFleb x x = true.
Proof.
  unfold SFleb, SFcompare. destruct x as [s|s| |s m e]; try done; destruct s; try done;
    change (Pos.compare_cont Eq ?a ?b) with (Pos.compare a b);
    by rewrite Z.compare_refl, Pos.compare_refl.
Qed.

Lemma is_nan_false (x : float) : is_nan x = false ↔ Prim2SF x ≠ S754_nan.
Proof.
  unfold is_nan. rewrite FloatAxioms.eqb_spec. unfold SFeqb, SFcompare.
  destruct (Prim2SF x) as [s|s| |s m e]; try done; destruct s; try done;
    change (Pos.compare_cont Eq ?a ?b) with (Pos.compare a b);
    by rewrite Z.compare_refl, Pos.compare_refl.
Qed.

Lemma leb_nan_l (x y : float) : is_nan x = true → (x <=? y)%float = false.
Proof.
  intros Hx. rewrite FloatAxioms.leb_spec.
  destruct (Prim2SF x) as [s|s| |s m e] eqn:Hsx; [| |done|];
    (assert (is_nan x = false) by (apply is_nan_false; by rewrite Hsx)); congruence.
Qed.

Lemma float_le_trans (x y z : float) :
  (x <=? y)%float = true → (y <=? z)%float = true → (x <=? z)%float = true.
Proof. rewrite !FloatAxioms.leb_spec. apply SFleb_trans. Qed.

Lemma float_le_total (x y : float) :
  is_nan x = false → is_nan y = false →
  (y <=? x)%float = false → (x <=? y)%float = true.
Proof.
  rewrite !is_nan_false, !FloatAxioms.leb_spec. apply SFleb_total.
Qed.

Lemma float_le_refl (x : float) : is_nan x = false → (x <=? x)%float = true.
Proof. rewrite is_nan_false, FloatAxioms.leb_spec. apply SFleb_refl. Qed.

Lemma np_maximum_cases (a b : float) :
  (is_nan a = true ∧ np_maximum a b = a) ∨
  (is_nan a = false ∧ is_nan b = false ∧ (b <=? a)%float = true ∧ np_maximum a b = a) ∨
  (is_nan a = false ∧ is_nan b = true ∧ np_maximum a b = b) ∨
  (is_nan a = false ∧ is_nan b = false ∧ (a <=? b)%float = true ∧ np_maximum a b = b).
Proof.
  unfold np_maximum. destruct (is_nan a) eqn:Ha; [left; by rewrite orb_true_r|].
  right. rewrite orb_false_r. destruct (is_nan b) eqn:Hb.
  - right. left. by rewrite leb_nan_l.
  - destruct (b <=? a)%float eqn:Hba; [by left|].
    right. right. repeat split; try done. by apply float_le_total.
Qed.

(** The fold of [np_maximum] from [a] over [l]. *)
Lemma foldl_np_maximum (l : list float) (a : float) :
  foldl np_maximum a l ∈ a :: l ∧
  (is_nan a = true → foldl np_maximum a l = a) ∧
  (Exists (λ p, is_nan p = true) (a :: l) → is_nan (foldl np_maximum a l) = true) ∧
  (Forall (λ p, is_nan p = false) (a :: l) →
   Forall (λ p, (p <=? foldl np_maximum a l)%float = true) (a :: l)).
Proof.
  revert a. induction l as [|b l IH]; intros a.
  - simpl. split; [apply list_elem_of_here|]. split; [done|]. split.
    + intros H. apply Exists_cons in H as [H|H]; [done|by apply Exists_nil in H].
    + intros H. apply Forall_cons in H as [H _]. constructor; [|constructor].
      by apply float_le_refl.
  - cbn [foldl]. destruct (IH (np_maximum a b)) as (Hin & Hnan & Hex & Hall).
    destruct (np_maximum_cases a b)
      as [[Ha Heq]|[(Ha & Hb & Hle & Heq)|[(Ha & Hb & Heq)|(Ha & Hb & Hle & Heq)]]];
      rewrite Heq in *.
    + split.
      { apply elem_of_cons in Hin as [->|?];
          [apply list_elem_of_here|by do 2 apply list_elem_of_further]. }
      split; [done|]. split; [intros _; by rewrite Hnan|].
      intros H. apply Forall_cons in H as [H _]. congruence.
    + split.
      { apply elem_of_cons in Hin as [->|?];
          [apply list_elem_of_here|by do 2 apply list_elem_of_further]. }
      split; [done|]. split.
      * intros H. apply Hex. apply Exists_cons in H as [H|H]; [congruence|].
        apply Exists_cons in H as [H|H]; [congruence|]. by apply Exists_cons_tl.
      * intros H. apply Forall_cons in H as [_ H]. apply Forall_cons in H as [_ H].
        assert (Forall (λ p, is_nan p = false) (a :: l)) as H' by by constructor.
        pose proof (Hall H') as [Hle' Hrest]%Forall_cons.
        constructor; [done|]. constructor; [|done]. by eapply float_le_trans.
    + split; [by apply list_elem_of_further|]. split; [congruence|].
      split; [intros _; by rewrite Hnan|].
      intros H. apply Forall_cons in H as [_ H]. apply Forall_cons in H as [H _].
      congruence.
    + split; [by apply list_elem_of_further|]. split; [congruence|]. split.
      * intros H. apply Exists_cons in H as [H|H]; [congruence|]. by apply Hex.
      * intros H. apply Forall_cons in H as [_ H].
        pose proof (Hall H) as [Hle' Hrest]%Forall_cons.
        constructor; [|by constructor]. by eapply float_le_trans.
Qed.

(** [points.max()] is the maximum of the samples. *)
Lemma np_max_sample_maximum (points : list float) (m : float) :
  np_max points = Ok m → sample_maximum points m.
Proof.
  destruct points as [|p points]; [done|]. intros [= <-].
  destruct (foldl_np_maximum points p) as (Hin & _ & Hex & Hall). by repeat split.
Qed.

(** ** Bounds and sentinel *)

Lemma float_mul_comm (x y : float) : (x * y)%float = (y * x)%float.
Proof.
  apply Prim2SF_inj. rewrite !FloatAxioms.mul_spec. unfold SF64mul, SFmul.
  destruct (Prim2SF x) as [sx|sx| |sx mx ex], (Prim2SF y) as [sy|sy| |sy my ey];
    rewrite ?(xorb_comm sx sy), ?(Pos.mul_comm mx my), ?(Z.add_comm ex ey);
    reflexivity.
Qed.

(** The bounds of the code are the bounds of the specification. *)
Lemma bounds_spec (function : model) (m : float) :
  bounds function m = (spec_lower function m, spec_upper function m).
Proof.
  destruct function; unfold bounds, spec_lower, spec_upper;
    by rewrite (float_mul_comm m 0.9).
Qed.

(** The samples of a pixel of a run, by image. *)
Lemma run_samples (T_train : list float) (stack : Array3 float) (i k j : nat) :
  wf3 stack → length T_train * (i + 1) ≤ depth stack →
  k < height stack → j < width stack →
  length (pixel_samples (run_slice (length T_train) stack i) k j) = length T_train ∧
  ∀ t, t < length T_train →
    pixel_samples (run_slice (length T_train) stack i) k j !! t
    = planes stack !! (length T_train * i + t) ≫= (λ image, image !! k ≫= (.!! j)).
Proof.
  intros Hwf Hi Hk Hj.
  destruct (run_slice_wf (length T_train) stack i Hwf Hi) as [Hlen Hall].
  split.
  - destruct (pixel_samples_lookup _ _ _ k j 0 Hall Hk Hj) as [-> _]. done.
  - intros t Ht.
    destruct (pixel_samples_lookup _ _ _ k j t Hall Hk Hj) as [_ ->].
    unfold run_slice. rewrite lookup_take_lt by lia. by rewrite lookup_drop.
Qed.

Section claims_on_task.
Variable curve_fit :
  model → list float → list float → list float * list float → nat →
  result (list float).

(** C7: for every pixel [(k, j)] of every run [i], the samples of the
    regression are the values of that pixel in the images of the run, and the
    one call of the solver has the bounds of the specification, computed from
    the maximum of these samples, and a budget of 1000 evaluations. *)
Theorem task_bounds (function : model) (T_train : list float)
    (stack : Array3 float) (i k j : nat) :
  wf3 stack → 0 < length T_train → length T_train * (i + 1) ≤ depth stack →
  k < height stack → j < width stack →
  ∃ points points_max,
    points = pixel_samples (run_slice (length T_train) stack i) k j ∧
    length points = length T_train ∧
    (∀ t, t < length T_train →
       points !! t
       = planes stack !! (length T_train * i + t) ≫= (λ image, image !! k ≫= (.!! j))) ∧
    np_max points = Ok points_max ∧
    sample_maximum points points_max ∧
    bounds function points_max
      = (match function with
         | T1 => [0.001; 0.9 * points_max; - (points_max / 100 + 1); 1.85]
         | T2 => [0.001; 0.9 * points_max; - (points_max / 100 + 1)]
         end,
         match function with
         | T1 => [7000; 2 * points_max + 1; points_max / 100 + 1; 2.05]
         | T2 => [4000; 2 * points_max + 1; points_max / 100 + 1]
         end)%float ∧
    task curve_fit function T_train (run_slice (length T_train) stack i) k j
    = after_fit function points_max
        (curve_fit function T_train points
           (spec_lower function points_max, spec_upper function points_max) 1000).
Proof.
  intros Hwf Htrain Hi Hk Hj.
  destruct (run_samples T_train stack i k j Hwf Hi Hk Hj) as [Hlen Hsamples].
  destruct (np_max_defined (pixel_samples (run_slice (length T_train) stack i) k j))
    as [points_max Hmax]; [lia|].
  eexists _, points_max. split; [done|]. split; [done|]. split; [done|].
  split; [done|]. split; [by apply np_max_sample_maximum|]. split.
  - rewrite bounds_spec. by destruct function.
  - rewrite (task_unfold _ _ _ _ _ _ _ Hmax), bounds_spec. done.
Qed.


End claims_on_task.

(** ** Worked examples *)

Lemma example_stack_wf : wf3 example_stack.
Proof. split; [reflexivity|]. repeat constructor. Qed.

Lemma task_bounds_witness :
  ∃ points points_max,
    points = pixel_samples (run_slice (length [1; 2]%float) example_stack 1) 0 1 ∧
    length points = length [1; 2]%float ∧
    (∀ t, t < length [1; 2]%float →
       points !! t
       = planes example_stack !! (length [1; 2]%float * 1 + t)
           ≫= (λ image, image !! 0 ≫= (.!! 1))) ∧
    np_max points = Ok points_max ∧
    sample_maximum points points_max ∧
    bounds T1 points_max
      = ([0.001; 0.9 * points_max; - (points_max / 100 + 1); 1.85],
         [7000; 2 * points_max + 1; points_max / 100 + 1; 2.05])%float ∧
    task fits_bright T1 [1; 2]%float
      (run_slice (length [1; 2]%float) example_stack 1) 0 1
    = after_fit T1 points_max
        (fits_bright T1 [1; 2]%float points
           (spec_lower T1 points_max, spec_upper T1 points_max) 1000).
Proof.
  apply (task_bounds fits_bright T1 [1; 2]%float example_stack 1 0 1).
  - apply example_stack_wf.
  - simpl. lia.
  - simpl. lia.
  - simpl. lia.
  - simpl. lia.
Defined.

(** On the example the solver of the examples does not converge in the
    first run and returns parameters in the second. *)
Lemma fits_bright_settles (function : model) :
  settles_on fits_bright function [1; 2]%float example_stack.
Proof.
  intros i k j Hi Hk Hj points_max Hmax. cbn in Hi, Hk, Hj.
  destruct i as [|[|i]], k as [|k], j as [|[|j]]; try lia;
    vm_compute in Hmax; injection Hmax as <-; by destruct function.
Qed.


(** The maps of the example with that solver, evaluated: in the first run
    no fit converges, and the maps hold 1e-6, the larger sample of each pixel
    and 0; in the second run the maps hold the lower bounds. *)
Example calculate_maps_fits_bright :
  calculate_maps fits_bright 0 [1; 2]%float T2 (mkWorld [Arr3 example_stack] [])
  = (Ok ([1; 4], [2; 5], [3; 6]),
     mkWorld
       [Arr3 example_stack;
        Arr2 (mkArray2 1 2 [[0.000001; 0.000001]]%float);
        Arr2 (mkArray2 1 2 [[3; 4]]%float);
        Arr2 (mkArray2 1 2 [[0; 0]]%float);
        Arr2 (mkArray2 1 2 [[0.001; 0.001]]%float);
        Arr2 (mkArray2 1 2 [[7 * 0.9; 8 * 0.9]]%float);
        Arr2 (mkArray2 1 2 [[- (7 / 100 + 1); - (8 / 100 + 1)]]%float)]
       []).
Proof. vm_compute. reflexivity. Qed.

(** The maps of the example, evaluated: every fit fails, the time maps hold
    1e-6, the magnetisation maps the larger sample of each pixel, and the
    offset maps 0. *)
Example calculate_maps_never_converges :
  calculate_maps never_converges 0 [1; 2]%float T1 (mkWorld [Arr3 example_stack] [])
  = (Ok ([1; 4], [2; 5], [3; 6]),
     mkWorld
       [Arr3 example_stack;
        Arr2 (mkArray2 1 2 [[0.000001; 0.000001]]%float);
        Arr2 (mkArray2 1 2 [[3; 4]]%float);
        Arr2 (mkArray2 1 2 [[0; 0]]%float);
        Arr2 (mkArray2 1 2 [[0.000001; 0.000001]]%float);
        Arr2 (mkArray2 1 2 [[7; 8]]%float);
        Arr2 (mkArray2 1 2 [[0; 0]]%float)]
       []).
Proof. reflexivity. Qed.

Lemma get_images_square_witness :
  ∃ images,
    get_images (λ _ _ _, (0, 0)%float) fst (0, 0)%float 0%float 1
      (mkArray2 2 2 [[(1, 0); (2, 0)]; [(3, 0); (4, 0)]]%float) = Ok images ∧
    depth images = 1 ∧ height images = 2 ∧ width images = 2 ∧
    ∀ k, k < 1 →
      ∃ ft,
        np_fft2 (λ _ _ _, (0, 0)%float)
          (mkArray2 2 2
             (rows (slice_rows (mkArray2 2 2 [[(1, 0); (2, 0)]; [(3, 0); (4, 0)]]%float)
                      k 2 1)))
          = Ok ft ∧
        planes images !! k
          = Some (rows (np_map fst (transpose (flip (fftshift ft))))).
Proof.
  apply (get_images_square (λ _ _ _, (0, 0)%float) fst (0, 0)%float 0%float 1 2
           (mkArray2 2 2 [[(1, 0); (2, 0)]; [(3, 0); (4, 0)]]%float)).
  - lia.
  - reflexivity.
  - lia.
  - reflexivity.
Defined.

Lemma stages_keep_their_arguments_witness :
  heap (calculate_maps never_converges 0 [1; 2]%float T1
          (mkWorld [Arr3 example_stack] [])).2 !! 0
    = Some (Arr3 example_stack) ∧
  heap (theoret_MRI exp_stub beyond_stub T2 [0%Z] [0] [1] [2]
          (mkWorld [Arr2 (mkArray2 1 1 [[1%float]]); Arr2 (mkArray2 1 1 [[1%float]]);
                    Arr2 (mkArray2 1 1 [[0%float]])] [])).2 !! 1
    = Some (Arr2 (mkArray2 1 1 [[1%float]])).
Proof.
  split.
  - apply (proj2 (proj1 (stages_keep_their_arguments exp_stub beyond_stub never_converges)
                    0 [1; 2]%float T1 (mkWorld [Arr3 example_stack] [])
                    (Arr3 example_stack))).
    reflexivity.
  - apply (proj2 (proj2 (stages_keep_their_arguments exp_stub beyond_stub never_converges)
                    T2 [0%Z] [0] [1] [2]
                    (mkWorld [Arr2 (mkArray2 1 1 [[1%float]]);
                              Arr2 (mkArray2 1 1 [[1%float]]);
                              Arr2 (mkArray2 1 1 [[0%float]])] [])
                    1 (Arr2 (mkArray2 1 1 [[1%float]])))).
    + simpl. apply list_elem_of_further, list_elem_of_here.
    + reflexivity.
Defined.

(** One echo row and two images, through the whole of [get_images]: the
    division returns, the first transform raises. *)
Example get_images_one_row_two_images :
  get_images (λ _ _ _, (0, 0)%float) fst (0, 0)%float 0%float 2
    (mkArray2 1 3 [[(1, 0); (2, 0); (3, 0)]]%float) = Raise ValueError.
Proof. reflexivity. Qed.

(** ** Echoes that give no image *)

Section unless_square.
Variable dft2 : list (list complex) → nat → nat → complex.
Variable cabs : complex → float.
Variables (junk_c : complex) (junk_f : float).

(** A stack of k-spaces without rows or without columns: the first
    transform is refused. *)
Lemma get_images_empty_kspaces (n : nat) (kspaces : Array3 complex)
    (p : list (list complex)) :
  0 < n → planes kspaces !! 0 = Some p → height kspaces = 0 ∨ width kspaces = 0 →
  for_each
    (λ images kspace_no,
       kspace ← getitem3 kspaces kspace_no;
       image ← reconstruct dft2 cabs kspace;
       setitem3 images kspace_no image)
    (np_empty3 junk_f (depth kspaces) (height kspaces) (width kspaces)) (seq 0 n)
  = Raise ValueError.
Proof.
  intros Hn Hp Hempty. apply for_each_first_raises; [done|].
  unfold getitem3. rewrite Hp. simpl. unfold reconstruct, np_fft2. simpl.
  by rewrite decide_True.
Qed.

(** [get_images] returns images only for k-spaces that are square and not
    empty: for no image at all the division of line 44 raises
    [ZeroDivisionError]; in every other case, be it a row count that is no
    multiple of the number of images, k-spaces without rows or columns, or
    k-spaces that are not square, the call raises [ValueError]. *)
Theorem get_images_raises_unless_square (number_of_images : nat)
    (echoes : Array2 complex) :
  ¬ (0 < number_of_images ∧ 0 < ncols echoes ∧
     nrows echoes = number_of_images * ncols echoes) →
  get_images dft2 cabs junk_c junk_f number_of_images echoes
  = Raise (if decide (number_of_images = 0) then ZeroDivisionError else ValueError).
Proof.
  intros Hnot. set (n := number_of_images) in *.
  case_decide as Hn.
  { unfold get_images, get_kspaces, int_div. by rewrite decide_True. }
  destruct (decide (nrows echoes < n)) as [Hshort|Hlong].
  { unfold get_images. rewrite get_kspaces_short by done. simpl.
    apply for_each_first_raises; [lia|].
    unfold getitem3. simpl. rewrite lookup_replicate_2 by lia. done. }
  destruct (decide (nrows echoes `mod` n = 0)) as [Hmod|Hmod].
  2:{ unfold get_images. rewrite get_kspaces_remainder by lia. done. }
  set (m := nrows echoes / n).
  assert (nrows echoes = n * m) as Hrows.
  { unfold m. rewrite (Nat.div_mod (nrows echoes) n) at 1 by lia. lia. }
  assert (0 < m) as Hm by (unfold m; apply Nat.div_str_pos; lia).
  destruct (get_kspaces_exact junk_c echoes n m) as
    (kspaces & Hrun & Hd & Hh & Hw & Hlen & Hplanes); [lia|done|].
  unfold get_images. rewrite Hrun. simpl.
  destruct (decide (ncols echoes = 0)) as [Hcols|Hcols].
  { eapply get_images_empty_kspaces; [lia|apply Hplanes; lia|right; lia]. }
  apply for_each_first_raises; [lia|].
  unfold getitem3. rewrite Hplanes by lia. simpl.
  set (kspace := mkArray2 _ _ _).
  destruct (reconstruct_steps dft2 cabs kspace) as (ft & _ & -> & Hir & Hic).
  { simpl. lia. } { simpl. lia. }
  simpl. apply setitem3_transposed.
  - simpl. lia.
  - exact Hir.
  - exact Hic.
  - simpl. intros Heq. apply Hnot. split; [lia|]. split; [lia|]. nia.
Qed.

End unless_square.

Lemma get_images_raises_unless_square_witness :
  get_images dft_stub fst (0, 0)%float 0%float 0
    (mkArray2 2 2 [[(1, 0); (2, 0)]; [(3, 0); (4, 0)]]%float)
  = Raise (if decide (0 = 0) then ZeroDivisionError else ValueError).
Proof.
  apply (get_images_raises_unless_square dft_stub fst (0, 0)%float 0%float 0
           (mkArray2 2 2 [[(1, 0); (2, 0)]; [(3, 0); (4, 0)]]%float)).
  simpl. lia.
Defined.

(** ** The geometry of an image *)

Lemma rotate_nat_add_mod (base offset len : nat) :
  rotate_nat_add base offset len = (base + offset) `mod` len.
Proof.
  unfold rotate_nat_add. by rewrite <-Nat2Z.inj_add, <-Nat2Z.inj_mod, Nat2Z.id.
Qed.

(** Element [i] of a rolled list comes from [s] places before it, around
    the end. *)
Lemma np_roll_lookup {A} (s i : nat) (l : list A) :
  i < length l → s < length l →
  np_roll s l !! i = l !! ((length l - s + i) `mod` length l).
Proof.
  intros Hi Hs. unfold np_roll. rewrite lookup_rotate_r by done.
  by rewrite rotate_nat_add_mod, (Nat.mod_small s) by done.
Qed.

Lemma length_np_roll {A} (s : nat) (l : list A) : length (np_roll s l) = length l.
Proof. unfold np_roll. apply length_rotate. Qed.

Section geometry_facts.
Context {A : Type}.
Implicit Types (a : Array2 A).

Lemma entry_fftshift a (r c : nat) :
  wf2 a → r < nrows a → c < ncols a →
  entry (fftshift a) r c
  = entry a ((nrows a - nrows a / 2 + r) `mod` nrows a)
            ((ncols a - ncols a / 2 + c) `mod` ncols a).
Proof.
  intros [Hlen Hall] Hr Hc. unfold entry, fftshift. cbn [rows].
  assert (nrows a / 2 < nrows a) as Hh by (apply Nat.Div0.div_lt_upper_bound; lia).
  assert (ncols a / 2 < ncols a) as Hw by (apply Nat.Div0.div_lt_upper_bound; lia).
  rewrite np_roll_lookup by (rewrite length_fmap, Hlen; done).
  rewrite length_fmap, Hlen, list_lookup_fmap.
  set (r' := (nrows a - nrows a / 2 + r) `mod` nrows a).
  destruct (lookup_lt_is_Some_2 (rows a) r') as [row Hrow].
  { rewrite Hlen. apply Nat.mod_upper_bound. lia. }
  rewrite Hrow. cbn [fmap option_fmap option_map mbind option_bind].
  eapply Forall_lookup_1 in Hall; [|exact Hrow]. cbn beta in Hall.
  rewrite np_roll_lookup by (rewrite Hall; done). by rewrite Hall.
Qed.

Lemma fftshift_wf a : wf2 a → wf2 (fftshift a).
Proof.
  intros [Hlen Hall]. split; simpl.
  - by rewrite length_np_roll, length_fmap.
  - unfold np_roll at 1. apply Forall_forall. intros row Hrow.
    apply elem_of_rotate, list_elem_of_fmap in Hrow as (row' & -> & Hrow').
    rewrite length_np_roll. by eapply Forall_forall in Hall.
Qed.

Lemma entry_flip a (r c : nat) :
  wf2 a → r < nrows a → c < ncols a →
  entry (flip a) r c = entry a (nrows a - 1 - r) (ncols a - 1 - c).
Proof.
  intros [Hlen Hall] Hr Hc. unfold entry, flip. simpl.
  rewrite reverse_lookup by (rewrite length_fmap; lia).
  rewrite length_fmap, Hlen, list_lookup_fmap.
  replace (nrows a - S r) with (nrows a - 1 - r) by lia.
  destruct (lookup_lt_is_Some_2 (rows a) (nrows a - 1 - r)) as [row Hrow]; [lia|].
  rewrite Hrow. simpl.
  eapply Forall_lookup_1 in Hall; [|exact Hrow]. simpl in Hall.
  rewrite reverse_lookup by lia. rewrite Hall. f_equal. lia.
Qed.

Lemma flip_wf a : wf2 a → wf2 (flip a).
Proof.
  intros [Hlen Hall]. split; simpl.
  - by rewrite length_reverse, length_fmap.
  - apply Forall_reverse, Forall_fmap. eapply Forall_impl; [exact Hall|].
    intros row Hrow. simpl. by rewrite length_reverse.
Qed.

Lemma entry_transpose a (r c : nat) :
  wf2 a → r < ncols a → entry (transpose a) r c = entry a c r.
Proof. intros [_ Hall] Hr. unfold entry, transpose. simpl. by apply columns_lookup. Qed.


End geometry_facts.

Section pixel_geometry.
Variable dft2 : list (list complex) → nat → nat → complex.
Variable cabs : complex → float.

Lemma np_fft2_entries (kspace : Array2 complex) :
  0 < nrows kspace → 0 < ncols kspace →
  ∃ ft, np_fft2 dft2 kspace = Ok ft ∧ wf2 ft ∧
        nrows ft = nrows kspace ∧ ncols ft = ncols kspace ∧
        ∀ u v, u < nrows kspace → v < ncols kspace →
          entry ft u v = Some (dft2 (rows kspace) u v).
Proof.
  intros Hh Hw. unfold np_fft2. rewrite decide_False by lia.
  eexists. split; [done|]. split; [|split; [done|split; [done|]]].
  - split; simpl; [by rewrite length_fmap, length_seq|].
    apply Forall_fmap, Forall_forall. intros u _. simpl.
    by rewrite length_fmap, length_seq.
  - intros u v Hu Hv. unfold entry. simpl.
    rewrite list_lookup_fmap, lookup_seq_lt by done. simpl.
    by rewrite list_lookup_fmap, lookup_seq_lt by done.
Qed.

(** Lines 55 to 58, pixel by pixel: for a k-space of [h] rows and [w]
    columns, pixel [(i, j)] of the image is the magnitude of the Fourier
    coefficient [((h - h/2 + (h - 1 - j)) mod h, (w - w/2 + (w - 1 - i)) mod w)];
    the coefficient of frequency zero is shown at pixel
    [((w - 1)/2, (h - 1)/2)]. *)
Theorem reconstruct_pixel (kspace : Array2 complex) :
  0 < nrows kspace → 0 < ncols kspace →
  ∃ image,
    reconstruct dft2 cabs kspace = Ok image ∧
    nrows image = ncols kspace ∧ ncols image = nrows kspace ∧
    (∀ i j, i < ncols kspace → j < nrows kspace →
       pixel image i j
       = Some (cabs (dft2 (rows kspace)
                 ((nrows kspace - nrows kspace / 2 + (nrows kspace - 1 - j))
                    `mod` nrows kspace)
                 ((ncols kspace - ncols kspace / 2 + (ncols kspace - 1 - i))
                    `mod` ncols kspace)))) ∧
    pixel image ((ncols kspace - 1) / 2) ((nrows kspace - 1) / 2)
    = Some (cabs (dft2 (rows kspace) 0 0)).
Proof.
  intros Hh Hw.
  destruct (np_fft2_entries kspace Hh Hw) as (ft & Hft & Hwf & Hr & Hc & Hentries).
  unfold reconstruct. rewrite Hft. cbn [mbind result_bind].
  eexists. split; [done|]. split; [done|]. split; [done|].
  assert (∀ i j, i < ncols kspace → j < nrows kspace →
    pixel (np_map cabs (transpose (flip (fftshift ft)))) i j
    = Some (cabs (dft2 (rows kspace)
              ((nrows kspace - nrows kspace / 2 + (nrows kspace - 1 - j))
                 `mod` nrows kspace)
              ((ncols kspace - ncols kspace / 2 + (ncols kspace - 1 - i))
                 `mod` ncols kspace)))) as Hpixel.
  { intros i j Hi Hj.
    pose proof (fftshift_wf ft Hwf) as Hwf1.
    pose proof (flip_wf _ Hwf1) as Hwf2.
    assert (entry (transpose (flip (fftshift ft))) i j
            = Some (dft2 (rows kspace)
                ((nrows kspace - nrows kspace / 2 + (nrows kspace - 1 - j))
                   `mod` nrows kspace)
                ((ncols kspace - ncols kspace / 2 + (ncols kspace - 1 - i))
                   `mod` ncols kspace))) as Hentry.
    { rewrite entry_transpose by (simpl; done || lia).
      rewrite entry_flip by (simpl; done || lia). simpl.
      rewrite entry_fftshift by (done || lia).
      rewrite Hr, Hc. apply Hentries; apply Nat.mod_upper_bound; lia. }
    unfold entry in Hentry. unfold pixel, np_map. simpl in *.
    rewrite list_lookup_fmap.
    destruct (columns _ _ !! i) as [col|]; [|done]. simpl in *.
    by rewrite list_lookup_fmap, Hentry. }
  split; [exact Hpixel|].
  assert (∀ n, 0 < n → (n - 1) / 2 < n ∧ n - n / 2 + (n - 1 - (n - 1) / 2) = 1 * n)
    as Hcentre.
  { intros n Hn.
    pose proof (Nat.div_mod_eq n 2). pose proof (Nat.div_mod_eq (n - 1) 2).
    pose proof (Nat.mod_upper_bound n 2). pose proof (Nat.mod_upper_bound (n - 1) 2).
    lia. }
  destruct (Hcentre (nrows kspace) Hh) as [Hj Hu].
  destruct (Hcentre (ncols kspace) Hw) as [Hi Hv].
  rewrite Hpixel by done. by rewrite Hu, Hv, !Nat.Div0.mod_mul.
Qed.

End pixel_geometry.

Lemma reconstruct_pixel_witness :
  ∃ image,
    reconstruct dft_stub fst (mkArray2 2 1 [[(1, 0)]; [(2, 0)]]%float) = Ok image ∧
    nrows image = 1 ∧ ncols image = 2 ∧
    (∀ i j, i < 1 → j < 2 →
       pixel image i j
       = Some (fst (dft_stub [[(1, 0)]; [(2, 0)]]%float
                 ((2 - 2 / 2 + (2 - 1 - j)) `mod` 2)
                 ((1 - 1 / 2 + (1 - 1 - i)) `mod` 1)))) ∧
    pixel image ((1 - 1) / 2) ((2 - 1) / 2)
    = Some (fst (dft_stub [[(1, 0)]; [(2, 0)]]%float 0 0)).
Proof.
  apply (reconstruct_pixel dft_stub fst (mkArray2 2 1 [[(1, 0)]; [(2, 0)]]%float));
    simpl; lia.
Defined.

(** The image of that k-space, evaluated: the coefficient of frequency
    zero, which is 1 here, is at pixel (0, 0). *)
Example reconstruct_two_rows :
  reconstruct dft_stub fst (mkArray2 2 1 [[(1, 0)]; [(2, 0)]]%float)
  = Ok (mkArray2 1 2 [[1; 2]]%float).
Proof. reflexivity. Qed.

(** ** Reordering back, and runs after reordering *)

Section transposition.
Context {A : Type}.
Implicit Types (rs : list (list A)).

(** Two lists of lists with the same entries are equal. *)
Lemma nested_list_eq rs rs' :
  length rs = length rs' →
  (∀ i j, rs !! i ≫= (.!! j) = rs' !! i ≫= (.!! j)) → rs = rs'.
Proof.
  intros Hlen Hentries. apply list_eq. intros i.
  destruct (rs !! i) as [r|] eqn:Hr, (rs' !! i) as [r'|] eqn:Hr'.
  - f_equal. apply list_eq. intros j. specialize (Hentries i j).
    by rewrite Hr, Hr' in Hentries.
  - apply lookup_lt_Some in Hr. apply lookup_ge_None_1 in Hr'. lia.
  - apply lookup_ge_None_1 in Hr. apply lookup_lt_Some in Hr'. lia.
  - done.
Qed.

Lemma columns_lookup_all (w i j : nat) rs :
  Forall (λ r, length r = w) rs →
  columns w rs !! j ≫= (.!! i) = rs !! i ≫= (.!! j).
Proof.
  intros Hall. destruct (decide (j < w)) as [Hj|Hj]; [by apply columns_lookup|].
  rewrite (lookup_ge_None_2 (columns w rs)) by (rewrite length_columns by done; lia).
  destruct (rs !! i) as [r|] eqn:Hr; [|done]. simpl.
  eapply Forall_lookup_1 in Hall; [|exact Hr]. simpl in Hall.
  symmetry. apply lookup_ge_None_2. lia.
Qed.

(** Exchanging rows and columns twice gives the rows back. *)
Lemma columns_columns (w : nat) rs :
  Forall (λ r, length r = w) rs → columns (length rs) (columns w rs) = rs.
Proof.
  intros Hall. apply nested_list_eq.
  - apply length_columns, Forall_length_columns.
  - intros i j. rewrite columns_lookup_all by apply Forall_length_columns.
    by apply columns_lookup_all.
Qed.

Lemma join_replicate_nil (n : nat) : mjoin (replicate n (@nil A)) = [].
Proof. induction n as [|n IH]; [done|]. exact IH. Qed.

Lemma join_zip_with_cons (r : list A) (cs : list (list A)) :
  length r = length cs → mjoin (zip_with cons r cs) ≡ₚ r ++ mjoin cs.
Proof.
  revert cs. induction r as [|x r IH]; intros [|c cs] Hlen; try done.
  simpl in *. rewrite IH by lia. constructor.
  rewrite !app_assoc. apply Permutation_app_tail, Permutation_app_comm.
Qed.

(** The columns hold the elements of the rows. *)
Lemma join_columns (w : nat) rs :
  Forall (λ r, length r = w) rs → mjoin (columns w rs) ≡ₚ mjoin rs.
Proof.
  induction 1 as [|r rs Hr Hall IH]; simpl.
  - by rewrite join_replicate_nil.
  - rewrite join_zip_with_cons by (rewrite length_columns by done; done).
    by rewrite IH.
Qed.

End transposition.

Section reorder_again.
Context {A : Type}.

(** The images in groups of [S], one group per inversion time, and the
    groups read column by column. *)
Lemma reorder_forT1IR_planes (images : Array3 A) (nI S : nat) :
  wf3 images → 0 < nI → depth images = nI * S →
  reorder_forT1IR images nI (depth images)
  = Ok (mkArray3 (depth images) (height images) (width images)
          (mjoin (columns S (chunks nI S (planes images))))) ∧
  wf3 (mkArray3 (depth images) (height images) (width images)
         (mjoin (columns S (chunks nI S (planes images))))).
Proof.
  intros [Hlen Hall] HnI Hd. unfold reorder_forT1IR.
  assert (int_div (depth images) nI = Ok S) as ->
    by (rewrite Hd; by apply int_div_exact).
  simpl. rewrite decide_True by (by rewrite Hd).
  rewrite Hd in Hlen.
  rewrite unravel4_ravel3 by done.
  set (G := chunks nI S (planes images)).
  assert (Forall (λ g, length g = S) G) as Hsizes by by apply Forall_length_chunks.
  assert (length G = nI) as HG by apply length_chunks.
  assert (Forall (λ c, length c = nI) (columns S G)) as Hcols
    by (rewrite <-HG; apply Forall_length_columns).
  assert (length (mjoin (columns S G)) = depth images) as Hlen'.
  { rewrite (length_join_uniform nI), length_columns by done. lia. }
  assert (Forall (rows_wf (height images) (width images)) (mjoin (columns S G)))
    as Hall'.
  { apply Forall_join, Forall_columns. by apply Forall_reshape. }
  rewrite unravel3_ravel3 by done. done.
Qed.

(** Reordering by the number of inversion times and then by the number of
    slices gives the stack back. *)
Theorem reorder_forT1IR_round_trip (images : Array3 A) (nI S : nat) :
  wf3 images → 0 < nI → 0 < S → depth images = nI * S →
  (images' ← reorder_forT1IR images nI (depth images);
   reorder_forT1IR images' S (depth images')) = Ok images.
Proof.
  intros Hwf HnI HS Hd.
  destruct (reorder_forT1IR_planes images nI S Hwf HnI Hd) as [-> Hwf'].
  cbn [mbind result_bind].
  set (images' := mkArray3 _ _ _ _) in *.
  destruct (reorder_forT1IR_planes images' S nI Hwf' HS) as [-> _].
  { simpl. lia. }
  destruct Hwf as [Hlen Hall]. rewrite Hd in Hlen.
  unfold images'. cbn [planes depth height width].
  set (G := chunks nI S (planes images)).
  assert (Forall (λ g, length g = S) G) as Hsizes by by apply Forall_length_chunks.
  assert (length G = nI) as HG by apply length_chunks.
  rewrite chunks_join.
  - rewrite <-HG at 1. rewrite columns_columns by done.
    unfold G. rewrite join_chunks by done. by destruct images.
  - by apply length_columns.
  - rewrite <-HG. apply Forall_length_columns.
Qed.

(** The reordered stack holds the images of the stack given, each as often
    as before. *)
Theorem reorder_forT1IR_permutes (images : Array3 A) (nI S : nat) :
  wf3 images → 0 < nI → depth images = nI * S →
  ∃ images',
    reorder_forT1IR images nI (depth images) = Ok images' ∧
    planes images' ≡ₚ planes images.
Proof.
  intros Hwf HnI Hd.
  destruct (reorder_forT1IR_planes images nI S Hwf HnI Hd) as [-> _].
  eexists. split; [done|]. cbn [planes].
  destruct Hwf as [Hlen _]. rewrite Hd in Hlen.
  rewrite join_columns by by apply Forall_length_chunks.
  by rewrite join_chunks.
Qed.

(** Called with the image count of a stack of images that are not empty,
    the function returns only when the number of inversion times divides the
    count. *)
Theorem reorder_forT1IR_indivisible (images : Array3 A) (nI : nat) :
  0 < height images → 0 < width images →
  ¬ (0 < nI ∧ depth images `mod` nI = 0) →
  reorder_forT1IR images nI (depth images)
  = Raise (if decide (nI = 0) then ZeroDivisionError else ValueError).
Proof.
  intros Hh Hw Hnot. unfold reorder_forT1IR, int_div.
  case_decide as HnI; [done|]. cbn [mbind result_bind].
  rewrite decide_False; [done|].
  pose proof (Nat.div_mod_eq (depth images) nI) as Hdiv.
  intros Heq. apply Hnot. split; [lia|].
  apply Nat.mul_cancel_r in Heq; [|lia]. apply Nat.mul_cancel_r in Heq; [|lia]. lia.
Qed.

End reorder_again.

Lemma reorder_forT1IR_round_trip_witness :
  (images' ← reorder_forT1IR six_images 2 (depth six_images);
   reorder_forT1IR images' 3 (depth images')) = Ok six_images.
Proof.
  apply (reorder_forT1IR_round_trip six_images 2 3).
  - split; [reflexivity|]. repeat constructor.
  - lia.
  - lia.
  - reflexivity.
Defined.

Lemma reorder_forT1IR_permutes_witness :
  ∃ images',
    reorder_forT1IR six_images 2 (depth six_images) = Ok images' ∧
    planes images' ≡ₚ planes six_images.
Proof.
  apply (reorder_forT1IR_permutes six_images 2 3).
  - split; [reflexivity|]. repeat constructor.
  - lia.
  - reflexivity.
Defined.

Lemma reorder_forT1IR_indivisible_witness :
  reorder_forT1IR six_images 4 (depth six_images)
  = Raise (if decide (4 = 0) then ZeroDivisionError else ValueError).
Proof.
  apply (reorder_forT1IR_indivisible six_images 4); simpl; lia.
Defined.


(** After the reordering, run [s] of the fit is made of the images of slice
    [s], one per inversion time, in the order of the inversion times. *)
Theorem reorder_forT1IR_runs (images : Array3 float) (nI S : nat) :
  wf3 images → 0 < nI → depth images = nI * S →
  ∃ images',
    reorder_forT1IR images nI (depth images) = Ok images' ∧
    ∀ s t, s < S → t < nI →
      run_slice nI images' s !! t = planes images !! (t * S + s) ∧
      is_Some (planes images !! (t * S + s)).
Proof.
  intros Hwf HnI Hd.
  destruct (reorder_forT1IR_planes images nI S Hwf HnI Hd) as [-> _].
  eexists. split; [done|]. intros s t Hs Ht.
  destruct Hwf as [Hlen Hall]. rewrite Hd in Hlen.
  destruct (lookup_lt_is_Some_2 (planes images) (t * S + s)) as [image Himage];
    [nia|].
  split; [|by eexists]. rewrite Himage.
  unfold run_slice. cbn [planes].
  rewrite lookup_take_lt by lia. rewrite lookup_drop.
  set (G := chunks nI S (planes images)).
  assert (Forall (λ g, length g = S) G) as Hsizes by by apply Forall_length_chunks.
  assert (length G = nI) as HG by apply length_chunks.
  replace (nI * s + t) with (s * nI + t) by lia.
  rewrite (join_lookup_uniform nI) by (done || (rewrite <-HG; apply Forall_length_columns)).
  rewrite columns_lookup by done.
  unfold G. by rewrite chunks_lookup.
Qed.

Lemma reorder_forT1IR_runs_witness :
  ∃ images',
    reorder_forT1IR six_images 2 (depth six_images) = Ok images' ∧
    ∀ s t, s < 3 → t < 2 →
      run_slice 2 images' s !! t = planes six_images !! (t * 3 + s) ∧
      is_Some (planes six_images !! (t * 3 + s)).
Proof.
  apply (reorder_forT1IR_runs six_images 2 3).
  - split; [reflexivity|]. repeat constructor.
  - lia.
  - reflexivity.
Defined.

(** The six images in two groups of three, reordered: three runs of two. *)
Example reorder_six_images :
  reorder_forT1IR six_images 2 6
  = Ok (mkArray3 6 1 1 [[[1]]; [[4]]; [[2]]; [[5]]; [[3]]; [[6]]]%float).
Proof. reflexivity. Qed.

(** ** The signal equations, pixel by pixel *)

(** A magnitude is not below zero. *)
Lemma abs_not_negative (p : float) : (PrimFloat.abs p <? 0)%float = false.
Proof.
  rewrite FloatAxioms.ltb_spec, FloatAxioms.abs_spec.
  by destruct (Prim2SF p) as [s|s| |s m e].
Qed.

Lemma pixel_np_map (f : float → float) (a : Array2 float) (k j : nat) :
  pixel (np_map f a) k j = f <$> pixel a k j.
Proof.
  unfold pixel, np_map. simpl. rewrite list_lookup_fmap.
  destruct (rows a !! k) as [row|]; [|done]. simpl. by rewrite list_lookup_fmap.
Qed.

Lemma pixel_zip_with (op : float → float → float) (h w : nat)
    (ra rb : list (list float)) (k j : nat) (x y : float) :
  ra !! k ≫= (.!! j) = Some x → rb !! k ≫= (.!! j) = Some y →
  pixel (mkArray2 h w (zip_with (zip_with op) ra rb)) k j = Some (op x y).
Proof.
  unfold pixel. simpl. intros Hx Hy.
  destruct (ra !! k) as [rowa|] eqn:Ha; [|done].
  destruct (rb !! k) as [rowb|] eqn:Hb; [|done]. simpl in *.
  rewrite (proj2 (lookup_zip_with_Some (zip_with op) ra rb k (zip_with op rowa rowb)));
    [|by exists rowa, rowb].
  simpl. apply lookup_zip_with_Some. by exists x, y.
Qed.

Section equations.
Variable np_exp : float → float.
Variable exp_beyond_int64 : Z → Array2 float → result (Array2 float).

(** On maps of one shape and at a time that NumPy holds as an [int64],
    pixel [(k, j)] of [T2_function] is [Mo * exp(-x / T2) + C] at that pixel,
    where [-x] is the negation of an [int64]. *)
Theorem T2_function_pixel (x : Z) (T2m Mo C : Array2 float) (k j : nat)
    (t m c : float) :
  int64 x →
  nrows Mo = nrows T2m → ncols Mo = ncols T2m →
  nrows C = nrows T2m → ncols C = ncols T2m →
  pixel T2m k j = Some t → pixel Mo k j = Some m → pixel C k j = Some c →
  ∃ y,
    T2_function np_exp exp_beyond_int64 x T2m Mo C = Ok y ∧
    nrows y = nrows T2m ∧ ncols y = ncols T2m ∧
    pixel y k j = Some (m * np_exp (float_of_Z (int64_neg x) / t) + c)%float.
Proof.
  intros Hx Hr1 Hc1 Hr2 Hc2 Ht Hm Hc. rewrite T2_function_int64 by done.
  rewrite np_binop_same by done. cbn [mbind result_bind].
  rewrite np_binop_same by (simpl; lia).
  eexists. split; [done|]. cbn [nrows ncols rows]. split; [done|]. split; [done|].
  apply pixel_zip_with; [|exact Hc].
  apply (pixel_zip_with PrimFloat.mul 0 0); [exact Hm|].
  fold (pixel (np_map (λ t, np_exp (float_of_Z (int64_neg x) / t))%float T2m) k j).
  by rewrite pixel_np_map, Ht.
Qed.

(** On maps of one shape and at a time that NumPy holds as an [int64],
    pixel [(k, j)] of [T1_function] is [abs(Mo * (1 - a * exp(-x / T1)) + C)]
    at that pixel, where [-x] is the negation of an [int64]. *)
Theorem T1_function_pixel (x : Z) (T1m Mo C : Array2 float) (a : float)
    (k j : nat) (t m c : float) :
  int64 x →
  nrows Mo = nrows T1m → ncols Mo = ncols T1m →
  nrows C = nrows T1m → ncols C = ncols T1m →
  pixel T1m k j = Some t → pixel Mo k j = Some m → pixel C k j = Some c →
  ∃ y,
    T1_function np_exp exp_beyond_int64 x T1m Mo C a = Ok y ∧
    nrows y = nrows T1m ∧ ncols y = ncols T1m ∧
    pixel y k j
    = Some (PrimFloat.abs
              (m * (1 - a * np_exp (float_of_Z (int64_neg x) / t)) + c))%float.
Proof.
  intros Hx Hr1 Hc1 Hr2 Hc2 Ht Hm Hc. rewrite T1_function_int64 by done.
  rewrite np_binop_same by done. cbn [mbind result_bind].
  rewrite np_binop_same by (simpl; lia). cbn [mbind result_bind].
  eexists. split; [done|]. split; [done|]. split; [done|].
  rewrite pixel_np_map.
  erewrite pixel_zip_with; [done| |exact Hc].
  apply (pixel_zip_with PrimFloat.mul 0 0); [exact Hm|].
  fold (pixel (np_map (λ t, 1 - a * np_exp (float_of_Z (int64_neg x) / t))%float T1m)
          k j).
  by rewrite pixel_np_map, Ht.
Qed.

(** Whatever the time, the maps and the library, no pixel of
    [T1_function] is below zero. *)
Theorem T1_function_not_negative (x : Z) (T1m Mo C : Array2 float) (a : float)
    (y : Array2 float) (k j : nat) (p : float) :
  T1_function np_exp exp_beyond_int64 x T1m Mo C a = Ok y → pixel y k j = Some p →
  (p <? 0)%float = false.
Proof.
  unfold T1_function. intros Hy Hp.
  destruct (decay np_exp exp_beyond_int64 x T1m) as [e|]; [|done].
  cbn [mbind result_bind] in Hy.
  destruct (np_binop PrimFloat.mul Mo _) as [m|]; [|done]. cbn [mbind result_bind] in Hy.
  destruct (np_binop PrimFloat.add m C) as [y'|]; [|done]. cbn [mbind result_bind] in Hy.
  injection Hy as <-. rewrite pixel_np_map in Hp.
  destruct (pixel y' k j) as [q|]; [|done]. injection Hp as <-.
  apply abs_not_negative.
Qed.

End equations.

Lemma T2_function_pixel_witness :
  ∃ y,
    T2_function exp_stub beyond_stub 250 (mkArray2 1 1 [[1%float]])
      (mkArray2 1 1 [[3%float]]) (mkArray2 1 1 [[2%float]]) = Ok y ∧
    nrows y = 1 ∧ ncols y = 1 ∧
    pixel y 0 0 = Some (3 * exp_stub (float_of_Z (int64_neg 250) / 1) + 2)%float.
Proof.
  apply (T2_function_pixel exp_stub beyond_stub 250 (mkArray2 1 1 [[1%float]])
           (mkArray2 1 1 [[3%float]]) (mkArray2 1 1 [[2%float]]) 0 0 1 3 2);
    [unfold int64; lia|reflexivity..].
Defined.

Lemma T1_function_pixel_witness :
  ∃ y,
    T1_function exp_stub beyond_stub 250 (mkArray2 1 1 [[1%float]])
      (mkArray2 1 1 [[3%float]]) (mkArray2 1 1 [[2%float]]) 2 = Ok y ∧
    nrows y = 1 ∧ ncols y = 1 ∧
    pixel y 0 0
    = Some (PrimFloat.abs
              (3 * (1 - 2 * exp_stub (float_of_Z (int64_neg 250) / 1)) + 2))%float.
Proof.
  apply (T1_function_pixel exp_stub beyond_stub 250 (mkArray2 1 1 [[1%float]])
           (mkArray2 1 1 [[3%float]]) (mkArray2 1 1 [[2%float]]) 2 0 0 1 3 2);
    [unfold int64; lia|reflexivity..].
Defined.

(** The requested times of the examples as NumPy negates them: an [int64]
    changes its sign, the least [int64] does not. *)
Example int64_neg_evaluated :
  float_of_Z (int64_neg 250) = (-250)%float ∧
  float_of_Z (int64_neg (- 2 ^ 63)) = (-9223372036854775808)%float.
Proof. split; reflexivity. Qed.

Lemma T1_function_not_negative_witness :
  T1_function exp_stub beyond_stub 0 (mkArray2 1 1 [[1%float]]) (mkArray2 1 1 [[3%float]])
    (mkArray2 1 1 [[2%float]]) 2 = Ok (mkArray2 1 1 [[1%float]]) ∧
  (1 <? 0)%float = false.
Proof.
  split; [reflexivity|].
  apply (T1_function_not_negative exp_stub beyond_stub 0 (mkArray2 1 1 [[1%float]])
           (mkArray2 1 1 [[3%float]]) (mkArray2 1 1 [[2%float]]) 2
           (mkArray2 1 1 [[1%float]]) 0 0 1); reflexivity.
Defined.

(** ** What escapes the fit *)

Section propagation.
Variable curve_fit :
  model → list float → list float → list float * list float → nat →
  result (list float).

(** Whatever the solver does and whatever it is given, the computation of
    the maps does not raise [RuntimeError]: at every pixel that exception
    of the solver is caught. *)
Theorem calculate_maps_never_RuntimeError (images : ref) (T_train : list float)
    (function : model) (w : world) :
  (calculate_maps curve_fit images T_train function w).1 ≠ Raise RuntimeError.
Proof. intros Hraise. by apply calculate_maps_raise in Hraise. Qed.

(** An exception of the solver other than [RuntimeError], at any pixel of
    any run, ends the computation: no maps are returned. *)
Theorem calculate_maps_propagates (images : ref) (T_train : list float)
    (function : model) (w : world) (stack : Array3 float) (i k j : nat)
    (points_max : float) (e : exn) :
  heap w !! images = Some (Arr3 stack) → 0 < length T_train →
  i < depth stack / length T_train → k < height stack → j < width stack →
  np_max (pixel_samples (run_slice (length T_train) stack i) k j) = Ok points_max →
  curve_fit function T_train
    (pixel_samples (run_slice (length T_train) stack i) k j)
    (bounds function points_max) 1000 = Raise e →
  e ≠ RuntimeError →
  ∃ e' w',
    calculate_maps curve_fit images T_train function w = (Raise e', w') ∧
    e' ≠ RuntimeError.
Proof.
  intros Himages Htrain Hi Hk Hj Hmax Hfit He.
  assert (task curve_fit function T_train (run_slice (length T_train) stack i) k j
          = Raise e) as Htask.
  { rewrite (task_unfold _ _ _ _ _ _ _ Hmax), Hfit. by destruct e. }
  destruct (for_each_M_raises_at (fit_run curve_fit function T_train stack)
              (seq 0 (depth stack / length T_train)) ([], [], []) w i)
    as (e' & w' & Hrun).
  { apply elem_of_seq. lia. }
  { intros [[T_maps Momaps] Cmaps] w1. unfold fit_run, lift. rewrite !M_bind_run.
    fold (run_slice (length T_train) stack i).
    destruct (for_each_raises_at
                (fit_row curve_fit function T_train
                   (run_slice (length T_train) stack i) (width stack))
                (seq 0 (height stack)) ([], [], []) k) as [e1 ->].
    - apply elem_of_seq. lia.
    - intros [[T_list Molist] Clist]. unfold fit_row.
      destruct (comprehension_raises_at
                  (task curve_fit function T_train
                     (run_slice (length T_train) stack i) k)
                  (seq 0 (width stack)) j) as [e2 ->]; [|by eexists|by eexists].
      apply elem_of_seq. lia.
    - by eexists _, _. }
  assert (calculate_maps curve_fit images T_train function w = (Raise e', w'))
    as Hcalc.
  { unfold calculate_maps, read3, lift. rewrite !M_bind_run, Himages.
    unfold int_div. by rewrite decide_False by lia. }
  exists e', w'. split; [done|].
  apply (calculate_maps_raise curve_fit images T_train function w).
  by rewrite Hcalc.
Qed.

(** Without a train of times the division of line 83 raises; with fewer
    images than times there is no run, and three empty lists come back.  In
    both cases nothing is allocated and the solver is not called. *)
Theorem calculate_maps_no_run (images : ref) (T_train : list float)
    (function : model) (w : world) (stack : Array3 float) :
  heap w !! images = Some (Arr3 stack) → depth stack < length T_train ∨ T_train = [] →
  calculate_maps curve_fit images T_train function w
  = (if decide (T_train = []) then Raise ZeroDivisionError else Ok ([], [], []), w).
Proof.
  intros Himages Hshort.
  unfold calculate_maps, read3, lift. rewrite !M_bind_run, Himages.
  unfold int_div. destruct T_train as [|t T_train]; [done|].
  destruct Hshort as [Hshort|?]; [|done].
  rewrite decide_False by done. rewrite decide_False by done.
  cbn [mbind M_bind]. by rewrite Nat.div_small.
Qed.

(** The fit writes no file: after the call, whether it returned or raised,
    the output folder holds what it held before. *)
Theorem calculate_maps_writes_no_file (images : ref) (T_train : list float)
    (function : model) (w : world) :
  folder (calculate_maps curve_fit images T_train function w).2 = folder w.
Proof.
  unfold calculate_maps, read3, lift. rewrite !M_bind_run.
  destruct (heap w !! images) as [[a|stack]|]; simpl; try done.
  destruct (int_div _ _) as [runs|e]; simpl; [|done].
  symmetry.
  apply (for_each_M_rel (λ w1 w2, folder w1 = folder w2)); [done|congruence|].
  intros [[T_maps Momaps] Cmaps] i w1. unfold fit_run, lift, alloc.
  unfold mbind, M_bind, mret, M_ret. simpl.
  by repeat case_match; simplify_eq/=.
Qed.

End propagation.

Lemma calculate_maps_never_RuntimeError_witness :
  (calculate_maps always_refuses 0 [1; 2]%float T1
     (mkWorld [Arr3 example_stack] [])).1 = Raise ValueError ∧
  (calculate_maps always_refuses 0 [1; 2]%float T1
     (mkWorld [Arr3 example_stack] [])).1 ≠ Raise RuntimeError.
Proof.
  split; [reflexivity|].
  apply (calculate_maps_never_RuntimeError always_refuses 0 [1; 2]%float T1
           (mkWorld [Arr3 example_stack] [])).
Defined.

Lemma calculate_maps_propagates_witness :
  ∃ e' w',
    calculate_maps always_refuses 0 [1; 2]%float T1 (mkWorld [Arr3 example_stack] [])
      = (Raise e', w') ∧
    e' ≠ RuntimeError.
Proof.
  apply (calculate_maps_propagates always_refuses 0 [1; 2]%float T1
           (mkWorld [Arr3 example_stack] []) example_stack 1 0 1 8%float ValueError).
  - reflexivity.
  - simpl. lia.
  - simpl. lia.
  - simpl. lia.
  - simpl. lia.
  - reflexivity.
  - reflexivity.
  - discriminate.
Defined.

Lemma calculate_maps_no_run_witness :
  calculate_maps never_converges 0 [1; 2; 3; 4; 5]%float T2
    (mkWorld [Arr3 example_stack] [])
  = (if decide ([1; 2; 3; 4; 5]%float = []) then Raise ZeroDivisionError
     else Ok ([], [], []),
     mkWorld [Arr3 example_stack] []).
Proof.
  apply (calculate_maps_no_run never_converges 0 [1; 2; 3; 4; 5]%float T2
           (mkWorld [Arr3 example_stack] []) example_stack).
  - reflexivity.
  - left. simpl. lia.
Defined.

(** ** From the fit to the synthesis *)

Lemma finite_choice {X} (P : nat → X → Prop) (n : nat) :
  (∀ i, i < n → ∃ x, P i x) →
  ∃ l, length l = n ∧ ∀ i x, l !! i = Some x → P i x.
Proof.
  induction n as [|n IH]; intros Hall.
  - exists []. split; [done|]. intros i x. by rewrite lookup_nil.
  - destruct IH as (l & Hlen & Hl); [intros i Hi; apply Hall; lia|].
    destruct (Hall n) as [x Hx]; [lia|].
    exists (l ++ [x]). split; [rewrite length_app; simpl; lia|].
    intros i y Hy. apply lookup_app_Some in Hy as [Hy|[Hge Hy]]; [by apply Hl|].
    apply list_lookup_singleton_Some in Hy as [Hi <-].
    by replace i with n by lia.
Qed.

Lemma np_max2_pixel (a : Array2 float) (k j : nat) (p : float) :
  pixel a k j = Some p → ∃ maximum, np_max2 a = Ok maximum.
Proof.
  unfold pixel, np_max2, np_max. intros Hp.
  destruct (rows a !! k) as [row|] eqn:Hrow; [|done]. simpl in Hp.
  destruct (mjoin (rows a)) as [|q points] eqn:Hflat; [|by eexists].
  assert (p ∈ mjoin (rows a)) as Hin.
  { apply list_elem_of_join. exists row.
    split; by eapply list_elem_of_lookup_2. }
  rewrite Hflat in Hin. by apply elem_of_nil in Hin.
Qed.

Section fit_then_synthesize.
Variable np_exp : float → float.
Variable exp_beyond_int64 : Z → Array2 float → result (Array2 float).
Variable curve_fit :
  model → list float → list float → list float * list float → nat →
  result (list float).

(** Maps of one shape with a first pixel give an image at a time that is
    an [int64]. *)
Lemma synthesized_defined_at (function : model) (t : Z) (tm mo c : Array2 float)
    (h w : nat) :
  int64 t →
  (nrows tm, ncols tm) = (h, w) → (nrows mo, ncols mo) = (h, w) →
  (nrows c, ncols c) = (h, w) →
  is_Some (pixel tm 0 0) → is_Some (pixel mo 0 0) → is_Some (pixel c 0 0) →
  ∃ img, synthesized np_exp exp_beyond_int64 function t (tm, mo, c) = Ok img.
Proof.
  intros Ht [= Hr0 Hc0] [= Hr1 Hc1] [= Hr2 Hc2] [x Hx] [m Hm] [cc Hcc].
  assert (∀ g : float → float,
    ∃ v, pixel (mkArray2 (nrows mo) (ncols mo)
                  (zip_with (zip_with PrimFloat.add)
                     (zip_with (zip_with PrimFloat.mul) (rows mo) (rows (np_map g tm)))
                     (rows c))) 0 0 = Some v) as Hpixel.
  { intros g. eexists. apply pixel_zip_with; [|exact Hcc].
    apply (pixel_zip_with PrimFloat.mul 0 0); [exact Hm|].
    fold (pixel (np_map g tm) 0 0). by rewrite pixel_np_map, Hx. }
  unfold synthesized, rescaled, model_value, call_model.
  rewrite T1_function_int64, T2_function_int64 by done.
  destruct function.
  - rewrite np_binop_same by (simpl; lia). cbn [mbind result_bind].
    rewrite np_binop_same by (simpl; lia). cbn [mbind result_bind].
    destruct (Hpixel (λ t0, 1 - 2 * np_exp (float_of_Z (int64_neg t) / t0))%float)
      as [v Hv].
    match goal with
    | |- context [np_max2 ?a] =>
        destruct (np_max2_pixel a 0 0 (PrimFloat.abs v)) as [maximum ->]
    end; [|by eexists].
    rewrite pixel_np_map. unfold pixel in *. cbn [rows] in *. by rewrite Hv.
  - rewrite np_binop_same by (simpl; lia). cbn [mbind result_bind].
    rewrite np_binop_same by (simpl; lia). cbn [mbind result_bind].
    destruct (Hpixel (λ t0, np_exp (float_of_Z (int64_neg t) / t0))%float) as [v Hv].
    match goal with
    | |- context [np_max2 ?a] =>
        destruct (np_max2_pixel a 0 0 v) as [maximum ->]
    end; [|by eexists].
    unfold pixel in *. cbn [rows] in *. by rewrite Hv.
Qed.

(** When every call of the solver settles, on images that are not empty,
    the lists that the fit returns point to maps from which every image can
    be synthesized at times that are [int64]. *)
Lemma fitted_maps_usable (function : model) (T_train : list float)
    (images : ref) (w : world) (stack : Array3 float) :
  settles_on curve_fit function T_train stack →
  heap w !! images = Some (Arr3 stack) → wf3 stack →
  0 < length T_train → 0 < height stack → 0 < width stack →
  ∃ T_maps Momaps Cmaps w1 runs,
    calculate_maps curve_fit images T_train function w
      = (Ok (T_maps, Momaps, Cmaps), w1) ∧
    length runs = depth stack / length T_train ∧
    maps_at (heap w1) T_maps Momaps Cmaps runs ∧
    ∀ T_wish, Forall int64 T_wish →
      ∃ imgss,
        comprehension
          (λ t, comprehension (synthesized np_exp exp_beyond_int64 function t) runs)
          T_wish
        = Ok imgss.
Proof.
  intros Hsolver Himages Hwf Htrain Hh Hw.
  destruct (calculate_maps_ok curve_fit function T_train images w stack)
    as (T_maps & Momaps & Cmaps & w1 & Hfit & HlT & HlM & HlC & Hfitted); [done..|].
  set (K := depth stack / length T_train) in *.
  destruct (finite_choice
    (λ i (run : run_maps),
       let '(tm, mo, c) := run in
       ∃ T_ref Mo_ref C_ref,
         T_maps !! i = Some T_ref ∧ Momaps !! i = Some Mo_ref ∧
         Cmaps !! i = Some C_ref ∧
         heap w1 !! T_ref = Some (Arr2 tm) ∧ heap w1 !! Mo_ref = Some (Arr2 mo) ∧
         heap w1 !! C_ref = Some (Arr2 c) ∧
         maps_fitted curve_fit function T_train (run_slice (length T_train) stack i)
           (height stack) (width stack) tm mo c) K) as (runs & Hlen & Hruns).
  { intros i Hi.
    destruct (Hfitted i Hi) as (T_ref & Mo_ref & C_ref & tm & mo & c & H).
    exists (tm, mo, c). by exists T_ref, Mo_ref, C_ref. }
  exists T_maps, Momaps, Cmaps, w1, runs. split; [done|].
  split; [done|]. split.
  { split; [lia|]. intros i tm mo c Hrun.
    destruct (Hruns i _ Hrun) as (T_ref & Mo_ref & C_ref & ? & ? & ? & ? & ? & ? & _).
    by exists T_ref, Mo_ref, C_ref. }
  intros T_wish Htimes. apply comprehension_defined. intros t Ht.
  apply comprehension_defined. intros [[tm mo] c] Hrun.
  apply list_elem_of_lookup_1 in Hrun as [i Hrun].
  destruct (Hruns i _ Hrun)
    as (_ & _ & _ & _ & _ & _ & _ & _ & _ & HsT & HsM & HsC & Hpix).
  destruct (Hpix 0 0 Hh Hw) as (p & Hp & HT & HM & HC).
  assert (length p = arity function) as Harity.
  { apply lookup_lt_Some in Hrun. rewrite Hlen in Hrun.
    assert (length T_train * (i + 1) ≤ depth stack) as Hrange.
    { pose proof (Nat.Div0.mul_div_le (depth stack) (length T_train)).
      fold K in H. nia. }
    destruct (run_slice_wf (length T_train) stack i Hwf Hrange) as [Hsl Hall].
    destruct (task_defined curve_fit function T_train
                (run_slice (length T_train) stack i)
                (height stack) (width stack) 0 0) as (p' & Hp' & Hsize);
      [by apply Hsolver|done|lia|done|done|].
    rewrite Hp in Hp'. by injection Hp' as <-. }
  assert (3 ≤ arity function) by (destruct function; simpl; lia).
  eapply synthesized_defined_at; [by eapply Forall_forall in Htimes|done..| | |].
  - rewrite HT. apply lookup_lt_is_Some_2. lia.
  - rewrite HM. apply lookup_lt_is_Some_2. lia.
  - rewrite HC. apply lookup_lt_is_Some_2. lia.
Qed.

(** After the fit and the synthesis: as many images as requested times
    and runs, and a folder with one file for each name of the call. *)
Lemma fitted_maps_synthesized (function : model) (T_wish : list Z)
    (T_maps Momaps Cmaps : list ref) (w1 : world) (runs : list run_maps)
    (imgss : list (list (Array2 float))) :
  maps_at (heap w1) T_maps Momaps Cmaps runs →
  comprehension
    (λ t, comprehension (synthesized np_exp exp_beyond_int64 function t) runs) T_wish
  = Ok imgss →
  ∃ TheoretImgs w2,
    theoret_MRI np_exp exp_beyond_int64 function T_wish T_maps Momaps Cmaps w1
      = (Ok TheoretImgs, w2) ∧
    length TheoretImgs = length T_wish * length runs ∧
    NoDup (folder w2).*1 ∧
    (∀ name, name ∈ (folder w2).*1
             ↔ name ∈ names_of (label function) (length runs) T_wish) ∧
    (NoDup T_wish → (folder w2).*1 = names_of (label function) (length runs) T_wish).
Proof.
  intros Hmaps Himgss.
  destruct (synthesized_lengths _ _ _ _ _ _ Himgss) as [Hcount Hsizes].
  destruct (saved_files_of (label function) (length runs) T_wish imgss Hcount Hsizes)
    as (Hnodup & Hnames & Hfresh).
  eexists _, _. split; [by eapply theoret_MRI_run|].
  cbn [folder]. rewrite length_seq. split; [done|]. split; [done|]. split; [done|].
  intros Hnd. rewrite (Hfresh Hnd). by apply files_of_names.
Qed.

(** The maps that the fit returns are maps that the synthesis accepts:
    when every call of the solver on the stack returns parameters or does not
    converge, on images that are not empty and for requested times that are
    [int64], [calculate_maps] followed by [theoret_MRI] returns one image
    per requested time and run, and leaves a folder with one file for each
    name of the call: as many files as images when the requested times
    differ. *)
Theorem fit_then_synthesize (function : model) (T_train : list float)
    (T_wish : list Z) (images : ref) (w : world) (stack : Array3 float) :
  heap w !! images = Some (Arr3 stack) → wf3 stack →
  0 < length T_train → 0 < height stack → 0 < width stack →
  settles_on curve_fit function T_train stack →
  Forall int64 T_wish →
  ∃ T_maps Momaps Cmaps w1 TheoretImgs w2,
    calculate_maps curve_fit images T_train function w
      = (Ok (T_maps, Momaps, Cmaps), w1) ∧
    theoret_MRI np_exp exp_beyond_int64 function T_wish T_maps Momaps Cmaps w1
      = (Ok TheoretImgs, w2) ∧
    length TheoretImgs = length T_wish * (depth stack / length T_train) ∧
    NoDup (folder w2).*1 ∧
    (∀ name, name ∈ (folder w2).*1
             ↔ name ∈ names_of (label function) (depth stack / length T_train) T_wish) ∧
    (NoDup T_wish →
     (folder w2).*1
     = names_of (label function) (depth stack / length T_train) T_wish).
Proof.
  intros Himages Hwf Htrain Hh Hw Hsolver Htimes.
  destruct (fitted_maps_usable function T_train images w stack)
    as (T_maps & Momaps & Cmaps & w1 & runs & Hfit & Hlen & Hmaps & Hdefined);
    [done..|].
  destruct (Hdefined T_wish Htimes) as [imgss Himgss].
  destruct (fitted_maps_synthesized function T_wish T_maps Momaps Cmaps w1 runs imgss
              Hmaps Himgss) as (TheoretImgs & w2 & Hsynth & Hcount & Hrest).
  rewrite Hlen in Hcount, Hrest.
  by exists T_maps, Momaps, Cmaps, w1, TheoretImgs, w2.
Qed.

End fit_then_synthesize.

Lemma fit_then_synthesize_witness :
  ∃ T_maps Momaps Cmaps w1 TheoretImgs w2,
    calculate_maps fits_bright 0 [1; 2]%float T2 (mkWorld [Arr3 example_stack] [])
      = (Ok (T_maps, Momaps, Cmaps), w1) ∧
    theoret_MRI exp_stub beyond_stub T2 [0; 5; 5]%Z T_maps Momaps Cmaps w1
      = (Ok TheoretImgs, w2) ∧
    length TheoretImgs
      = length [0; 5; 5]%Z * (depth example_stack / length [1; 2]%float) ∧
    NoDup (folder w2).*1 ∧
    (∀ name, name ∈ (folder w2).*1
             ↔ name ∈ names_of (label T2) (depth example_stack / length [1; 2]%float)
                        [0; 5; 5]%Z) ∧
    (NoDup [0; 5; 5]%Z →
     (folder w2).*1
     = names_of (label T2) (depth example_stack / length [1; 2]%float) [0; 5; 5]%Z).
Proof.
  apply (fit_then_synthesize exp_stub beyond_stub fits_bright T2 [1; 2]%float
           [0; 5; 5]%Z 0 (mkWorld [Arr3 example_stack] []) example_stack).
  - reflexivity.
  - apply example_stack_wf.
  - simpl. lia.
  - simpl. lia.
  - simpl. lia.
  - apply fits_bright_settles.
  - repeat constructor; unfold int64; lia.
Defined.

(** The same calls evaluated: six images are returned, and the folder holds
    four files, the files of the time that is requested twice once. *)
Example fit_then_synthesize_evaluated :
  let '(maps, w1) :=
    calculate_maps fits_bright 0 [1; 2]%float T2 (mkWorld [Arr3 example_stack] []) in
  match maps with
  | Ok (T_maps, Momaps, Cmaps) =>
      let '(imgs, w2) :=
        theoret_MRI exp_stub beyond_stub T2 [0; 5; 5]%Z T_maps Momaps Cmaps w1 in
      imgs = Ok [7; 8; 9; 10; 11; 12] ∧
      (folder w2).*1
      = ["Theoretical_MRI/slice_1_TE_0ms.png"; "Theoretical_MRI/slice_2_TE_0ms.png";
         "Theoretical_MRI/slice_1_TE_5ms.png"; "Theoretical_MRI/slice_2_TE_5ms.png"]%string
  | Raise _ => False
  end.
Proof. vm_compute. split; reflexivity. Qed.


(** ** Calls of [theoret_MRI] that synthesize nothing or fail *)

Section synthesis_edges.
Variable np_exp : float → float.
Variable exp_beyond_int64 : Z → Array2 float → result (Array2 float).

(** Without requested times or without magnetisation maps the call
    returns an empty list, and the output folder is left empty, whatever it
    held before. *)
Theorem theoret_MRI_nothing_to_do (function : model) (T_wish : list Z)
    (T_maps Momaps Cmaps : list ref) (w : world) :
  T_wish = [] ∨ Momaps = [] →
  theoret_MRI np_exp exp_beyond_int64 function T_wish T_maps Momaps Cmaps w
  = (Ok [], mkWorld (heap w) []).
Proof.
  intros [-> | ->]; unfold theoret_MRI; rewrite M_bind_run; unfold fresh_folder;
    [done|].
  cbn [length seq]. generalize (mkWorld (heap w) []). intros w'.
  induction T_wish as [|t T_wish IH]; [done|].
  by rewrite for_each_M_cons.
Qed.

(** A list of time maps or of offset maps that is shorter than the list of
    magnetisation maps: the call raises, after it has emptied the output
    folder; when there is no time map at all it raises [IndexError] on the
    first pass and leaves the folder empty. *)
Theorem theoret_MRI_missing_map (function : model) (T_wish : list Z)
    (T_maps Momaps Cmaps : list ref) (w : world) :
  T_wish ≠ [] →
  length T_maps < length Momaps ∨ length Cmaps < length Momaps →
  ∃ e w',
    theoret_MRI np_exp exp_beyond_int64 function T_wish T_maps Momaps Cmaps w
      = (Raise e, w') ∧
    (T_maps = [] → e = IndexError ∧ w' = mkWorld (heap w) []).
Proof.
  intros Hwish Hshort. destruct T_wish as [|t T_wish]; [done|].
  unfold theoret_MRI. rewrite M_bind_run. unfold fresh_folder.
  rewrite for_each_M_cons.
  set (j0 := length T_maps `min` length Cmaps).
  destruct (for_each_M_raises_at
              (synthesize_one np_exp exp_beyond_int64 function (label function)
                 T_maps Momaps Cmaps t)
              (seq 0 (length Momaps)) [] (mkWorld (heap w) []) j0)
    as (e & w' & Hrun).
  { apply elem_of_seq. lia. }
  { intros acc w1.
    assert (T_maps !! j0 = None ∨ Cmaps !! j0 = None) as Hnone.
    { destruct (decide (length T_maps ≤ length Cmaps)); [left|right];
        apply lookup_ge_None_2; lia. }
    unfold synthesize_one, index, lift, read2. unfold mbind, M_bind.
    destruct Hnone as [-> | HC]; [by eexists _, _|].
    rewrite HC. repeat case_match; simplify_eq/=; by eexists _, _. }
  rewrite Hrun. exists e, w'. split; [done|]. intros ->.
  destruct Momaps as [|Mo_ref Momaps]; [simpl in Hshort; lia|].
  cbn [length seq] in Hrun. rewrite for_each_M_cons in Hrun.
  unfold synthesize_one, index, lift in Hrun. rewrite M_bind_run in Hrun.
  simpl in Hrun. by injection Hrun as <- <-.
Qed.

(** What holds before a loop over the store and is kept by every pass
    that returns holds when the loop returns. *)
Lemma for_each_M_ok_inv {St I} (P : St → world → Prop) (body : St → I → M St)
    (range : list I) (s s' : St) (w w' : world) :
  P s w →
  (∀ x s w s1 w1, x ∈ range → P s w → body s x w = (Ok s1, w1) → P s1 w1) →
  for_each body s range w = (Ok s', w') → P s' w'.
Proof.
  revert s w. induction range as [|x range IH]; intros s w HP Hstep.
  - by intros [= <- <-].
  - rewrite for_each_M_cons. destruct (body s x w) as [[s1|e] w1] eqn:Hbody; [|done].
    apply IH.
    + eapply Hstep; [apply list_elem_of_here|done..].
    + intros y t v t1 v1 Hy. apply Hstep. by apply list_elem_of_further.
Qed.

(** A pass of the inner loop that returns has allocated one array and
    appended it to the list. *)
Lemma synthesize_one_ok (function : model) (txt : string)
    (T_maps Momaps Cmaps : list ref) (t : Z) (TheoretImgs TheoretImgs' : list ref)
    (j : nat) (w w' : world) :
  synthesize_one np_exp exp_beyond_int64 function txt T_maps Momaps Cmaps t
    TheoretImgs j w = (Ok TheoretImgs', w') →
  TheoretImgs' = TheoretImgs ++ [length (heap w)] ∧
  length (heap w') = S (length (heap w)).
Proof.
  unfold synthesize_one, index, lift, read2, alloc, write2, imsave.
  unfold mbind, M_bind, mret, M_ret. simpl.
  repeat case_match; simplify_eq/=; intros [= <- <-]; simpl;
    by rewrite length_insert, length_app, Nat.add_1_r.
Qed.

(** The arrays returned are new objects, whatever the requested times and
    the library: none existed before the call, and no two entries of the list
    are the same object.  On well-formed maps and for requested times that
    are [int64] the call returns. *)
Theorem theoret_MRI_returns_new_arrays (function : model) (T_wish : list Z)
    (T_maps Momaps Cmaps : list ref) (w : world) (runs : list run_maps) :
  (∀ TheoretImgs w',
     theoret_MRI np_exp exp_beyond_int64 function T_wish T_maps Momaps Cmaps w
       = (Ok TheoretImgs, w') →
     NoDup TheoretImgs ∧
     ∀ r, r ∈ TheoretImgs → heap w !! r = None ∧ is_Some (heap w' !! r)) ∧
  (maps_at (heap w) T_maps Momaps Cmaps runs → Forall run_ok runs →
   Forall int64 T_wish →
   ∃ TheoretImgs w',
     theoret_MRI np_exp exp_beyond_int64 function T_wish T_maps Momaps Cmaps w
       = (Ok TheoretImgs, w')).
Proof.
  split.
  - intros TheoretImgs w'. unfold theoret_MRI. rewrite M_bind_run.
    unfold fresh_folder. intros Hrun.
    set (P := λ (acc : list ref) (w1 : world),
      length (heap w) ≤ length (heap w1) ∧
      acc = seq (length (heap w)) (length (heap w1) - length (heap w))).
    assert (P TheoretImgs w') as [Hle ->].
    { eapply (for_each_M_ok_inv P); [| |exact Hrun].
      - split; [done|]. simpl. by rewrite Nat.sub_diag.
      - intros t acc w1 acc1 w2 _ HP. apply (for_each_M_ok_inv P); [done|].
        intros j acc2 w3 acc3 w4 _ [Hle ->] Hone.
        apply synthesize_one_ok in Hone as [-> Hlen]. split; [lia|].
        replace (length (heap w4) - length (heap w))
          with (S (length (heap w3) - length (heap w))) by lia.
        rewrite seq_S. do 2 f_equal. lia. }
    split; [apply NoDup_seq|]. intros r Hr. apply elem_of_seq in Hr.
    split; [apply lookup_ge_None_2; lia|apply lookup_lt_is_Some_2; lia].
  - intros Hmaps Hruns Htimes.
    destruct (all_synthesized_defined np_exp exp_beyond_int64 function T_wish runs
                Hruns Htimes) as [imgss Himgss].
    eexists _, _. by eapply theoret_MRI_run.
Qed.

End synthesis_edges.

Lemma theoret_MRI_nothing_to_do_witness :
  theoret_MRI exp_stub beyond_stub T1 [1; 250]%Z [0] [] [2]
    (mkWorld [Arr2 (mkArray2 1 1 [[1%float]])]
       [("Theoretical_MRI/slice_1_TI_1ms.png"%string, mkArray2 1 1 [[255%float]])])
  = (Ok [], mkWorld [Arr2 (mkArray2 1 1 [[1%float]])] []).
Proof.
  apply (theoret_MRI_nothing_to_do exp_stub beyond_stub T1 [1; 250]%Z [0] [] [2]
           (mkWorld [Arr2 (mkArray2 1 1 [[1%float]])]
              [("Theoretical_MRI/slice_1_TI_1ms.png"%string,
                mkArray2 1 1 [[255%float]])])).
  by right.
Defined.

Lemma theoret_MRI_missing_map_witness :
  ∃ e w',
    theoret_MRI exp_stub beyond_stub T2 [0%Z] [] [0] []
      (mkWorld [Arr2 (mkArray2 1 1 [[1%float]])]
         [("Theoretical_MRI/slice_1_TE_0ms.png"%string, mkArray2 1 1 [[255%float]])])
    = (Raise e, w') ∧
    (@nil ref = [] →
     e = IndexError ∧ w' = mkWorld [Arr2 (mkArray2 1 1 [[1%float]])] []).
Proof.
  apply (theoret_MRI_missing_map exp_stub beyond_stub T2 [0%Z] [] [0] []
           (mkWorld [Arr2 (mkArray2 1 1 [[1%float]])]
              [("Theoretical_MRI/slice_1_TE_0ms.png"%string,
                mkArray2 1 1 [[255%float]])])).
  - discriminate.
  - left. simpl. lia.
Defined.

Lemma theoret_MRI_returns_new_arrays_witness :
  ∃ TheoretImgs w',
    theoret_MRI exp_stub beyond_stub T2 [0; 5]%Z [0] [1] [2]
      (mkWorld [Arr2 (mkArray2 1 1 [[1%float]]); Arr2 (mkArray2 1 1 [[1%float]]);
                Arr2 (mkArray2 1 1 [[0%float]])] [])
      = (Ok TheoretImgs, w') ∧
    NoDup TheoretImgs ∧
    ∀ r, r ∈ TheoretImgs →
      [Arr2 (mkArray2 1 1 [[1%float]]); Arr2 (mkArray2 1 1 [[1%float]]);
       Arr2 (mkArray2 1 1 [[0%float]])] !! r = None ∧
      is_Some (heap w' !! r).
Proof.
  pose proof (theoret_MRI_returns_new_arrays exp_stub beyond_stub T2 [0; 5]%Z
                [0] [1] [2]
                (mkWorld [Arr2 (mkArray2 1 1 [[1%float]]);
                          Arr2 (mkArray2 1 1 [[1%float]]);
                          Arr2 (mkArray2 1 1 [[0%float]])] [])
                [(mkArray2 1 1 [[1%float]], mkArray2 1 1 [[1%float]],
                  mkArray2 1 1 [[0%float]])]) as [Hnew Hreturns].
  destruct Hreturns as (TheoretImgs & w' & Hrun).
  - apply unit_maps_at.
  - apply unit_run_ok.
  - repeat constructor; unfold int64; lia.
  - exists TheoretImgs, w'. split; [exact Hrun|]. by apply Hnew.
Defined.


(** The name of a file determines the run, the model and the requested
    time. *)
Theorem fname_determines (function function' : model) (j j' : nat) (t t' : Z) :
  fname j (label function) t = fname j' (label function') t' →
  j = j' ∧ function = function' ∧ t = t'.
Proof.
  intros H.
  assert (function = function') as <-.
  { unfold fname in H. apply String.app_inj in H.
    change ("_" +:+ ?s) with (String "_" s) in H.
    apply split_at_separator in H as [_ H]; [|apply avoids_py_str_nat..].
    by destruct function, function'. }
  by apply fname_inj in H as [-> ->].
Qed.

Lemma fname_determines_witness :
  fname 2 (label T1) 250 = "Theoretical_MRI/slice_3_TI_250ms.png"%string ∧
  2 = 2 ∧ T1 = T1 ∧ 250%Z = 250%Z.
Proof.
  split; [reflexivity|].
  apply (fname_determines T1 T1 2 2 250 250). reflexivity.
Defined.

(** ** The shape of the images *)

(** What holds before a loop and is kept by every pass that returns holds
    when the loop returns. *)
Lemma for_each_ok_inv {St I} (P : St → Prop) (body : St → I → result St)
    (range : list I) (s s' : St) :
  (∀ s i s', body s i = Ok s' → P s → P s') →
  P s → for_each body s range = Ok s' → P s'.
Proof.
  intros Hbody. revert s. induction range as [|x range IH]; intros s HP; simpl.
  - by intros [= <-].
  - destruct (body s x) as [s1|e] eqn:Hx; simpl; [|done].
    apply IH. by eapply Hbody.
Qed.

Section shapes.
Context {A : Type}.

Lemma broadcast_to_wf (src : Array2 A) (h w : nat) (p : list (list A)) :
  wf2 src → broadcast_to src h w = Ok p → rows_wf h w p.
Proof.
  intros [Hlen Hall]. unfold broadcast_to, broadcastable.
  destruct (_ && _) eqn:Hb; [|done]. intros [= <-].
  apply andb_prop in Hb as [Hr Hc].
  assert (nrows src = h ∨ nrows src = 1) as Hr'.
  { apply orb_prop in Hr as [Hr|Hr]; apply bool_decide_eq_true_1 in Hr; auto. }
  assert (ncols src = w ∨ ncols src = 1) as Hc'.
  { apply orb_prop in Hc as [Hc|Hc]; apply bool_decide_eq_true_1 in Hc; auto. }
  clear Hr Hc.
  assert (Forall (λ r, length r = w) (stretch (ncols src) w <$> rows src)) as Hrows.
  { apply Forall_fmap. eapply Forall_impl; [exact Hall|]. intros r Hr. simpl in *.
    unfold stretch. destruct (decide (ncols src = w)); [lia|].
    rewrite (length_join_uniform 1) by (apply Forall_replicate; lia).
    rewrite length_replicate. lia. }
  unfold stretch at 1. destruct (decide (nrows src = h)); split.
  - rewrite length_fmap. lia.
  - done.
  - rewrite (length_join_uniform 1); [rewrite length_replicate; lia|].
    apply Forall_replicate. rewrite length_fmap. lia.
  - by apply Forall_join, Forall_replicate.
Qed.

(** An assignment to a plane keeps the shape of a stack. *)
Lemma setitem3_shape (a a' : Array3 A) (k : nat) (src : Array2 A) :
  setitem3 a k src = Ok a' →
  depth a' = depth a ∧ height a' = height a ∧ width a' = width a ∧
  length (planes a') = length (planes a) ∧
  (wf2 src → Forall (rows_wf (height a) (width a)) (planes a) →
   Forall (rows_wf (height a) (width a)) (planes a')).
Proof.
  unfold setitem3. case_decide; [|done].
  destruct (broadcast_to src _ _) as [p|] eqn:Hp; [|done]. simpl.
  intros [= <-]. simpl. rewrite length_insert. repeat split; try done.
  intros Hsrc Hall. apply Forall_insert; [done|]. by eapply broadcast_to_wf.
Qed.

Lemma get_kspaces_shape (junk : A) (n : nat) (echoes : Array2 A)
    (kspaces : Array3 A) :
  get_kspaces junk n echoes = Ok kspaces →
  depth kspaces = n ∧ height kspaces = nrows echoes / n ∧
  width kspaces = ncols echoes ∧ length (planes kspaces) = n.
Proof.
  unfold get_kspaces, int_div. case_decide; [done|]. simpl.
  apply (for_each_ok_inv
    (λ kspaces, depth kspaces = n ∧ height kspaces = nrows echoes / n ∧
                width kspaces = ncols echoes ∧ length (planes kspaces) = n)).
  - intros a k a' Hset (Hd & Hh & Hw & Hlen).
    apply setitem3_shape in Hset as (-> & -> & -> & -> & _). done.
  - simpl. by rewrite length_replicate.
Qed.

End shapes.

Section images_shape.
Variable dft2 : list (list complex) → nat → nat → complex.
Variable cabs : complex → float.
Variables (junk_c : complex) (junk_f : float).



End images_shape.

(** ** The script *)

Lemma Script_bind_run {A B} (m : Script A) (k : A → Script B) (s : session) :
  (x ← m; k x) s =
    match m s with
    | (Returns a, s') => k a s'
    | (Raises e, s') => (Raises e, s')
    end.
Proof. reflexivity. Qed.

Lemma del_global_run (name : string) (s : session) :
  name ∈ globals s →
  del_global name s
  = (Returns (), mkSession (globals s ∖ {[name]}) (stdout s) (store s)).
Proof. intros Hin. unfold del_global. by rewrite decide_True. Qed.


(** *** Statements that define no name *)

Create HintDb script discriminated.

Lemma defines_nothing_ret {A} (a : A) : defines_nothing (mret a).
Proof. by intros s. Qed.

Lemma defines_nothing_bind {A B} (m : Script A) (k : A → Script B) :
  defines_nothing m → (∀ a, defines_nothing (k a)) → defines_nothing (m ≫= k).
Proof.
  intros Hm Hk s. unfold mbind, Script_bind. specialize (Hm s).
  destruct (m s) as [[a|e] s']; simpl in *; [|done].
  etrans; [apply Hk|done].
Qed.

Lemma defines_nothing_del (name : string) : defines_nothing (del_global name).
Proof.
  intros s. unfold del_global. case_decide; simpl; [|done].
  apply subseteq_difference_l. done.
Qed.

Lemma defines_nothing_print (line : string) : defines_nothing (print line).
Proof. by intros s. Qed.

Lemma defines_nothing_eval_to {A} (r : outcome A) : defines_nothing (eval_to r).
Proof. by intros s. Qed.

Lemma defines_nothing_stage {A} (m : M A) : defines_nothing (stage m).
Proof. intros s. unfold stage. by destruct (m (store s)) as [[a|e] w]. Qed.

Lemma defines_nothing_comprehension {I B} (f : I → Script B) (range : list I) :
  (∀ i, defines_nothing (f i)) → defines_nothing (comprehension f range).
Proof.
  intros Hf. induction range as [|i range IH]; simpl.
  - apply defines_nothing_ret.
  - apply defines_nothing_bind; [done|]. intros b.
    apply defines_nothing_bind; [done|]. intros bs. apply defines_nothing_ret.
Qed.

#[local] Hint Resolve defines_nothing_ret defines_nothing_del defines_nothing_print
  defines_nothing_eval_to defines_nothing_stage : script.
#[local] Hint Extern 2 (defines_nothing (_ ≫= _)) =>
  apply defines_nothing_bind; [|intros ?] : script.
#[local] Hint Extern 2 (defines_nothing (comprehension _ _)) =>
  apply defines_nothing_comprehension; intros ? : script.
#[local] Hint Extern 3 (defines_nothing (if ?b then _ else _)) => destruct b : script.
#[local] Hint Extern 3 (defines_nothing (match ?x with (_, _) => _ end)) =>
  destruct x : script.

Lemma recognised_run (p : params) (layout ir l i : string) (ls irs : list string)
    (s : session) :
  procpar p !! "layout" = Some (l :: ls) →
  (l = layout → procpar p !! "ir" = Some (i :: irs)) →
  recognised p layout ir s
  = (Returns (bool_decide (l = layout ∧ i = ir)), s).
Proof.
  intros Hl Hi. unfold recognised, first_value, values, eval_to.
  rewrite !Script_bind_run, Hl. simpl.
  destruct (decide (l = layout)) as [Heq|Hne].
  - rewrite !Script_bind_run, (Hi Heq). simpl. unfold mret, Script_ret.
    do 2 f_equal. apply bool_decide_ext. by split; [intros ->|intros [_ ->]].
  - unfold mret, Script_ret. do 2 f_equal. symmetry.
    apply bool_decide_eq_false_2. by intros [? _].
Qed.


Section script_facts.
Variable agilent_read : string → outcome (params * Array2 complex).
Variable py_eval : string → outcome float.
Variable dft2 : list (list complex) → nat → nat → complex.
Variable cabs : complex → float.
Variables (junk_c : complex) (junk_f : float).
Variable np_exp : float → float.
Variable exp_beyond_int64 : Z → Array2 float → result (Array2 float).
Variable curve_fit :
  model → list float → list float → list float * list float → nat →
  result (list float).

Implicit Types (path : string) (T_wish : list Z) (glob_var : Z) (s : session).

(** The calls of this section, with the libraries of the section. *)
#[local] Abbreviation main_of path T_wish glob_var :=
  (main agilent_read py_eval dft2 cabs junk_c junk_f np_exp exp_beyond_int64 curve_fit
     path T_wish glob_var).
#[local] Abbreviation script_of path T_wish glob_var :=
  (script agilent_read py_eval dft2 cabs junk_c junk_f np_exp exp_beyond_int64 curve_fit
     path T_wish glob_var).

Lemma defines_nothing_main (path : string) (T_wish : list Z) (glob_var : Z) :
  defines_nothing (main_of path T_wish glob_var).
Proof.
  unfold main, sems_ir, mems, recognised, first_value, values.
  auto 30 with script.
Qed.

(** After a call of [main], whatever its outcome, the name [path] is not
    defined at module level. *)
Lemma main_deletes_path (path : string) (T_wish : list Z) (glob_var : Z)
    (s : session) :
  "path" ∉ globals (main_of path T_wish glob_var s).2.
Proof.
  destruct (decide ("path" ∈ globals s)) as [Hin|Hout].
  - unfold main. rewrite Script_bind_run. rewrite del_global_run by done.
    set (s1 := mkSession _ _ _).
    match goal with
    | |- _ ∉ globals (?rest s1).2 =>
        assert (defines_nothing rest) as Hrest
    end.
    { unfold sems_ir, mems, recognised, first_value, values. auto 30 with script. }
    specialize (Hrest s1). intros Hpath. apply Hrest in Hpath.
    unfold s1 in Hpath. simpl in Hpath.
    apply elem_of_difference in Hpath as [_ Hpath]. apply Hpath.
    by apply elem_of_singleton.
  - unfold main. rewrite Script_bind_run. unfold del_global.
    by rewrite decide_False.
Qed.

(** [main] deletes the names it was called with from the module: a second
    call in the same interpreter raises [KeyError] before it reads, prints
    or writes anything. *)
Theorem main_second_call (path path' : string) (T_wish T_wish' : list Z)
    (glob_var glob_var' : Z) (s : session) :
  main_of path' T_wish' glob_var' (main_of path T_wish glob_var s).2
  = (Raises KeyError, (main_of path T_wish glob_var s).2).
Proof.
  pose proof (main_deletes_path path T_wish glob_var s) as Hgone.
  set (s1 := (main_of path T_wish glob_var s).2) in *.
  unfold main. rewrite Script_bind_run. unfold del_global.
  by rewrite decide_False.
Qed.

Lemma main_enter (path : string) (T_wish : list Z) (glob_var : Z) (s : session)
    (p : params) (echoes : Array2 complex) :
  loaded s → agilent_read path = Returns (p, echoes) →
  main_of path T_wish glob_var s
  = (t1 ← recognised p "sems" "y";
     if (t1 : bool) then
       sems_ir py_eval dft2 cabs junk_c junk_f np_exp exp_beyond_int64 curve_fit
         p echoes T_wish glob_var
     else
       t2 ← recognised p "mems" "n";
       if (t2 : bool) then
         mems py_eval dft2 cabs junk_c junk_f np_exp exp_beyond_int64 curve_fit
           p echoes T_wish glob_var
       else
         _ ← print "Error: not SEMS-IR nor MEMS data.";
         mret PyNone) (entered s).
Proof.
  intros (Hpath & Hwish & Hvar) Hread. unfold main.
  rewrite Script_bind_run, del_global_run by done.
  rewrite Script_bind_run, del_global_run
    by (simpl; apply elem_of_difference; split; [done|];
        by intros ?%elem_of_singleton).
  rewrite Script_bind_run, del_global_run
    by (simpl; repeat (apply elem_of_difference; split);
        [done|by intros ?%elem_of_singleton..]).
  rewrite Script_bind_run. unfold eval_to at 1. rewrite Hread. done.
Qed.

(** Data that are neither inversion-recovery spin-echo ([sems] with
    [ir = 'y']) nor multi-echo ([mems] with [ir = 'n']): [main] prints the
    error message and returns [None]; no stage runs and the store is as it
    was.  Lines 256 to 265 then bind [TheoretImgs] to [None] when
    [glob_var] is 1, and raise [TypeError] when it is 2. *)
Theorem main_unsupported (path : string) (T_wish : list Z) (glob_var : Z)
    (s : session) (p : params) (echoes : Array2 complex)
    (l i : string) (ls irs : list string) :
  loaded s → agilent_read path = Returns (p, echoes) →
  procpar p !! "layout" = Some (l :: ls) →
  (l = "sems" ∨ l = "mems" → procpar p !! "ir" = Some (i :: irs)) →
  ¬ (l = "sems" ∧ i = "y") → ¬ (l = "mems" ∧ i = "n") →
  main_of path T_wish glob_var s
  = (Returns PyNone,
     mkSession (globals (entered s))
       (stdout s ++ ["Error: not SEMS-IR nor MEMS data."]) (store s)) ∧
  script_of path T_wish glob_var s
  = (if decide (glob_var = 2%Z) then Raises (Exn TypeError) else Returns (),
     mkSession
       (if decide (glob_var = 1%Z) then {["TheoretImgs"]} ∪ globals (entered s)
        else globals (entered s))
       (stdout s ++ ["Error: not SEMS-IR nor MEMS data."]) (store s)).
Proof.
  intros Hloaded Hread Hl Hi Hsems Hmems.
  assert (main_of path T_wish glob_var s
          = (Returns PyNone,
             mkSession (globals (entered s))
               (stdout s ++ ["Error: not SEMS-IR nor MEMS data."]) (store s)))
    as Hmain.
  { rewrite (main_enter _ _ _ _ p echoes) by done.
    rewrite Script_bind_run, (recognised_run p "sems" "y" l i ls irs) by auto.
    rewrite bool_decide_eq_false_2 by done.
    rewrite Script_bind_run, (recognised_run p "mems" "n" l i ls irs) by auto.
    rewrite bool_decide_eq_false_2 by done.
    done. }
  split; [done|]. unfold script.
  destruct (decide (glob_var = 1%Z)) as [->|H1].
  - rewrite decide_False by done. rewrite Script_bind_run, Hmain. done.
  - destruct (decide (glob_var = 2%Z)) as [->|H2].
    + rewrite Script_bind_run, Hmain. done.
    + rewrite Script_bind_run, Hmain. done.
Qed.



End script_facts.

Lemma loaded_fresh_session : loaded fresh_session.
Proof. repeat split; set_solver. Qed.

Lemma main_unsupported_witness :
  main (read_stub "sems" "n") eval_stub dft_stub fst (0, 0)%float 0%float
    exp_stub beyond_stub never_converges "sems_01.fid" [1; 250]%Z 2 fresh_session
  = (Returns PyNone,
     mkSession (globals (entered fresh_session))
       (stdout fresh_session ++ ["Error: not SEMS-IR nor MEMS data."])
       (store fresh_session)) ∧
  script (read_stub "sems" "n") eval_stub dft_stub fst (0, 0)%float 0%float
    exp_stub beyond_stub never_converges "sems_01.fid" [1; 250]%Z 2 fresh_session
  = (if decide (2%Z = 2%Z) then Raises (Exn TypeError) else Returns (),
     mkSession
       (if decide (2%Z = 1%Z) then {["TheoretImgs"]} ∪ globals (entered fresh_session)
        else globals (entered fresh_session))
       (stdout fresh_session ++ ["Error: not SEMS-IR nor MEMS data."])
       (store fresh_session)).
Proof.
  apply (main_unsupported (read_stub "sems" "n") eval_stub dft_stub fst
           (0, 0)%float 0%float exp_stub beyond_stub never_converges "sems_01.fid" [1; 250]%Z 2
           fresh_session (example_params "sems" "n") (mkArray2 1 1 [[(1, 0)%float]])
           "sems" "n" [] []).
  - apply loaded_fresh_session.
  - reflexivity.
  - reflexivity.
  - intros _. reflexivity.
  - intros [_ ?]. discriminate.
  - intros [? _]. discriminate.
Defined.





(** The run of the multi-echo example, evaluated: the stack is object 0
    of the store, the maps are objects 1 to 3, the two images objects 4 and
    5; a second call raises [KeyError]. *)
Example main_mems_evaluated :
  (main (read_stub "mems" "n") eval_stub dft_stub fst (0, 0)%float 0%float
     exp_stub beyond_stub never_converges "mems_01.fid" [1; 250]%Z 1 fresh_session).1
  = Returns (Images [4; 5]) ∧
  (folder (store
     (main (read_stub "mems" "n") eval_stub dft_stub fst (0, 0)%float 0%float
        exp_stub beyond_stub never_converges "mems_01.fid" [1; 250]%Z 1 fresh_session).2)).*1
  = ["Theoretical_MRI/slice_1_TE_1ms.png"; "Theoretical_MRI/slice_1_TE_250ms.png"]%string ∧
  (main (read_stub "mems" "n") eval_stub dft_stub fst (0, 0)%float 0%float
     exp_stub beyond_stub never_converges "mems_01.fid" [1; 250]%Z 1
     (main (read_stub "mems" "n") eval_stub dft_stub fst (0, 0)%float 0%float
        exp_stub beyond_stub never_converges "mems_01.fid" [1; 250]%Z 1 fresh_session).2).1
  = Raises KeyError.
Proof. split; [|split]; vm_compute; reflexivity. Qed.


(** ** Memory that was never written *)

(** Two runs of a loop whose states are related pass by pass end in
    related states, or raise the same exception. *)
Lemma for_each_seq_related {St} (R : nat → St → St → Prop)
    (body body' : St → nat → result St) (start len : nat) (s s' : St) :
  R start s s' →
  (∀ k s s', start ≤ k < start + len → R k s s' →
     match body s k, body' s' k with
     | Ok a, Ok a' => R (S k) a a'
     | Raise e, Raise e' => e = e'
     | _, _ => False
     end) →
  match for_each body s (seq start len), for_each body' s' (seq start len) with
  | Ok a, Ok a' => R (start + len) a a'
  | Raise e, Raise e' => e = e'
  | _, _ => False
  end.
Proof.
  revert start s s'. induction len as [|len IH]; intros start s s' HR Hstep; simpl.
  - by rewrite Nat.add_0_r.
  - pose proof (Hstep start s s') as Hpass.
    destruct (body s start) as [a|e], (body' s' start) as [a'|e']; simpl.
    + replace (start + S len) with (S start + len) by lia.
      apply IH; [apply Hpass; (lia || done)|].
      intros k t t' Hk. apply Hstep. lia.
    + exfalso. apply Hpass; (lia || done).
    + exfalso. apply Hpass; (lia || done).
    + apply Hpass; (lia || done).
Qed.

Section stacks.
Context {A : Type}.

Lemma agree_to_eq (n : nat) (a a' : Array3 A) : agree_to n n a a' → a = a'.
Proof.
  destruct a as [d h w ps], a' as [d' h' w' ps']. unfold agree_to. simpl.
  intros (-> & -> & -> & Hl & Hl' & Hall). f_equal.
  apply list_eq. intros i. destruct (decide (i < n)); [by apply Hall|].
  by rewrite !lookup_ge_None_2 by lia.
Qed.

Lemma setitem3_agree (n k : nat) (a a' : Array3 A) (src : Array2 A) :
  k < n → agree_to n k a a' →
  match setitem3 a k src, setitem3 a' k src with
  | Ok b, Ok b' => agree_to n (S k) b b'
  | Raise e, Raise e' => e = e'
  | _, _ => False
  end.
Proof.
  intros Hk (Hd & Hh & Hw & Hl & Hl' & Hall). unfold setitem3.
  rewrite <-Hd, <-Hh, <-Hw. case_decide; [|done].
  destruct (broadcast_to src _ _) as [p|e]; simpl; [|done].
  repeat split; simpl; rewrite ?length_insert; try done.
  intros i Hi. destruct (decide (i = k)) as [->|Hne].
  - by rewrite !list_lookup_insert_eq by lia.
  - rewrite !list_lookup_insert_ne by done. apply Hall. lia.
Qed.

Lemma agree_to_np_empty3 (junk junk' : A) (d h w : nat) :
  agree_to d 0 (np_empty3 junk d h w) (np_empty3 junk' d h w).
Proof.
  repeat split; simpl; rewrite ?length_replicate; try done. intros i Hi. lia.
Qed.

(** The k-spaces do not depend on what [np.empty] found in memory. *)
Lemma get_kspaces_junk (junk junk' : A) (n : nat) (echoes : Array2 A) :
  get_kspaces junk n echoes = get_kspaces junk' n echoes.
Proof.
  unfold get_kspaces. destruct (int_div _ _) as [m|e]; simpl; [|done].
  pose proof (for_each_seq_related (agree_to n)
    (λ kspaces kspace_no,
       setitem3 kspaces kspace_no (slice_rows echoes kspace_no (nrows echoes) n))
    (λ kspaces kspace_no,
       setitem3 kspaces kspace_no (slice_rows echoes kspace_no (nrows echoes) n))
    0 n (np_empty3 junk n m (ncols echoes)) (np_empty3 junk' n m (ncols echoes)))
    as Hloop.
  destruct (for_each _ (np_empty3 junk _ _ _) _) as [a|e],
           (for_each _ (np_empty3 junk' _ _ _) _) as [a'|e'].
  - f_equal. apply (agree_to_eq n). apply Hloop; [apply agree_to_np_empty3|].
    intros k s s' Hk HR. apply setitem3_agree; [lia|done].
  - exfalso. apply Hloop; [apply agree_to_np_empty3|].
    intros k s s' Hk HR. apply setitem3_agree; [lia|done].
  - exfalso. apply Hloop; [apply agree_to_np_empty3|].
    intros k s s' Hk HR. apply setitem3_agree; [lia|done].
  - f_equal. apply Hloop; [apply agree_to_np_empty3|].
    intros k s s' Hk HR. apply setitem3_agree; [lia|done].
Qed.

End stacks.

Section initialised.
Variable dft2 : list (list complex) → nat → nat → complex.
Variable cabs : complex → float.

(** What [np.empty] finds in memory on lines 44 and 52 never reaches the
    result: with other contents [get_images] returns the same images, or
    raises the same exception. *)
Theorem get_images_no_uninitialised (junk_c junk_c' : complex)
    (junk_f junk_f' : float) (number_of_images : nat) (echoes : Array2 complex) :
  get_images dft2 cabs junk_c junk_f number_of_images echoes
  = get_images dft2 cabs junk_c' junk_f' number_of_images echoes.
Proof.
  unfold get_images. rewrite (get_kspaces_junk junk_c junk_c').
  destruct (get_kspaces junk_c' number_of_images echoes) as [kspaces|e] eqn:Hk;
    simpl; [|done].
  apply get_kspaces_shape in Hk as (Hd & _ & _ & _).
  set (n := number_of_images) in *.
  set (body := λ (images : Array3 float) (kspace_no : nat),
         kspace ← getitem3 kspaces kspace_no;
         image ← reconstruct dft2 cabs kspace;
         setitem3 images kspace_no image).
  pose proof (for_each_seq_related (agree_to n) body body 0 n
                (np_empty3 junk_f (depth kspaces) (height kspaces) (width kspaces))
                (np_empty3 junk_f' (depth kspaces) (height kspaces) (width kspaces)))
    as Hloop.
  assert (∀ k s s', 0 ≤ k < 0 + n → agree_to n k s s' →
            match body s k, body s' k with
            | Ok a, Ok a' => agree_to n (S k) a a'
            | Raise e, Raise e' => e = e'
            | _, _ => False
            end) as Hstep.
  { intros k s s' Hrange HR. unfold body.
    destruct (getitem3 kspaces k) as [kspace|e]; simpl; [|done].
    destruct (reconstruct dft2 cabs kspace) as [image|e]; simpl; [|done].
    apply setitem3_agree; [lia|done]. }
  rewrite Hd in Hloop. specialize (Hloop (agree_to_np_empty3 _ _ _ _ _) Hstep).
  rewrite Hd.
  destruct (for_each body (np_empty3 junk_f _ _ _) _) as [a|e],
           (for_each body (np_empty3 junk_f' _ _ _) _) as [a'|e']; try done.
  - f_equal. by apply (agree_to_eq n).
  - by f_equal.
Qed.

End initialised.


(** ** Images after the last complete run *)

(** Two runs of a loop over related worlds, with the same passes, end
    with the same value in related worlds. *)
Lemma for_each_M_related {St I} (R : world → world → Prop)
    (body body' : St → I → M St) (range : list I) (s : St) (w w' : world) :
  R w w' →
  (∀ x s w w', x ∈ range → R w w' →
     (body s x w).1 = (body' s x w').1 ∧ R (body s x w).2 (body' s x w').2) →
  (for_each body s range w).1 = (for_each body' s range w').1 ∧
  R (for_each body s range w).2 (for_each body' s range w').2.
Proof.
  revert s w w'. induction range as [|x range IH]; intros s w w' HR Hstep; [done|].
  rewrite !for_each_M_cons.
  destruct (Hstep x s w w') as [Hvalue Hworld]; [apply list_elem_of_here|done|].
  destruct (body s x w) as [[a|e] w1], (body' s x w') as [[a'|e'] w1'];
    simpl in *; simplify_eq; [|done].
  apply IH; [done|]. intros y t v v' Hy. apply Hstep. by apply list_elem_of_further.
Qed.

Section remainder_of_stack.
Variable curve_fit :
  model → list float → list float → list float * list float → nat →
  result (list float).

(** A pass of the loop over the runs reads the images of its run and
    nothing else of the stack. *)
Lemma fit_run_differ_at (function : model) (T_train : list float)
    (images : ref) (stack stack' : Array3 float)
    (maps : list ref * list ref * list ref) (i : nat) (w w' : world) :
  height stack' = height stack → width stack' = width stack →
  run_slice (length T_train) stack' i = run_slice (length T_train) stack i →
  differ_at images stack' w w' →
  (fit_run curve_fit function T_train stack maps i w).1
  = (fit_run curve_fit function T_train stack' maps i w').1 ∧
  differ_at images stack'
    (fit_run curve_fit function T_train stack maps i w).2
    (fit_run curve_fit function T_train stack' maps i w').2.
Proof.
  intros Hh Hw Hslice HR. unfold fit_run. destruct maps as [[T_maps Momaps] Cmaps].
  fold (run_slice (length T_train) stack i).
  fold (run_slice (length T_train) stack' i). rewrite Hslice, Hh, Hw.
  destruct HR as (Hlt & Hheap & Hfolder).
  unfold lift, alloc. unfold mbind, M_bind, mret, M_ret. simpl.
  destruct (for_each _ _ _) as [[[T_list Molist] Clist]|e]; simpl; [|done].
  (destruct (reshape2 T_list _ _) as [T_map|e]; simpl;
     [destruct (reshape2 Molist _ _) as [Momap|e]; simpl;
        [destruct (reshape2 Clist _ _) as [Cmap|e]; simpl|]|]);
    (rewrite ?Hheap, ?length_app, ?length_insert; split; [done|];
     split; [|split]; simpl;
     [ rewrite ?length_app; lia
     | rewrite ?insert_app_l by (rewrite ?length_app; lia); done
     | done ]).
Qed.

(** Images that follow the last complete run have no influence: with
    another stack of the same shape behind the reference, with as many
    complete runs and the same images in them, [calculate_maps] has the same
    outcome and allocates the same maps. *)
Theorem calculate_maps_ignores_remainder (function : model) (T_train : list float)
    (images : ref) (w : world) (stack stack' : Array3 float) :
  heap w !! images = Some (Arr3 stack) →
  height stack' = height stack → width stack' = width stack →
  depth stack' / length T_train = depth stack / length T_train →
  take (length T_train * (depth stack / length T_train)) (planes stack')
  = take (length T_train * (depth stack / length T_train)) (planes stack) →
  (calculate_maps curve_fit images T_train function
     (mkWorld (<[images:=Arr3 stack']> (heap w)) (folder w))).1
  = (calculate_maps curve_fit images T_train function w).1 ∧
  heap (calculate_maps curve_fit images T_train function
          (mkWorld (<[images:=Arr3 stack']> (heap w)) (folder w))).2
  = <[images:=Arr3 stack']> (heap (calculate_maps curve_fit images T_train function w).2).
Proof.
  intros Himages Hh Hw Hruns Htake.
  assert (images < length (heap w)) as Hlt by by eapply lookup_lt_Some.
  unfold calculate_maps, read3, lift. rewrite !M_bind_run. cbn [heap].
  rewrite list_lookup_insert_eq by done. rewrite Himages.
  unfold int_div. case_decide as Hn; simpl; [done|]. rewrite Hruns.
  set (K := depth stack / length T_train) in *.
  destruct (for_each_M_related (differ_at images stack')
              (fit_run curve_fit function T_train stack)
              (fit_run curve_fit function T_train stack')
              (seq 0 K) ([], [], []) w
              (mkWorld (<[images:=Arr3 stack']> (heap w)) (folder w)))
    as [Hvalue (_ & Hheap & _)].
  - by split.
  - intros i maps w1 w1' Hi HR. apply elem_of_seq in Hi.
    apply fit_run_differ_at; [done..| |done].
    unfold run_slice.
    assert (∀ l : list (list (list float)),
      take (length T_train * (i + 1) - length T_train * i)
        (drop (length T_train * i) l)
      = take (length T_train * (i + 1) - length T_train * i)
          (drop (length T_train * i) (take (length T_train * K) l))) as Hcut.
    { intros l. rewrite skipn_firstn_comm, take_take. f_equal. nia. }
    by rewrite (Hcut (planes stack')), (Hcut (planes stack)), Htake.
  - split; [symmetry; exact Hvalue|exact Hheap].
Qed.

(** When every call of the solver on the stack returns parameters or does
    not converge there is one triple of maps per complete run, and every map
    has the shape of an image. *)
Theorem calculate_maps_shapes (function : model) (T_train : list float)
    (images : ref) (w : world) (stack : Array3 float) :
  settles_on curve_fit function T_train stack →
  heap w !! images = Some (Arr3 stack) → wf3 stack →
  0 < length T_train → 0 < width stack →
  ∃ T_maps Momaps Cmaps w',
    calculate_maps curve_fit images T_train function w
      = (Ok (T_maps, Momaps, Cmaps), w') ∧
    length T_maps = depth stack / length T_train ∧
    length Momaps = depth stack / length T_train ∧
    length Cmaps = depth stack / length T_train ∧
    ∀ r, r ∈ T_maps ++ Momaps ++ Cmaps →
      ∃ a, heap w' !! r = Some (Arr2 a) ∧
           nrows a = height stack ∧ ncols a = width stack.
Proof.
  intros Hsolver Himages Hwf Htrain Hw.
  destruct (calculate_maps_ok curve_fit function T_train images w stack)
    as (T_maps & Momaps & Cmaps & w' & Hrun & HlT & HlM & HlC & Hfitted); [done..|].
  exists T_maps, Momaps, Cmaps, w'. do 4 (split; [done|]).
  intros r Hr.
  assert (∃ i, i < depth stack / length T_train ∧
               (T_maps !! i = Some r ∨ Momaps !! i = Some r ∨ Cmaps !! i = Some r))
    as (i & Hi & Hlook).
  { rewrite !elem_of_app in Hr.
    destruct Hr as [Hr|[Hr|Hr]]; apply list_elem_of_lookup_1 in Hr as [i Hr];
      exists i; (split; [apply lookup_lt_Some in Hr; lia|auto]). }
  destruct (Hfitted i Hi)
    as (T_ref & Mo_ref & C_ref & T_map & Momap & Cmap
        & HT & HMo & HC & HhT & HhMo & HhC & [= ? ?] & [= ? ?] & [= ? ?] & _).
  destruct Hlook as [Hlook|[Hlook|Hlook]]; simplify_eq; by eexists.
Qed.

End remainder_of_stack.

Lemma calculate_maps_ignores_remainder_witness :
  (calculate_maps never_converges 0 [1; 2; 3]%float T2
     (mkWorld
        (<[0:=Arr3 (mkArray3 4 1 2 [[[1; 2]]; [[3; 4]]; [[5; 6]]; [[0; 0]]]%float)]>
           (heap (mkWorld [Arr3 example_stack] [])))
        (folder (mkWorld [Arr3 example_stack] [])))).1
  = (calculate_maps never_converges 0 [1; 2; 3]%float T2
       (mkWorld [Arr3 example_stack] [])).1 ∧
  heap (calculate_maps never_converges 0 [1; 2; 3]%float T2
     (mkWorld
        (<[0:=Arr3 (mkArray3 4 1 2 [[[1; 2]]; [[3; 4]]; [[5; 6]]; [[0; 0]]]%float)]>
           (heap (mkWorld [Arr3 example_stack] [])))
        (folder (mkWorld [Arr3 example_stack] [])))).2
  = <[0:=Arr3 (mkArray3 4 1 2 [[[1; 2]]; [[3; 4]]; [[5; 6]]; [[0; 0]]]%float)]>
      (heap (calculate_maps never_converges 0 [1; 2; 3]%float T2
               (mkWorld [Arr3 example_stack] [])).2).
Proof.
  apply (calculate_maps_ignores_remainder never_converges T2 [1; 2; 3]%float 0
           (mkWorld [Arr3 example_stack] []) example_stack
           (mkArray3 4 1 2 [[[1; 2]]; [[3; 4]]; [[5; 6]]; [[0; 0]]]%float)).
  - reflexivity.
  - reflexivity.
  - reflexivity.
  - reflexivity.
  - reflexivity.
Defined.

Lemma calculate_maps_shapes_witness :
  ∃ T_maps Momaps Cmaps w',
    calculate_maps fits_bright 0 [1; 2]%float T2 (mkWorld [Arr3 example_stack] [])
      = (Ok (T_maps, Momaps, Cmaps), w') ∧
    length T_maps = depth example_stack / length [1; 2]%float ∧
    length Momaps = depth example_stack / length [1; 2]%float ∧
    length Cmaps = depth example_stack / length [1; 2]%float ∧
    ∀ r, r ∈ T_maps ++ Momaps ++ Cmaps →
      ∃ a, heap w' !! r = Some (Arr2 a) ∧
           nrows a = height example_stack ∧ ncols a = width example_stack.
Proof.
  apply (calculate_maps_shapes fits_bright T2 [1; 2]%float 0
           (mkWorld [Arr3 example_stack] []) example_stack).
  - apply fits_bright_settles.
  - reflexivity.
  - apply example_stack_wf.
  - simpl. lia.
  - simpl. lia.
Defined.
